(** * MeloBot: event dispatch, tagging and predicate composition

    A shallow embedding of [melobot/core/dispatcher.py] (class
    [BotDispatcher]) and of [melobot/base/abc.py] (classes [Flagable],
    [BotEvent], [BotAction], [BotChecker], [WrappedChecker], [BotMatcher],
    [WrappedMatcher] and the argument records), of the registration
    methods and [_self_build] of [melobot/plugin/init.py], and of the
    escaping, the message packer and the action builder of
    [utils/actInterface.py] with [text_action] of
    [templates/lifecycle.py], followed by the properties proved about
    them.

    Conventions of the embedding:
    - a Python method that may raise returns a [result]; a method that
      mutates [self] also returns the new [self];
    - checker objects are mutated through shared references, so their
      callback slots live in a store indexed by object identity;
    - a [dict] with string keys is a [gmap string _] when only lookups
      matter and an insertion-ordered association list ([pydict]) when the
      order of the keys is observable;
    - the three families of event handlers are told apart by [isinstance]
      in the source and by a [handler_family] tag here. *)

From stdpp Require Import gmap strings list fin_maps.
From Stdlib Require Import ZArith Ascii Sorted Permutation.

Local Open Scope Z_scope.

(** ** Python values *)

(** The fragment of Python's [Any] that tags and action parameters use:
    [None], booleans, integers, strings and dictionaries with string keys
    (in insertion order). *)
#[local] Unset Elimination Schemes.
Inductive pyval : Type :=
| PyNone
| PyBool (b : bool)
| PyInt (z : Z)
| PyStr (s : string)
| PyDict (d : list (string * pyval)).
#[local] Set Elimination Schemes.

Abbreviation pydict := (list (string * pyval)).

(** [d.get(k)] on an insertion-ordered dictionary. *)
Fixpoint dict_get (k : string) (d : pydict) : option pyval :=
  match d with
  | [] => None
  | (k', v) :: d' => if String.eqb k k' then Some v else dict_get k d'
  end.

(** [d[k] = v]: an existing key keeps its position, a new key goes last. *)
Fixpoint dict_set (k : string) (v : pyval) (d : pydict) : pydict :=
  match d with
  | [] => [(k, v)]
  | (k', v') :: d' =>
      if String.eqb k k' then (k', v) :: d' else (k', v') :: dict_set k v d'
  end.

Definition is_None (v : pyval) : bool :=
  match v with PyNone => true | _ => false end.

(** [bool] is a subclass of [int] in Python: [True == 1] and [False == 0]. *)
Definition int_of_bool (b : bool) : Z := if b then 1 else 0.

(** Python's [==] on the fragment. Dictionaries are equal when they have
    as many keys and every key of the first maps to an equal value in the
    second, whatever the insertion order. *)
Fixpoint py_eq (a b : pyval) : bool :=
  match a, b with
  | PyNone, PyNone => true
  | PyBool x, PyBool y => Bool.eqb x y
  | PyBool x, PyInt y => Z.eqb (int_of_bool x) y
  | PyInt x, PyBool y => Z.eqb x (int_of_bool y)
  | PyInt x, PyInt y => Z.eqb x y
  | PyStr x, PyStr y => String.eqb x y
  | PyDict d1, PyDict d2 =>
      Nat.eqb (length d1) (length d2)
      && forallb (fun '(k, v) =>
                    match dict_get k d2 with
                    | Some v' => py_eq v v'
                    | None => false
                    end) d1
  | _, _ => false
  end.

(** A value as Python can build it: the keys of every dictionary are
    distinct. *)
Fixpoint wf_val (v : pyval) : Prop :=
  match v with
  | PyDict d =>
      NoDup (map fst d)
      /\ (fix wf_items (l : pydict) : Prop :=
            match l with
            | [] => True
            | (_, x) :: l' => wf_val x /\ wf_items l'
            end) d
  | _ => True
  end.

(** Truth value of an [Optional[str]]: [None] and the empty string are
    falsy. *)
Definition truthy_opt_str (o : option string) : bool :=
  match o with
  | None => false
  | Some s => negb (String.eqb s "")
  end.

(** ** Exceptions and results *)

(** The exception classes the modelled code raises or catches. Every class
    but the last derives from [Exception]; [SystemExiting] stands for the
    classes that derive from [BaseException] only ([SystemExit],
    [KeyboardInterrupt], task cancellation). *)
Inductive PyExc : Type :=
| TryFlagFailed (msg : string)
| BotActionError (msg : string)
| BotCheckerError (msg : string)
| BotMatcherError (msg : string)
| KeyError (key : string)
| OtherException (cls : string) (msg : string)
| SystemExiting (cls : string) (msg : string).

(** [isinstance(e, Exception)]. *)
Definition isinstance_Exception (e : PyExc) : bool :=
  match e with
  | SystemExiting _ _ => false
  | _ => true
  end.

(** [e.__class__.__name__]. *)
Definition class_name (e : PyExc) : string :=
  match e with
  | TryFlagFailed _ => "TryFlagFailed"
  | BotActionError _ => "BotActionError"
  | BotCheckerError _ => "BotCheckerError"
  | BotMatcherError _ => "BotMatcherError"
  | KeyError _ => "KeyError"
  | OtherException cls _ => cls
  | SystemExiting cls _ => cls
  end.

Inductive result (A : Type) : Type :=
| Ok (a : A)
| Raise (e : PyExc).
Arguments Ok {A} a.
Arguments Raise {A} e.

(** ** Predicates: checkers and matchers *)

(** [LogicMode] of [melobot.base.typing]; only the members' names are used
    by the modelled code. *)
Inductive LogicMode : Type := AND | OR | NOT | XOR.

(** A callback is a function object; only its identity is observable. *)
Inductive callback : Type := Callback (id : nat).

(** The two callback slots every [BotChecker] owns. *)
Record cb_slots : Type := mk_slots {
  ok_cb : option callback;
  fail_cb : option callback
}.

Definition empty_slots : cb_slots := mk_slots None None.

(** A checker object is named by its identity [id]. What never changes
    after its construction is in the tree: a leaf (an instance of a
    concrete subclass of [BotChecker]) or a [WrappedChecker] with its mode,
    its first child and its optional second child. The same object may be
    reached along several paths: it then occurs several times, under the
    same identity. *)
#[local] Unset Elimination Schemes.
Inductive checker : Type :=
| CLeaf (id : nat)
| CWrapped (id : nat) (mode : LogicMode)
           (c1 : checker) (c2 : option checker).

(** Matchers carry no state that changes: they are plain trees. *)
Inductive matcher : Type :=
| MLeaf (leaf : nat)
| MWrapped (mode : LogicMode) (m1 : matcher) (m2 : option matcher).

#[local] Set Elimination Schemes.

Definition checker_id (c : checker) : nat :=
  match c with
  | CLeaf id => id
  | CWrapped id _ _ _ => id
  end.

(** What changes, the callback slots, is in a store indexed by identity.
    An object the store does not mention has both slots empty, as after
    [BotChecker.__init__()] without arguments. *)
Abbreviation cb_store := (gmap nat cb_slots).

Definition slots_at (σ : cb_store) (id : nat) : cb_slots :=
  default empty_slots (σ !! id).

(** Any object that can stand to the right of an operator. *)
Inductive pyobj : Type :=
| ObjVal (v : pyval)
| ObjCallback (cb : callback)
| ObjChecker (c : checker)
| ObjMatcher (m : matcher).

(** What the modelled code takes from the Python runtime: [str(o)] as
    used by f-strings, [repr] of a string (the text of a [KeyError]) and
    [traceback.format_exc()] for the exception being handled. *)
Class PyBuiltins : Type := {
  py_str : pyobj -> string;
  py_repr_str : string -> string;
  format_exc : PyExc -> string
}.

(** [str(e)] for an exception [e]. *)
Definition exc_str `{PyBuiltins} (e : PyExc) : string :=
  match e with
  | TryFlagFailed msg => msg
  | BotActionError msg => msg
  | BotCheckerError msg => msg
  | BotMatcherError msg => msg
  | KeyError key => py_repr_str key
  | OtherException _ msg => msg
  | SystemExiting _ msg => msg
  end.

(** ** [Flagable]: the tag store *)

Module Flagable.

Record t : Type := mk {
  _flags_store : option (gmap string (gmap string pyval))
}.

Definition __init__ : t := mk None.

Definition mark (self : t) (namespace flag_name : string) (val : pyval)
  : result unit * t :=
  let store1 : gmap string (gmap string pyval) :=
    match _flags_store self with
    | None => ∅
    | Some s => s
    end in
  let store2 :=
    match store1 !! namespace with
    | None => <[namespace := ∅]> store1
    | Some _ => store1
    end in
  match store2 !! namespace with
  | None => (Raise (KeyError namespace), mk (Some store2))
  | Some flags =>
      match flags !! flag_name with
      | Some _ =>
          (Raise (TryFlagFailed
                    ("对象不可被重复标记。在命名空间 " +:+ namespace
                     +:+ " 中名为 " +:+ flag_name +:+ " 的标记已存在")),
           mk (Some store2))
      | None =>
          (Ok tt,
           mk (Some (<[namespace := <[flag_name := val]> flags]> store2)))
      end
  end.

Definition flag_check (self : t) (namespace flag_name : string)
  (val : pyval) : result bool * t :=
  let self := mk (_flags_store self) in
  match _flags_store self with
  | None => (Ok false, self)
  | Some store =>
      match store !! namespace with
      | None => (Ok false, self)
      | Some flags =>
          match flags !! flag_name with
          | None => (Ok false, self)
          | Some flag =>
              (Ok (if is_None val then is_None flag else py_eq flag val),
               self)
          end
      end
  end.

End Flagable.

(** The value stored for a pair, if the pair was ever set. *)
Definition tag_of (o : Flagable.t) (namespace flag_name : string)
  : option pyval :=
  match Flagable._flags_store o with
  | None => None
  | Some store =>
      match store !! namespace with
      | None => None
      | Some flags => flags !! flag_name
      end
  end.

(** ** Events and actions *)

Module BotEvent.

(** An event: its time, its type (one of "message", "request", "notice",
    "meta", "response"), the raw payload it was built from and the tag
    store it inherits from [Flagable]. *)
Record t : Type := mk {
  time : Z;
  type : string;
  raw : pyval;
  flags : Flagable.t
}.

End BotEvent.

Module BotAction.

(** [type] and [params] are copied from the [ActionArgs] given to the
    constructor. *)
Record t : Type := mk {
  resp_id : option string;
  type : string;
  params : pydict;
  trigger : option BotEvent.t;
  _ready : bool;
  flags : Flagable.t
}.

Definition __init__ (args_type : string) (args_params : pydict)
  (resp_id : option string) (triggerEvent : option BotEvent.t)
  (ready : bool) : t :=
  mk resp_id args_type args_params triggerEvent ready Flagable.__init__.

(** [self.resp_id] as a Python value. *)
Definition resp_id_val (self : t) : pyval :=
  match resp_id self with
  | None => PyNone
  | Some id => PyStr id
  end.

Definition extract (self : t) : result pydict :=
  let obj := [("action", PyStr (type self));
              ("params", PyDict (params self))] in
  if truthy_opt_str (resp_id self)
  then Ok (dict_set "echo" (resp_id_val self) obj)
  else Ok obj.

Definition _fill_trigger (self : t) (event : BotEvent.t) : result unit * t :=
  match trigger self with
  | None =>
      (Ok tt,
       mk (resp_id self) (type self) (params self) (Some event)
          (_ready self) (flags self))
  | Some _ =>
      (Raise (BotActionError "action 已记录触发 event，拒绝再次记录"), self)
  end.

End BotAction.

(** ** Checkers *)

Module BotChecker.

(** [self] is the identity of the object under construction. *)
Definition __init__ (self : nat) (ok_cb fail_cb : option callback)
  (σ : cb_store) : cb_store :=
  <[self := mk_slots ok_cb fail_cb]> σ.

Definition _fill_ok_cb `{PyBuiltins} (self : nat) (cb : callback)
  (σ : cb_store) : result unit * cb_store :=
  match ok_cb (slots_at σ self) with
  | Some old =>
      (Raise (BotCheckerError
                ("ok_cb 回调已经被初始化，值为：" +:+ py_str (ObjCallback old))),
       σ)
  | None =>
      (Ok tt, <[self := mk_slots (Some cb) (fail_cb (slots_at σ self))]> σ)
  end.

Definition _fill_fail_cb `{PyBuiltins} (self : nat) (cb : callback)
  (σ : cb_store) : result unit * cb_store :=
  match fail_cb (slots_at σ self) with
  | Some old =>
      (Raise (BotCheckerError
                ("fail_cb 回调已经被初始化，值为：" +:+ py_str (ObjCallback old))),
       σ)
  | None =>
      (Ok tt, <[self := mk_slots (ok_cb (slots_at σ self)) (Some cb)]> σ)
  end.

End BotChecker.

Module WrappedChecker.

(** [self] is the identity of the object under construction. *)
Definition __init__ (self : nat) (mode : LogicMode) (checker1 : checker)
  (checker2 : option checker) (σ : cb_store) : result checker * cb_store :=
  (Ok (CWrapped self mode checker1 checker2),
   BotChecker.__init__ self None None σ).

(** [c._fill_ok_cb(cb)] for any checker [c]: a leaf runs the base-class
    method, a [WrappedChecker] runs the base-class method on itself, then
    fills [c1], then [c2] when there is one. An exception stops the
    traversal where it is raised; the slots filled before it stay
    filled. *)
Fixpoint _fill_ok_cb `{PyBuiltins} (self : checker) (cb : callback)
  (σ : cb_store) : result unit * cb_store :=
  match self with
  | CLeaf id => BotChecker._fill_ok_cb id cb σ
  | CWrapped id mode c1 c2 =>
      match BotChecker._fill_ok_cb id cb σ with
      | (Raise e, σ1) => (Raise e, σ1)
      | (Ok _, σ1) =>
          match _fill_ok_cb c1 cb σ1 with
          | (Raise e, σ2) => (Raise e, σ2)
          | (Ok _, σ2) =>
              match c2 with
              | None => (Ok tt, σ2)
              | Some c2v => _fill_ok_cb c2v cb σ2
              end
          end
      end
  end.

Fixpoint _fill_fail_cb `{PyBuiltins} (self : checker) (cb : callback)
  (σ : cb_store) : result unit * cb_store :=
  match self with
  | CLeaf id => BotChecker._fill_fail_cb id cb σ
  | CWrapped id mode c1 c2 =>
      match BotChecker._fill_fail_cb id cb σ with
      | (Raise e, σ1) => (Raise e, σ1)
      | (Ok _, σ1) =>
          match _fill_fail_cb c1 cb σ1 with
          | (Raise e, σ2) => (Raise e, σ2)
          | (Ok _, σ2) =>
              match c2 with
              | None => (Ok tt, σ2)
              | Some c2v => _fill_fail_cb c2v cb σ2
              end
          end
      end
  end.

End WrappedChecker.

(** The operators of [BotChecker]; they come after [WrappedChecker], whose
    constructor they call. [new] is the identity of the object the
    operator creates. *)
Module BotCheckerOps.

Definition not_a_checker `{PyBuiltins} (other : pyobj) : PyExc :=
  BotCheckerError
    ("联合检查器定义时出现了非检查器对象，其值为：" +:+ py_str other).

Definition __and__ `{PyBuiltins} (new : nat) (self : checker)
  (other : pyobj) (σ : cb_store) : result checker * cb_store :=
  match other with
  | ObjChecker c => WrappedChecker.__init__ new AND self (Some c) σ
  | _ => (Raise (not_a_checker other), σ)
  end.

Definition __or__ `{PyBuiltins} (new : nat) (self : checker)
  (other : pyobj) (σ : cb_store) : result checker * cb_store :=
  match other with
  | ObjChecker c => WrappedChecker.__init__ new OR self (Some c) σ
  | _ => (Raise (not_a_checker other), σ)
  end.

Definition __invert__ (new : nat) (self : checker) (σ : cb_store)
  : result checker * cb_store :=
  WrappedChecker.__init__ new NOT self None σ.

Definition __xor__ `{PyBuiltins} (new : nat) (self : checker)
  (other : pyobj) (σ : cb_store) : result checker * cb_store :=
  match other with
  | ObjChecker c => WrappedChecker.__init__ new XOR self (Some c) σ
  | _ => (Raise (not_a_checker other), σ)
  end.

End BotCheckerOps.

(** ** Matchers *)

Module WrappedMatcher.

Definition __init__ (mode : LogicMode) (matcher1 : matcher)
  (matcher2 : option matcher) : result matcher :=
  Ok (MWrapped mode matcher1 matcher2).

End WrappedMatcher.

Module BotMatcher.

Definition not_a_matcher `{PyBuiltins} (other : pyobj) : PyExc :=
  BotMatcherError
    ("联合匹配器定义时出现了非匹配器对象，其值为：" +:+ py_str other).

Definition __and__ `{PyBuiltins} (self : matcher) (other : pyobj)
  : result matcher :=
  match other with
  | ObjMatcher m => WrappedMatcher.__init__ AND self (Some m)
  | _ => Raise (not_a_matcher other)
  end.

Definition __or__ `{PyBuiltins} (self : matcher) (other : pyobj)
  : result matcher :=
  match other with
  | ObjMatcher m => WrappedMatcher.__init__ OR self (Some m)
  | _ => Raise (not_a_matcher other)
  end.

Definition __invert__ (self : matcher) : result matcher :=
  WrappedMatcher.__init__ NOT self None.

Definition __xor__ `{PyBuiltins} (self : matcher) (other : pyobj)
  : result matcher :=
  match other with
  | ObjMatcher m => WrappedMatcher.__init__ XOR self (Some m)
  | _ => Raise (not_a_matcher other)
  end.

End BotMatcher.

(** ** Event handlers *)

(** The class of a handler, as [isinstance] sees it in [bind]. A handler of
    another class belongs to [OtherEventHandler]. *)
Inductive handler_family : Type :=
| MsgEventHandler
| ReqEventHandler
| NoticeEventHandler
| OtherEventHandler.

(** [IEventHandler], as [BotDispatcher] uses it. [evoke] is a coroutine of
    the handler: it may read and change anything outside the dispatcher
    (sessions, the network), which is the state [World]; it returns a
    boolean or raises. *)
Record IEventHandler (World : Type) : Type := mk_handler {
  family : handler_family;
  priority : Z;
  set_block : bool;
  evoke : BotEvent.t -> World -> result bool * World
}.
Arguments mk_handler {World} family priority set_block evoke.
Arguments family {World} _.
Arguments priority {World} _.
Arguments set_block {World} _.
Arguments evoke {World} _ _ _.

(** [PriorityLevel.MIN.value] of [melobot.interface.typing]. *)
Class PriorityLevel : Type := { MIN_value : Z }.

(** ** Python's [sorted(l, key=key, reverse=True)]

    A stable sort into descending order of the keys: elements with equal
    keys keep the order they had in [l]. *)
Fixpoint insert_desc {A} (key : A -> Z) (x : A) (l : list A) : list A :=
  match l with
  | [] => [x]
  | y :: l' =>
      if key x <? key y then y :: insert_desc key x l' else x :: y :: l'
  end.

Fixpoint sorted_reverse {A} (key : A -> Z) (l : list A) : list A :=
  match l with
  | [] => []
  | x :: l' => insert_desc key x (sorted_reverse key l')
  end.

(** ** The logger *)

Module Logger.

Inductive level : Type := DEBUG | INFO | WARNING | ERROR.

(** The records written so far, oldest first. *)
Definition t : Type := list (level * string).

Definition error (self : t) (msg : string) : t := self ++ [(ERROR, msg)].
Definition debug (self : t) (msg : string) : t := self ++ [(DEBUG, msg)].

End Logger.

(** ** [str.strip('\n')] *)

Definition newline : ascii := "010"%char.

Fixpoint lstrip_newlines (s : string) : string :=
  match s with
  | EmptyString => EmptyString
  | String c s' => if Ascii.eqb c newline then lstrip_newlines s' else s
  end.

Fixpoint rstrip_newlines (s : string) : string :=
  match s with
  | EmptyString => EmptyString
  | String c s' =>
      match rstrip_newlines s' with
      | EmptyString =>
          if Ascii.eqb c newline then EmptyString else String c EmptyString
      | r => String c r
      end
  end.

Definition strip_newlines (s : string) : string :=
  rstrip_newlines (lstrip_newlines s).

(** ** The dispatcher *)

Module BotDispatcher.

(** What one iteration of the loop of [dispatch] did with its handler. *)
Inductive action : Type :=
| Skipped
| Evoked (r : result bool).

(** One iteration of the loop: the handler's priority and blocking flag,
    [permit_priority] when the iteration starts, what was done, and
    [permit_priority] when the iteration ends. *)
Record step : Type := mk_step {
  step_priority : Z;
  step_block : bool;
  floor_before : Z;
  step_action : action;
  floor_after : Z
}.

(** How a call of [dispatch] ends: suspended on the ready signal, returned,
    or left by an exception. *)
Inductive outcome : Type :=
| Waiting
| Returned
| Propagated (e : PyExc).

Section Dispatcher.

Context {World : Type} `{PyBuiltins} `{PriorityLevel}.

Record t : Type := mk {
  _handlers : gmap string (list (IEventHandler World));
  logger : Logger.t;
  _ready_signal : bool
}.

Definition __init__ (logger : Logger.t) : t :=
  mk (<["message" := []]> (<["request" := []]> (<["notice" := []]> ∅)))
     logger false.

(** [handlers[k].append(handler)], a [KeyError] when [k] is missing. *)
Definition append_to (k : string) (handler : IEventHandler World)
  (handlers : gmap string (list (IEventHandler World)))
  : result unit * gmap string (list (IEventHandler World)) :=
  match handlers !! k with
  | Some l => (Ok tt, <[k := l ++ [handler]]> handlers)
  | None => (Raise (KeyError k), handlers)
  end.

(** The first loop of [bind]. *)
Fixpoint bind_classify (all_handlers : list (IEventHandler World))
  (handlers : gmap string (list (IEventHandler World)))
  : result unit * gmap string (list (IEventHandler World)) :=
  match all_handlers with
  | [] => (Ok tt, handlers)
  | handler :: rest =>
      let '(r, handlers') :=
        match family handler with
        | MsgEventHandler => append_to "message" handler handlers
        | ReqEventHandler => append_to "request" handler handlers
        | NoticeEventHandler => append_to "notice" handler handlers
        | OtherEventHandler => (Ok tt, handlers)
        end in
      match r with
      | Ok _ => bind_classify rest handlers'
      | Raise e => (Raise e, handlers')
      end
  end.

Definition bind (self : t) (all_handlers : list (IEventHandler World))
  : result unit * t :=
  match bind_classify all_handlers (_handlers self) with
  | (Raise e, handlers') =>
      (Raise e, mk handlers' (logger self) (_ready_signal self))
  | (Ok _, handlers') =>
      (Ok tt,
       mk (sorted_reverse priority <$> handlers') (logger self) true)
  end.

(** The [for] loop of [dispatch], from the handlers still to visit, the
    current [permit_priority] and the current state of the world. It
    returns how the loop ended, the iterations it ran, and the world. *)
Fixpoint dispatch_loop (event : BotEvent.t)
  (handlers : list (IEventHandler World)) (permit_priority : Z) (w : World)
  : result unit * list step * World :=
  match handlers with
  | [] => (Ok tt, [], w)
  | handler :: rest =>
      if priority handler <? permit_priority
      then
        let '(r, steps, w') := dispatch_loop event rest permit_priority w in
        (r,
         mk_step (priority handler) (set_block handler) permit_priority
                 Skipped permit_priority :: steps,
         w')
      else
        match evoke handler event w with
        | (Raise e, w1) =>
            (Raise e,
             [mk_step (priority handler) (set_block handler) permit_priority
                      (Evoked (Raise e)) permit_priority],
             w1)
        | (Ok false, w1) =>
            let '(r, steps, w') :=
              dispatch_loop event rest permit_priority w1 in
            (r,
             mk_step (priority handler) (set_block handler) permit_priority
                     (Evoked (Ok false)) permit_priority :: steps,
             w')
        | (Ok true, w1) =>
            let permit_priority' :=
              if set_block handler && (priority handler >? permit_priority)
              then priority handler
              else permit_priority in
            let '(r, steps, w') :=
              dispatch_loop event rest permit_priority' w1 in
            (r,
             mk_step (priority handler) (set_block handler) permit_priority
                     (Evoked (Ok true)) permit_priority' :: steps,
             w')
        end
  end.

(** The body of the [try] block. *)
Definition dispatch_try (self : t) (event : BotEvent.t) (w : World)
  : result unit * list step * World :=
  let permit_priority := MIN_value in
  match _handlers self !! BotEvent.type event with
  | None => (Raise (KeyError (BotEvent.type event)), [], w)
  | Some handlers => dispatch_loop event handlers permit_priority w
  end.

(** The three records the [except] block writes. *)
Definition log_exception (log : Logger.t) (event : BotEvent.t) (e : PyExc)
  : Logger.t :=
  let log1 :=
    Logger.error log
      ("bot dispatcher 抛出异常：[" +:+ class_name e +:+ "] " +:+ exc_str e) in
  let log2 :=
    Logger.debug log1
      ("异常点的事件记录为：" +:+ py_str (ObjVal (BotEvent.raw event))) in
  Logger.debug log2
    ("异常回溯栈：" +:+ String newline EmptyString
     +:+ strip_newlines (format_exc e)).

Record dispatch_result : Type := mk_result {
  res_outcome : outcome;
  res_steps : list step;
  res_world : World;
  res_self : t
}.

Definition dispatch (self : t) (event : BotEvent.t) (w : World)
  : dispatch_result :=
  if negb (_ready_signal self)
  then mk_result Waiting [] w self
  else
    match dispatch_try self event w with
    | (Ok _, steps, w') => mk_result Returned steps w' self
    | (Raise e, steps, w') =>
        if isinstance_Exception e
        then
          mk_result Returned steps w'
            (mk (_handlers self) (log_exception (logger self) event e)
                (_ready_signal self))
        else mk_result (Propagated e) steps w' self
    end.

(** A sequence of [bind] calls, stopped by the first exception. *)
Fixpoint bind_all (self : t) (calls : list (list (IEventHandler World)))
  : result unit * t :=
  match calls with
  | [] => (Ok tt, self)
  | all_handlers :: rest =>
      match bind self all_handlers with
      | (Ok _, self') => bind_all self' rest
      | (Raise e, self') => (Raise e, self')
      end
  end.

End Dispatcher.

Arguments t World : clear implicits.
Arguments dispatch_result World : clear implicits.

End BotDispatcher.

(** ** Observations used by the statements *)

(** The identities of a checker and of all its descendants, the receiver
    first, then those of the first child, then those of the second. *)
Fixpoint checker_ids (c : checker) : list nat :=
  match c with
  | CLeaf id => [id]
  | CWrapped id _ c1 c2 =>
      id :: checker_ids c1
      ++ match c2 with Some c2v => checker_ids c2v | None => [] end
  end.

(** A slot after a fill attempt with [cb]: untouched, or filled with [cb]
    when it was empty. *)
Definition kept_or_filled (cb : callback) (before after : option callback)
  : Prop :=
  after = before \/ (before = None /\ after = Some cb).

(** The traversal both fill methods of [WrappedChecker] make, over the
    base-class method [base] they start with. *)
Fixpoint fill_with (base : nat -> callback -> cb_store -> result unit * cb_store)
  (c : checker) (cb : callback) (σ : cb_store) : result unit * cb_store :=
  match c with
  | CLeaf id => base id cb σ
  | CWrapped id mode c1 c2 =>
      match base id cb σ with
      | (Raise e, σ1) => (Raise e, σ1)
      | (Ok _, σ1) =>
          match fill_with base c1 cb σ1 with
          | (Raise e, σ2) => (Raise e, σ2)
          | (Ok _, σ2) =>
              match c2 with
              | None => (Ok tt, σ2)
              | Some c2v => fill_with base c2v cb σ2
              end
          end
      end
  end.

(** The base-class method on the objects [ids], one after the other,
    up to the first that raises. *)
Fixpoint fill_ids (base : nat -> callback -> cb_store -> result unit * cb_store)
  (ids : list nat) (cb : callback) (σ : cb_store) : result unit * cb_store :=
  match ids with
  | [] => (Ok tt, σ)
  | id :: rest =>
      match base id cb σ with
      | (Raise e, σ1) => (Raise e, σ1)
      | (Ok _, σ1) => fill_ids base rest cb σ1
      end
  end.

(** What a fill attempt with [cb] on the objects [ids] may have done to
    the store, for the slot read by [get], the other slot being read by
    [other]: no callback was replaced, the other slot of every object is
    as it was, and the objects outside [ids] are as they were. *)
Definition slot_effect (get other : cb_slots -> option callback)
  (cb : callback) (ids : list nat) (σ σ' : cb_store) : Prop :=
  forall id,
    kept_or_filled cb (get (slots_at σ id)) (get (slots_at σ' id))
    /\ other (slots_at σ' id) = other (slots_at σ id)
    /\ (id ∉ ids -> slots_at σ' id = slots_at σ id).

(** A composite that reaches the leaf 2 along two paths, as in
    [(g & a) | (g & o)], and one whose leaves are distinct. *)
Definition shared_leaf_checker : checker :=
  CWrapped 0 OR
           (CWrapped 1 AND (CLeaf 2) (Some (CLeaf 3)))
           (Some (CWrapped 4 AND (CLeaf 2) (Some (CLeaf 5)))).

Definition three_leaf_checker : checker :=
  CWrapped 0 OR
           (CWrapped 1 AND (CLeaf 2) (Some (CLeaf 3)))
           (Some (CLeaf 4)).

(** [isinstance(other, BotChecker)] and [isinstance(other, BotMatcher)]. *)
Definition isinstance_BotChecker (other : pyobj) : bool :=
  match other with ObjChecker _ => true | _ => false end.

Definition isinstance_BotMatcher (other : pyobj) : bool :=
  match other with ObjMatcher _ => true | _ => false end.

(** The number of children a composite holds. *)
Definition checker_children (c : checker) : nat :=
  match c with
  | CLeaf _ => 0
  | CWrapped _ _ _ None => 1
  | CWrapped _ _ _ (Some _) => 2
  end.

Definition matcher_children (m : matcher) : nat :=
  match m with
  | MLeaf _ => 0
  | MWrapped _ _ None => 1
  | MWrapped _ _ (Some _) => 2
  end.

(** A runtime to evaluate examples with: strings print as themselves,
    integers as a fixed word, any other object as a fixed word. *)
Definition sample_builtins : PyBuiltins := {|
  py_str o :=
    match o with
    | ObjVal (PyStr s) => s
    | ObjVal PyNone => "None"
    | ObjVal _ => "<value>"
    | ObjCallback _ => "<function>"
    | ObjChecker _ => "<checker>"
    | ObjMatcher _ => "<matcher>"
    end;
  py_repr_str s := "'" +:+ s +:+ "'";
  format_exc e := "Traceback (most recent call last): " +:+ class_name e
|}.

(** ** Observations on the dispatcher *)

#[global] Instance handler_family_eq_dec : EqDecision handler_family.
Proof. solve_decision. Defined.

(** The handlers of one family, in the order of the list. *)
Definition of_family {World} (f : handler_family)
  (l : list (IEventHandler World)) : list (IEventHandler World) :=
  filter (λ h, family h = f) l.

(** The dictionary with the three keys of [BotDispatcher.__init__]. *)
Definition handlers3 {World} (lm lr ln : list (IEventHandler World))
  : gmap string (list (IEventHandler World)) :=
  <["message" := lm]> (<["request" := lr]> (<["notice" := ln]> ∅)).

(** Sorted by priority, highest first. *)
Definition sorted_desc {World} (l : list (IEventHandler World)) : Prop :=
  StronglySorted (λ a b, priority b <= priority a) l.

(** The iterations of a loop go through the handlers in the order of the
    list, one iteration per handler, and stop at or before its end. *)
Definition steps_follow {World} (handlers : list (IEventHandler World))
  (steps : list BotDispatcher.step) : Prop :=
  Forall2 (λ h s, BotDispatcher.step_priority s = priority h
                  /\ BotDispatcher.step_block s = set_block h)
          (take (length steps) handlers) steps.

(** Each iteration starts with the floor the previous one ended with; the
    first starts with [start]. *)
Fixpoint floors_chain (start : Z) (steps : list BotDispatcher.step) : Prop :=
  match steps with
  | [] => True
  | s :: rest =>
      BotDispatcher.floor_before s = start
      /\ floors_chain (BotDispatcher.floor_after s) rest
  end.

(** The three conditions under which an iteration raises the floor. *)
Definition step_raises_floor (s : BotDispatcher.step) : Prop :=
  BotDispatcher.step_action s = BotDispatcher.Evoked (Ok true)
  /\ BotDispatcher.step_block s = true
  /\ BotDispatcher.floor_before s < BotDispatcher.step_priority s.

(** What holds of every iteration: the floor does not go down; the
    handler is skipped when its priority is below the floor and evoked
    otherwise; the floor becomes the handler's priority when the three
    conditions hold and is left alone when one of them fails. *)
Definition step_ok (s : BotDispatcher.step) : Prop :=
  BotDispatcher.floor_before s <= BotDispatcher.floor_after s
  /\ (BotDispatcher.step_action s = BotDispatcher.Skipped
      <-> BotDispatcher.step_priority s < BotDispatcher.floor_before s)
  /\ ((exists r, BotDispatcher.step_action s = BotDispatcher.Evoked r)
      <-> BotDispatcher.floor_before s <= BotDispatcher.step_priority s)
  /\ (step_raises_floor s ->
      BotDispatcher.floor_after s = BotDispatcher.step_priority s
      /\ BotDispatcher.floor_before s < BotDispatcher.floor_after s)
  /\ (~ step_raises_floor s ->
      BotDispatcher.floor_after s = BotDispatcher.floor_before s).

(** The world that the iterations [steps] on the handlers [handlers]
    leave, from the world [w]: an iteration that evoked its handler leaves
    the world this call of [evoke] leaves, a skipped iteration leaves the
    world as it found it, and handlers without an iteration do nothing. *)
Fixpoint world_after {World} (event : BotEvent.t)
  (handlers : list (IEventHandler World)) (steps : list BotDispatcher.step)
  (w : World) : World :=
  match handlers, steps with
  | handler :: handlers', s :: steps' =>
      match BotDispatcher.step_action s with
      | BotDispatcher.Skipped => world_after event handlers' steps' w
      | BotDispatcher.Evoked _ =>
          world_after event handlers' steps' (evoke handler event w).2
      end
  | _, _ => w
  end.

(** The result an iteration records is the result of the call of [evoke]
    on its handler, in the world the iterations before it left. *)
Fixpoint evokes_recorded {World} (event : BotEvent.t)
  (handlers : list (IEventHandler World)) (steps : list BotDispatcher.step)
  (w : World) : Prop :=
  match handlers, steps with
  | handler :: handlers', s :: steps' =>
      match BotDispatcher.step_action s with
      | BotDispatcher.Skipped => evokes_recorded event handlers' steps' w
      | BotDispatcher.Evoked r =>
          (evoke handler event w).1 = r
          /\ evokes_recorded event handlers' steps' (evoke handler event w).2
      end
  | _, _ => True
  end.

(** Every handler has its iteration, unless the last iteration is one
    whose [evoke] raised. *)
Definition steps_complete {World} (handlers : list (IEventHandler World))
  (steps : list BotDispatcher.step) : Prop :=
  length steps = length handlers
  \/ exists s e,
       last steps = Some s
       /\ BotDispatcher.step_action s = BotDispatcher.Evoked (Raise e).

(** ** Sample data *)

Definition sample_priority : PriorityLevel := {| MIN_value := 0 |}.

(** Handlers over a world that counts the calls of [evoke]. *)
Definition counting (answer : result bool)
  : BotEvent.t -> nat -> result bool * nat :=
  λ _ n, (answer, S n).

Definition handler_A : IEventHandler nat :=
  mk_handler MsgEventHandler 10 true (counting (Ok true)).
Definition handler_B : IEventHandler nat :=
  mk_handler MsgEventHandler 5 false (counting (Ok true)).
Definition handler_C : IEventHandler nat :=
  mk_handler MsgEventHandler 10 false (counting (Ok true)).
Definition handler_failing : IEventHandler nat :=
  mk_handler MsgEventHandler 7 false
             (counting (Raise (OtherException "ValueError" "bad value"))).
Definition handler_exiting : IEventHandler nat :=
  mk_handler MsgEventHandler 7 false
             (counting (Raise (SystemExiting "SystemExit" "0"))).

Definition sample_message : BotEvent.t :=
  BotEvent.mk 1700000000 "message" (PyDict [("post_type", PyStr "message")])
              Flagable.__init__.

Definition sample_meta : BotEvent.t :=
  BotEvent.mk 1700000000 "meta" (PyDict [("post_type", PyStr "meta_event")])
              Flagable.__init__.

Definition sample_action : BotAction.t :=
  BotAction.__init__ "send_private_msg"
                     [("user_id", PyInt 123); ("message", PyStr "hi")]
                     None None false.

Definition sample_action_empty_id : BotAction.t :=
  BotAction.__init__ "send_private_msg"
                     [("user_id", PyInt 123); ("message", PyStr "hi")]
                     (Some "") None false.

(** A dispatcher made ready by one call of [bind]. *)
Definition sample_dispatcher (hs : list (IEventHandler nat))
  : BotDispatcher.t nat :=
  (BotDispatcher.bind (BotDispatcher.__init__ []) hs).2.

(** [dispatch] with the sample runtime and a minimum priority of 0. *)
Definition sample_dispatch (self : BotDispatcher.t nat) (event : BotEvent.t)
  : BotDispatcher.dispatch_result nat :=
  @BotDispatcher.dispatch nat sample_builtins sample_priority self event 0%nat.

(** * Further code of the embedded files *)

(** ** Type tests and parsed arguments of events *)

Module BotEventMethods.

Definition is_msg_event (self : BotEvent.t) : bool :=
  String.eqb (BotEvent.type self) "message".

Definition is_req_event (self : BotEvent.t) : bool :=
  String.eqb (BotEvent.type self) "request".

Definition is_notice_event (self : BotEvent.t) : bool :=
  String.eqb (BotEvent.type self) "notice".

Definition is_meta_event (self : BotEvent.t) : bool :=
  String.eqb (BotEvent.type self) "meta".

Definition is_resp_event (self : BotEvent.t) : bool :=
  String.eqb (BotEvent.type self) "response".

(** What [_get_args] returns: the sentinel [Void] when nothing was stored
    for the parser, and otherwise what was stored, which may be [None]. *)
Inductive got_args (G : Type) : Type :=
| Void
| Got (args_group : option G).
Arguments Void {G}.
Arguments Got {G} args_group.

Section Args.

(** [K] is the type of parser identities, [G] the type of the groups of
    parsed arguments. The functions act on the attribute [_args_map] of
    an event, which is [None] after [BotEvent.__init__]. *)
Context {K : Type} `{Countable K} {G : Type}.

Definition _get_args (_args_map : option (gmap K (option G))) (parser_id : K)
  : got_args G :=
  match _args_map with
  | None => Void
  | Some m =>
      match m !! parser_id with
      | None => Void
      | Some args_group => Got args_group
      end
  end.

Definition _store_args (_args_map : option (gmap K (option G)))
  (parser_id : K) (args_group : option G) : option (gmap K (option G)) :=
  let m := match _args_map with None => ∅ | Some m => m end in
  Some (<[parser_id := args_group]> m).

End Args.

End BotEventMethods.

(** ** Calls on a tag store *)

(** A call of one of the two methods of [Flagable], and the object after
    the call, whether the call returned or raised. *)
Inductive tag_call : Type :=
| CallMark (namespace flag_name : string) (val : pyval)
| CallCheck (namespace flag_name : string) (val : pyval).

Definition after_tag_call (self : Flagable.t) (c : tag_call) : Flagable.t :=
  match c with
  | CallMark namespace flag_name val =>
      (Flagable.mark self namespace flag_name val).2
  | CallCheck namespace flag_name val =>
      (Flagable.flag_check self namespace flag_name val).2
  end.

Definition after_tag_calls (self : Flagable.t) (calls : list tag_call)
  : Flagable.t :=
  foldl after_tag_call self calls.

(** ** Blocking between iterations of a dispatch *)

(** Some iteration before the [j]-th blocks a handler of priority [pr]:
    its [evoke] returned true, its handler is blocking, and its priority
    is above [pr]. *)
Definition blocked_by (steps : list BotDispatcher.step) (j : nat) (pr : Z)
  : Prop :=
  exists i s,
    (i < j)%nat
    /\ steps !! i = Some s
    /\ BotDispatcher.step_action s = BotDispatcher.Evoked (Ok true)
    /\ BotDispatcher.step_block s = true
    /\ pr < BotDispatcher.step_priority s.

(** ** Evaluation of composite checkers *)

(** [LogicMode.calc] of [melobot.base.typing]: from a mode, the result of
    the first child and the result of the second child, or [None] when
    there is none, a boolean; it may raise. *)
Class LogicCalc : Type := {
  calc : LogicMode -> bool -> option bool -> result bool
}.

Module CheckerEval.

Section Check.

(** [leaf_check id] is the coroutine [check] of the leaf checker [id]: it
    may read and change the state [World] outside the checkers, and it
    returns a boolean or raises. *)
Context {World : Type} `{LogicCalc}.
Variable leaf_check : nat -> BotEvent.t -> World -> result bool * World.

(** [c.check(event)] for any checker [c]: the arguments of
    [LogicMode.calc] are evaluated from left to right, the second child
    after the first, before [calc] is called. *)
Fixpoint check (c : checker) (event : BotEvent.t) (w : World)
  : result bool * World :=
  match c with
  | CLeaf id => leaf_check id event w
  | CWrapped _ mode c1 c2 =>
      match check c1 event w with
      | (Raise e, w1) => (Raise e, w1)
      | (Ok v1, w1) =>
          match c2 with
          | None => (calc mode v1 None, w1)
          | Some c2v =>
              match check c2v event w1 with
              | (Raise e, w2) => (Raise e, w2)
              | (Ok v2, w2) => (calc mode v1 (Some v2), w2)
              end
          end
      end
  end.

(** The leaf checks of the list [ids], one after the other, up to the
    first that raises. *)
Fixpoint check_each (ids : list nat) (event : BotEvent.t) (w : World)
  : result (list bool) * World :=
  match ids with
  | [] => (Ok [], w)
  | id :: rest =>
      match leaf_check id event w with
      | (Raise e, w1) => (Raise e, w1)
      | (Ok v, w1) =>
          match check_each rest event w1 with
          | (Raise e, w2) => (Raise e, w2)
          | (Ok vs, w2) => (Ok (v :: vs), w2)
          end
      end
  end.

End Check.

End CheckerEval.

(** The leaves of a checker, from left to right. *)
Fixpoint checker_leaves (c : checker) : list nat :=
  match c with
  | CLeaf id => [id]
  | CWrapped _ _ c1 c2 =>
      checker_leaves c1
      ++ match c2 with Some c2v => checker_leaves c2v | None => [] end
  end.

(** A [calc] to evaluate examples with, and leaf checks that record the
    leaves they are called on and answer whether the leaf's identity is
    even. *)
Definition sample_calc : LogicCalc := {|
  calc mode v1 v2 :=
    Ok match mode, v2 with
       | NOT, _ => negb v1
       | _, None => v1
       | AND, Some b => v1 && b
       | OR, Some b => v1 || b
       | XOR, Some b => xorb v1 b
       end
|}.

Definition recording_leaf_check (id : nat) (event : BotEvent.t)
  (w : list nat) : result bool * list nat :=
  (Ok (Nat.even id), w ++ [id]).

(** ** Plugins: registration of shared objects, signals and hooks *)

(** The argument classes of [melobot/base/abc.py]: each constructor
    stores its arguments. A function object is a [callback]. *)
Module ShareObjArgs.
Record t : Type := mk { reflector : callback; namespace : string; id : string }.
Definition __init__ (namespace id : string) (reflector : callback) : t :=
  mk reflector namespace id.
End ShareObjArgs.

Module ShareObjCbArgs.
Record t : Type := mk { namespace : string; id : string; cb : callback }.
Definition __init__ (namespace id : string) (cb : callback) : t :=
  mk namespace id cb.
End ShareObjCbArgs.

Module PluginSignalHandlerArgs.
Record t : Type := mk { func : callback; namespace : string; signal : string }.
Definition __init__ (func : callback) (namespace signal : string) : t :=
  mk func namespace signal.
End PluginSignalHandlerArgs.

(** [BotLife] of [melobot.base.typing]; the members that
    [melobot/plugin/init.py] names. *)
Inductive BotLife : Type :=
| LOADED
| CONNECTED
| BEFORE_CLOSE
| BEFORE_STOP
| EVENT_BUILT
| ACTION_PRESEND.

Module BotHookRunnerArgs.
Record t : Type := mk { func : callback; type : BotLife }.
Definition __init__ (func : callback) (type : BotLife) : t := mk func type.
End BotHookRunnerArgs.

Module PluginProxy.
Record t : Type := mk {
  id : string;
  version : string;
  desc : string;
  doc : string;
  keywords : list string;
  url : string;
  shares : list (string * string);
  share_cbs : list (string * string);
  signal_methods : list (string * string)
}.
End PluginProxy.

Module BotPlugin.

Section Plugin.

(** [EventHandlerArgs] are produced by the methods that register event
    handlers, which are not embedded: their type is left open.
    [to_async], of [melobot.base.tools], turns a function into a
    coroutine function. *)
Context {EventHandlerArgs : Type}.
Variable to_async : callback -> callback.

Record t : Type := mk {
  __id__ : string;
  __version__ : string;
  __desc__ : string;
  __keywords__ : list string;
  __url__ : string;
  __pdoc__ : string;
  __handler_args__ : list EventHandlerArgs;
  __signal_args__ : list PluginSignalHandlerArgs.t;
  __share_args__ : list ShareObjArgs.t;
  __share_cb_args__ : list ShareObjCbArgs.t;
  __hook_args__ : list BotHookRunnerArgs.t;
  __proxy__ : option PluginProxy.t
}.

Definition __init__ (id version desc doc : string)
  (keywords : option (list string)) (url : string) : t :=
  mk id version desc (match keywords with Some k => k | None => [] end)
     url doc [] [] [] [] [] None.

Definition _self_build (self : t) : result unit * t :=
  let proxy :=
    PluginProxy.mk
      (__id__ self) (__version__ self) (__desc__ self) (__pdoc__ self)
      (__keywords__ self) (__url__ self)
      (map (λ args, (ShareObjArgs.namespace args, ShareObjArgs.id args))
           (__share_args__ self))
      (map (λ args, (ShareObjCbArgs.namespace args, ShareObjCbArgs.id args))
           (__share_cb_args__ self))
      (map (λ args, (PluginSignalHandlerArgs.namespace args,
                     PluginSignalHandlerArgs.signal args))
           (__signal_args__ self)) in
  let self' :=
    mk (__id__ self) (__version__ self) (__desc__ self) (__keywords__ self)
       (__url__ self) (__pdoc__ self) (__handler_args__ self)
       (__signal_args__ self) (__share_args__ self)
       (__share_cb_args__ self) (__hook_args__ self) (Some proxy) in
  let check_pass :=
    forallb (λ _ : string * string, false)
            (filter (λ pair, pair ∉ PluginProxy.shares proxy)
                    (PluginProxy.share_cbs proxy)) in
  if negb check_pass
  then (Raise (OtherException
                 "PluginInitError"
                 ("插件 " +:+ __id__ self
                  +:+ " 不能为不属于自己的共享对象注册回调")),
        self')
  else (Ok tt, self').

(** The functions [make_args] that the registration methods return: the
    decorator applied to [func], on the plugin as it is at that time. *)
Definition on_signal (namespace signal : string) (self : t) (func : callback)
  : callback * t :=
  (func,
   mk (__id__ self) (__version__ self) (__desc__ self) (__keywords__ self)
      (__url__ self) (__pdoc__ self) (__handler_args__ self)
      (__signal_args__ self
       ++ [PluginSignalHandlerArgs.__init__ func namespace signal])
      (__share_args__ self) (__share_cb_args__ self) (__hook_args__ self)
      (__proxy__ self)).

Definition append_share (self : t) (args : ShareObjArgs.t) : t :=
  mk (__id__ self) (__version__ self) (__desc__ self) (__keywords__ self)
     (__url__ self) (__pdoc__ self) (__handler_args__ self)
     (__signal_args__ self) (__share_args__ self ++ [args])
     (__share_cb_args__ self) (__hook_args__ self) (__proxy__ self).

(** [on_share] with a reflector registers at once and returns [None];
    without one it returns a decorator. *)
Definition on_share_now (namespace id : string) (reflector : callback)
  (self : t) : t :=
  append_share self (ShareObjArgs.__init__ namespace id (to_async reflector)).

Definition on_share (namespace id : string) (self : t) (func : callback)
  : callback * t :=
  (func, append_share self (ShareObjArgs.__init__ namespace id func)).

Definition on_share_affected (namespace id : string) (self : t)
  (func : callback) : callback * t :=
  (func,
   mk (__id__ self) (__version__ self) (__desc__ self) (__keywords__ self)
      (__url__ self) (__pdoc__ self) (__handler_args__ self)
      (__signal_args__ self) (__share_args__ self)
      (__share_cb_args__ self ++ [ShareObjCbArgs.__init__ namespace id func])
      (__hook_args__ self) (__proxy__ self)).

Definition on_bot_life (type : BotLife) (self : t) (func : callback)
  : callback * t :=
  (func,
   mk (__id__ self) (__version__ self) (__desc__ self) (__keywords__ self)
      (__url__ self) (__pdoc__ self) (__handler_args__ self)
      (__signal_args__ self) (__share_args__ self) (__share_cb_args__ self)
      (__hook_args__ self ++ [BotHookRunnerArgs.__init__ func type])
      (__proxy__ self)).

Definition on_plugins_loaded := on_bot_life LOADED.
Definition on_connected := on_bot_life CONNECTED.
Definition on_before_close := on_bot_life BEFORE_CLOSE.
Definition on_before_stop := on_bot_life BEFORE_STOP.
Definition on_event_built := on_bot_life EVENT_BUILT.
Definition on_action_presend := on_bot_life ACTION_PRESEND.

End Plugin.

Arguments t EventHandlerArgs : clear implicits.

End BotPlugin.

(** A registration made on a plugin: one of the decorators applied to a
    function, or [on_share] called with a reflector. *)
Inductive registration : Type :=
| RegSignal (namespace signal : string) (func : callback)
| RegShareNow (namespace id : string) (reflector : callback)
| RegShare (namespace id : string) (func : callback)
| RegShareAffected (namespace id : string) (func : callback)
| RegBotLife (type : BotLife) (func : callback).

Definition register {E : Type} (to_async : callback -> callback)
  (self : BotPlugin.t E) (r : registration) : BotPlugin.t E :=
  match r with
  | RegSignal namespace signal func =>
      (BotPlugin.on_signal namespace signal self func).2
  | RegShareNow namespace id reflector =>
      BotPlugin.on_share_now to_async namespace id reflector self
  | RegShare namespace id func => (BotPlugin.on_share namespace id self func).2
  | RegShareAffected namespace id func =>
      (BotPlugin.on_share_affected namespace id self func).2
  | RegBotLife type func => (BotPlugin.on_bot_life type self func).2
  end.

(** The shared objects a sequence of registrations declares, and the
    shared objects it attaches callbacks to. *)
Definition declared_shares (regs : list registration)
  : list (string * string) :=
  omap (λ r, match r with
             | RegShareNow namespace id _ => Some (namespace, id)
             | RegShare namespace id _ => Some (namespace, id)
             | _ => None
             end) regs.

Definition affected_shares (regs : list registration)
  : list (string * string) :=
  omap (λ r, match r with
             | RegShareAffected namespace id _ => Some (namespace, id)
             | _ => None
             end) regs.

(** The (namespace, id) pairs of the shared objects and of the callbacks
    a plugin holds. *)
Definition share_pairs {E : Type} (self : BotPlugin.t E)
  : list (string * string) :=
  map (λ args, (ShareObjArgs.namespace args, ShareObjArgs.id args))
      (BotPlugin.__share_args__ self).

Definition share_cb_pairs {E : Type} (self : BotPlugin.t E)
  : list (string * string) :=
  map (λ args, (ShareObjCbArgs.namespace args, ShareObjCbArgs.id args))
      (BotPlugin.__share_cb_args__ self).

(** ** CQ escaping ([utils/actInterface.py]) *)

(** Python's [s.replace(old, new)]: the occurrences of [old] are found
    from left to right and do not overlap. [replace_from] skips the
    [skip] characters that remain of the occurrence just replaced. An
    empty [old] matches before every character and at the end. *)
Fixpoint replace_from (old new : string) (skip : nat) (s : string) : string :=
  match s with
  | EmptyString => EmptyString
  | String c s' =>
      match skip with
      | S k => replace_from old new k s'
      | O =>
          if String.prefix old s
          then new +:+ replace_from old new (String.length old - 1) s'
          else String c (replace_from old new 0 s')
      end
  end.

Fixpoint replace_empty (new : string) (s : string) : string :=
  match s with
  | EmptyString => new
  | String c s' => new +:+ String c (replace_empty new s')
  end.

Definition str_replace (old new s : string) : string :=
  match old with
  | EmptyString => replace_empty new s
  | _ => replace_from old new 0 s
  end.

(** An encoded message is a CQ string or a CQ dictionary; [mode] is
    ["str"] or anything else. *)
Inductive cq_msg : Type :=
| CQStr (s : string)
| CQDict (d : pydict).

Inductive cq_mode : Type := ModeStr | ModeDict.

Module CQEncoder.

Definition escape (text : string) : string :=
  str_replace "," "&#44;"
    (str_replace "]" "&#93;"
       (str_replace "[" "&#91;"
          (str_replace "&" "&amp;" text))).

Definition anti_escape (text : string) : string :=
  str_replace "&#44;" ","
    (str_replace "&#93;" "]"
       (str_replace "&#91;" "["
          (str_replace "&amp;" "&" text))).

Definition text (text : string) (fromEvent : bool) (mode : cq_mode) : cq_msg :=
  match mode with
  | ModeStr =>
      if fromEvent then CQStr text
      else CQStr (str_replace "]" "&#93;"
                    (str_replace "[" "&#91;"
                       (str_replace "&" "&amp;" text)))
  | ModeDict =>
      CQDict [("type", PyStr "text"); ("data", PyDict [("text", PyStr text)])]
  end.

End CQEncoder.

(** The string made of the images of the characters of [s] under [f]. *)
Fixpoint map_chars (f : ascii -> string) (s : string) : string :=
  match s with
  | EmptyString => EmptyString
  | String c s' => f c +:+ map_chars f s'
  end.

(** The escape of one character, with a switch for each of the four
    characters that have one. *)
Definition esc_char (amp lbr rbr comma : bool) (c : ascii) : string :=
  if Ascii.eqb c "&" then (if amp then "&amp;" else "&")
  else if Ascii.eqb c "[" then (if lbr then "&#91;" else "[")
  else if Ascii.eqb c "]" then (if rbr then "&#93;" else "]")
  else if Ascii.eqb c "," then (if comma then "&#44;" else ",")
  else String c EmptyString.

(** [c] occurs in [s]; [p] occurs in [s] as a substring. *)
Fixpoint has_char (c : ascii) (s : string) : bool :=
  match s with
  | EmptyString => false
  | String c' s' => Ascii.eqb c c' || has_char c s'
  end.

Fixpoint has_substring (p s : string) : bool :=
  match s with
  | EmptyString => String.prefix p s
  | String _ s' => String.prefix p s || has_substring p s'
  end.


(** ** Action packers and the action builder *)

(** The values stored under the keys of a [params] dictionary: a plain
    value, or the list of encoded messages as it was given. *)
Inductive param : Type :=
| ParamVal (v : pyval)
| ParamMsgs (l : list cq_msg).

Abbreviation params_dict := (gmap string param).

(** A packer keeps one [params] dictionary for its whole life:
    [self.__package.copy()] is a shallow copy, so every package the packer
    returns refers to that one dictionary. The dictionaries live in a
    store indexed by identity; a dictionary the store does not mention is
    empty, as it is when the packer is created. *)
Abbreviation dict_store := (gmap nat params_dict).

Definition dict_at (h : dict_store) (id : nat) : params_dict :=
  default ∅ (h !! id).

(** [d[k] = v] on the dictionary [id]. *)
Definition dict_store_set (id : nat) (k : string) (v : param)
  (h : dict_store) : dict_store :=
  <[id := <[k := v]> (dict_at h id)]> h.

(** [d[k]]: a [KeyError] when [k] is missing. *)
Definition dict_item (k : string) (d : pydict) : result pyval :=
  match dict_get k d with
  | Some v => Ok v
  | None => Raise (KeyError k)
  end.

(** [k in d]. *)
Definition has_key (k : string) (d : pydict) : bool :=
  match dict_get k d with
  | Some _ => true
  | None => false
  end.

(** [''.join(l)]: a [TypeError] at the first item that is not a string. *)
Fixpoint str_join_from `{PyBuiltins} (i : nat) (l : list cq_msg)
  : result string :=
  match l with
  | [] => Ok EmptyString
  | CQStr s :: l' =>
      match str_join_from (S i) l' with
      | Ok r => Ok (s +:+ r)
      | Raise e => Raise e
      end
  | CQDict _ :: _ =>
      Raise (OtherException
               "TypeError"
               ("sequence item " +:+ py_str (ObjVal (PyInt (Z.of_nat i)))
                +:+ ": expected str instance, dict found"))
  end.

Definition str_join `{PyBuiltins} (l : list cq_msg) : result string :=
  str_join_from 0 l.

(** A package: its own [action_type] and the identity of the [params]
    dictionary it refers to. *)
Record package : Type := mk_package {
  action_type : string;
  params_ref : nat
}.

Module MsgSendPacker.

(** The value stored under [message]: it depends on the type of the
    first message, [cqEncodeMsgs[0]] being an [IndexError] on an empty
    list. *)
Definition message_value `{PyBuiltins} (cqEncodeMsgs : list cq_msg)
  : result param :=
  match cqEncodeMsgs with
  | [] => Raise (OtherException "IndexError" "list index out of range")
  | CQStr _ :: _ =>
      match str_join cqEncodeMsgs with
      | Ok s => Ok (ParamVal (PyStr s))
      | Raise e => Raise e
      end
  | CQDict _ :: _ => Ok (ParamMsgs cqEncodeMsgs)
  end.

(** A packer object is named by the identity [self] of its [params]
    dictionary. *)
Definition private_pack `{PyBuiltins} (self : nat)
  (cqEncodeMsgs : list cq_msg) (userId : pyval) (isPureText : bool)
  (h : dict_store) : result package * dict_store :=
  match message_value cqEncodeMsgs with
  | Raise e => (Raise e, h)
  | Ok m =>
      let h1 := dict_store_set self "message" m h in
      let h2 :=
        if isPureText
        then dict_store_set self "auto_escape" (ParamVal (PyBool true)) h1
        else h1 in
      (Ok (mk_package "send_private_msg" self),
       dict_store_set self "user_id" (ParamVal userId) h2)
  end.

Definition group_pack `{PyBuiltins} (self : nat)
  (cqEncodeMsgs : list cq_msg) (groupId : pyval) (isPureText : bool)
  (h : dict_store) : result package * dict_store :=
  match message_value cqEncodeMsgs with
  | Raise e => (Raise e, h)
  | Ok m =>
      let h1 := dict_store_set self "message" m h in
      let h2 :=
        if isPureText
        then dict_store_set self "auto_escape" (ParamVal (PyBool true)) h1
        else h1 in
      (Ok (mk_package "send_group_msg" self),
       dict_store_set self "group_id" (ParamVal groupId) h2)
  end.

(** The three tests of [pack]. The first is the chained comparison
    [event['post_type'] == 'message' in event.keys()]: the type is
    [message] and [message] is a key of the event. *)
Definition is_group_message (event : pydict) : result bool :=
  match dict_item "post_type" event with
  | Raise e => Raise e
  | Ok post_type =>
      if py_eq post_type (PyStr "message") && has_key "message" event
      then match dict_item "message_type" event with
           | Raise e => Raise e
           | Ok message_type => Ok (py_eq message_type (PyStr "group"))
           end
      else Ok false
  end.

Definition is_private_message (event : pydict) : result bool :=
  match dict_item "post_type" event with
  | Raise e => Raise e
  | Ok post_type =>
      if py_eq post_type (PyStr "message")
      then match dict_item "message_type" event with
           | Raise e => Raise e
           | Ok message_type => Ok (py_eq message_type (PyStr "private"))
           end
      else Ok false
  end.

Definition is_poke_notice (event : pydict) : result bool :=
  match dict_item "post_type" event with
  | Raise e => Raise e
  | Ok post_type =>
      if py_eq post_type (PyStr "notice")
      then match dict_item "sub_type" event with
           | Raise e => Raise e
           | Ok sub_type => Ok (py_eq sub_type (PyStr "poke"))
           end
      else Ok false
  end.

(** [group_pack(cqEncodeMsgs, event['group_id'], isPureText)] and its
    private counterpart: the identifier is read before the call. *)
Definition pack_for_group `{PyBuiltins} (self : nat) (event : pydict)
  (cqEncodeMsgs : list cq_msg) (isPureText : bool) (h : dict_store)
  : result package * dict_store :=
  match dict_item "group_id" event with
  | Raise e => (Raise e, h)
  | Ok groupId => group_pack self cqEncodeMsgs groupId isPureText h
  end.

Definition pack_for_user `{PyBuiltins} (self : nat) (event : pydict)
  (cqEncodeMsgs : list cq_msg) (isPureText : bool) (h : dict_store)
  : result package * dict_store :=
  match dict_item "user_id" event with
  | Raise e => (Raise e, h)
  | Ok userId => private_pack self cqEncodeMsgs userId isPureText h
  end.

Definition pack `{PyBuiltins} (self : nat) (event : pydict)
  (cqEncodeMsgs : list cq_msg) (isPureText : bool)
  (h : dict_store) (log : Logger.t)
  : result package * dict_store * Logger.t :=
  match is_group_message event with
  | Raise e => (Raise e, h, log)
  | Ok true => (pack_for_group self event cqEncodeMsgs isPureText h, log)
  | Ok false =>
      match is_private_message event with
      | Raise e => (Raise e, h, log)
      | Ok true => (pack_for_user self event cqEncodeMsgs isPureText h, log)
      | Ok false =>
          match is_poke_notice event with
          | Raise e => (Raise e, h, log)
          | Ok true =>
              if has_key "group_id" event
              then (pack_for_group self event cqEncodeMsgs isPureText h, log)
              else (pack_for_user self event cqEncodeMsgs isPureText h, log)
          | Ok false =>
              (Raise (OtherException "BotUnexpectedEvent"
                                     "预期之外的 event 事件"),
               h,
               Logger.error log
                 ("消息 action 封装错误，事件 "
                  +:+ py_str (ObjVal (PyDict event)) +:+ " 不合法！"))
          end
      end
  end.

End MsgSendPacker.

(** An action as [build] returns it: a deep copy, so it holds the content
    the [params] dictionary has at that moment. *)
Record action : Type := mk_action {
  action_name : string;
  action_params : params_dict;
  action_echo : option Z
}.

Module ActionBuilder.

(** [now] is the reading [int(t.time()*1000000)] of the clock. *)
Definition build (package : package) (isEcho : bool) (now : Z)
  (h : dict_store) : action :=
  mk_action (action_type package)
            (dict_at h (params_ref package))
            (if isEcho then Some now else None).

End ActionBuilder.

(** [text_action] of [templates/lifecycle.py]: the reply to an event,
    packed by the one [msg_send_packer] and built at once. *)
Definition text_action `{PyBuiltins} (msg_send_packer : nat)
  (event : pydict) (text : string) (now : Z)
  (h : dict_store) (log : Logger.t)
  : result action * dict_store * Logger.t :=
  match MsgSendPacker.pack msg_send_packer event
                           [CQEncoder.text text true ModeStr] false h log
  with
  | (Raise e, h', log') => (Raise e, h', log')
  | (Ok packed, h', log') =>
      (Ok (ActionBuilder.build packed false now h'), h', log')
  end.

(** The calls a program makes on one [MsgSendPacker]. *)
Inductive pack_call : Type :=
| PrivatePack (cqEncodeMsgs : list cq_msg) (userId : pyval) (isPureText : bool)
| GroupPack (cqEncodeMsgs : list cq_msg) (groupId : pyval) (isPureText : bool)
| Pack (event : pydict) (cqEncodeMsgs : list cq_msg) (isPureText : bool).

Definition is_pure_text (c : pack_call) : bool :=
  match c with
  | PrivatePack _ _ p | GroupPack _ _ p | Pack _ _ p => p
  end.

Definition do_pack `{PyBuiltins} (self : nat) (c : pack_call)
  (h : dict_store) : result package * dict_store :=
  match c with
  | PrivatePack msgs userId p => MsgSendPacker.private_pack self msgs userId p h
  | GroupPack msgs groupId p => MsgSendPacker.group_pack self msgs groupId p h
  | Pack event msgs p => (MsgSendPacker.pack self event msgs p h []).1
  end.

(** The store after a sequence of calls, whatever each of them returned
    or raised. *)
Definition do_packs `{PyBuiltins} (self : nat) (cs : list pack_call)
  (h : dict_store) : dict_store :=
  foldl (λ h c, (do_pack self c h).2) h cs.


(** ** Observations on the packers *)

Definition call_msgs (c : pack_call) : list cq_msg :=
  match c with
  | PrivatePack msgs _ _ | GroupPack msgs _ _ | Pack _ msgs _ => msgs
  end.

(** Where a package goes: the key of the identifier and the type of the
    action. *)
Inductive pack_target : Type := ToUser | ToGroup.

Definition target_key (t : pack_target) : string :=
  match t with ToUser => "user_id" | ToGroup => "group_id" end.

Definition target_type (t : pack_target) : string :=
  match t with ToUser => "send_private_msg" | ToGroup => "send_group_msg" end.

Definition with_auto_escape (isPureText : bool) (d : params_dict)
  : params_dict :=
  if isPureText then <["auto_escape" := ParamVal (PyBool true)]> d else d.

(** What a successful call leaves: the package refers to the dictionary
    of the packer, which has the message, [auto_escape] for a pure text
    and the identifier written over what it held before. *)
Definition packed_as `{PyBuiltins} (self : nat) (h : dict_store)
  (msgs : list cq_msg) (isPureText : bool) (t : pack_target) (v : pyval)
  (pkg : package) (h' : dict_store) : Prop :=
  pkg = mk_package (target_type t) self
  /\ (exists m,
        MsgSendPacker.message_value msgs = Ok m
        /\ dict_at h' self
           = <[target_key t := ParamVal v]>
               (with_auto_escape isPureText
                  (<["message" := m]> (dict_at h self))))
  /\ forall id, id <> self -> h' !! id = h !! id.

(** What a call of a [MsgSendPacker] keeps of the store. *)
Definition params_kept (self : nat) (h h' : dict_store) : Prop :=
  (forall k, is_Some (dict_at h self !! k) -> is_Some (dict_at h' self !! k))
  /\ (forall k, k ∉ ["message"; "auto_escape"; "user_id"; "group_id"] ->
        dict_at h' self !! k = dict_at h self !! k)
  /\ (dict_at h self !! "auto_escape" = Some (ParamVal (PyBool true)) ->
      dict_at h' self !! "auto_escape" = Some (ParamVal (PyBool true)))
  /\ (forall id, id <> self -> h' !! id = h !! id).

Definition sample_group_event : pydict :=
  [("post_type", PyStr "message"); ("message_type", PyStr "group");
   ("message", PyStr "hello"); ("group_id", PyInt 7); ("user_id", PyInt 3)].

Definition sample_private_event : pydict :=
  [("post_type", PyStr "message"); ("message_type", PyStr "private");
   ("message", PyStr "hello"); ("user_id", PyInt 3)].

(** * Properties *)

(** ** Equality of values *)

Lemma pyval_induction (P : pyval -> Prop) :
  P PyNone ->
  (forall b, P (PyBool b)) ->
  (forall z, P (PyInt z)) ->
  (forall s, P (PyStr s)) ->
  (forall d, Forall (λ kv, P kv.2) d -> P (PyDict d)) ->
  forall v, P v.
Proof.
  intros HNone HBool HInt HStr HDict.
  fix IH 1.
  intros [ | b | z | s | d].
  - apply HNone.
  - apply HBool.
  - apply HInt.
  - apply HStr.
  - apply HDict.
    induction d as [|[k v] d IHd]; constructor; [apply IH | apply IHd].
Qed.

Lemma dict_get_first (d : pydict) k v :
  NoDup (map fst d) -> (k, v) ∈ d -> dict_get k d = Some v.
Proof.
  induction d as [|[k' v'] d IH]; simpl; intros Hnd Hin.
  - by apply elem_of_nil in Hin.
  - apply NoDup_cons in Hnd as [Hk' Hnd].
    apply elem_of_cons in Hin as [[= -> ->]|Hin].
    + by rewrite String.eqb_refl.
    + destruct (String.eqb_spec k k') as [->|Hne]; [|by apply IH].
      exfalso. apply Hk'. apply list_elem_of_fmap. by exists (k', v).
Qed.

(** [v == v] holds of every value. *)
Lemma py_eq_refl v : wf_val v -> py_eq v v = true.
Proof.
  induction v as [ | b | z | s | d IH] using pyval_induction; simpl.
  - done.
  - intros _. by destruct b.
  - intros _. apply Z.eqb_refl.
  - intros _. apply String.eqb_refl.
  - intros [Hnd Hwf]. rewrite Nat.eqb_refl. simpl.
    apply forallb_forall. intros [k v] Hin.
    apply list_elem_of_In in Hin.
    rewrite (dict_get_first d k v Hnd Hin).
    rewrite Forall_forall in IH. apply (IH (k, v) Hin).
    clear -Hwf Hin.
    induction d as [|[k' v'] d IHd]; [by apply elem_of_nil in Hin|].
    destruct Hwf as [Hv Hrest].
    apply elem_of_cons in Hin as [[= -> ->]|Hin]; [done | by apply IHd].
Qed.

(** ** The tag store *)

Section FlagableFacts.

Implicit Types (self : Flagable.t) (namespace flag_name : string).
Implicit Types (val : pyval).

Lemma tag_of_init namespace flag_name :
  tag_of Flagable.__init__ namespace flag_name = None.
Proof. reflexivity. Qed.

(** [mark] on a pair that is present raises and leaves the store as it
    was. *)
Lemma mark_present self namespace flag_name val old :
  tag_of self namespace flag_name = Some old ->
  Flagable.mark self namespace flag_name val
  = (Raise (TryFlagFailed
              ("对象不可被重复标记。在命名空间 " +:+ namespace
               +:+ " 中名为 " +:+ flag_name +:+ " 的标记已存在")),
     self).
Proof.
  destruct self as [[store|]]; unfold tag_of, Flagable.mark;
    cbn [Flagable._flags_store]; [|discriminate].
  destruct (store !! namespace) as [flags|] eqn:Hns; [|discriminate].
  intros Hflag. by rewrite Hns, Hflag.
Qed.

(** [mark] on a pair that is absent returns, and the new store holds the
    value under the pair and is unchanged elsewhere. *)
Lemma mark_absent self namespace flag_name val :
  tag_of self namespace flag_name = None ->
  exists self',
    Flagable.mark self namespace flag_name val = (Ok tt, self')
    /\ tag_of self' namespace flag_name = Some val
    /\ forall namespace' flag_name',
         (namespace', flag_name') <> (namespace, flag_name) ->
         tag_of self' namespace' flag_name'
         = tag_of self namespace' flag_name'.
Proof.
  intros Habs.
  assert (Hother : forall (store : gmap string (gmap string pyval)) flags
                     namespace' flag_name',
             (namespace', flag_name') <> (namespace, flag_name) ->
             store !! namespace = Some flags \/
               (store !! namespace = None /\ flags = ∅) ->
             match <[namespace := <[flag_name := val]> flags]> store
                   !! namespace' with
             | Some fl => fl !! flag_name'
             | None => None
             end
             = match store !! namespace' with
               | Some fl => fl !! flag_name'
               | None => None
               end).
  { intros store flags ns' fn' Hne Hst.
    destruct (decide (namespace = ns')) as [<-|Hns].
    - rewrite lookup_insert_eq.
      assert (fn' <> flag_name) by congruence.
      rewrite lookup_insert_ne by congruence.
      destruct Hst as [-> | [-> ->]]; [done | apply lookup_empty].
    - by rewrite lookup_insert_ne. }
  destruct self as [[store|]]; unfold tag_of, Flagable.mark in *;
    cbn [Flagable._flags_store] in *.
  - destruct (store !! namespace) as [flags|] eqn:Hns.
    + rewrite Hns, Habs. eexists; split; [reflexivity|].
      cbn [Flagable._flags_store].
      split; [by rewrite !lookup_insert_eq|].
      intros ns' fn' Hne. apply Hother; auto.
    + rewrite lookup_insert_eq, lookup_empty.
      eexists; split; [reflexivity|]. cbn [Flagable._flags_store].
      split; [by rewrite !lookup_insert_eq|].
      intros ns' fn' Hne.
      rewrite insert_insert_eq. apply Hother; auto.
  - rewrite (lookup_empty namespace), lookup_insert_eq, lookup_empty.
    eexists; split; [reflexivity|]. cbn [Flagable._flags_store].
    split; [by rewrite !lookup_insert_eq|].
    intros ns' fn' Hne.
    rewrite insert_insert_eq.
    rewrite (Hother ∅ ∅ ns' fn' Hne)
      by (right; split; [apply lookup_empty|done]).
    by rewrite lookup_empty.
Qed.

(** C6. Marking an object with a (namespace, flag name) pair it already
    carries raises [TryFlagFailed] and changes nothing; marking it with a
    pair it does not carry succeeds, stores the given value under that
    pair and leaves every other pair as it was. *)
Theorem mark_duplicate_or_stored self namespace flag_name val :
  match tag_of self namespace flag_name with
  | Some _ =>
      Flagable.mark self namespace flag_name val
      = (Raise (TryFlagFailed
                  ("对象不可被重复标记。在命名空间 " +:+ namespace
                   +:+ " 中名为 " +:+ flag_name +:+ " 的标记已存在")),
         self)
  | None =>
      exists self',
        Flagable.mark self namespace flag_name val = (Ok tt, self')
        /\ tag_of self' namespace flag_name = Some val
        /\ forall namespace' flag_name',
             (namespace', flag_name') <> (namespace, flag_name) ->
             tag_of self' namespace' flag_name'
             = tag_of self namespace' flag_name'
  end.
Proof.
  destruct (tag_of self namespace flag_name) as [old|] eqn:Htag.
  - by eapply mark_present.
  - by apply mark_absent.
Qed.

(** C7. [flag_check] returns a boolean, never raises, and leaves the store
    as it was. The boolean is [False] when the pair was never set; when
    the pair holds [flag], it is [flag == val] for a query value other
    than [None], so [True] when the query value is the stored value, and
    for the query value [None] it is [True] exactly when [flag] is
    [None]. *)
Theorem flag_check_result self namespace flag_name val :
  exists b,
    Flagable.flag_check self namespace flag_name val = (Ok b, self)
    /\ match tag_of self namespace flag_name with
       | None => b = false
       | Some flag =>
           (val <> PyNone ->
            b = py_eq flag val /\ (flag = val -> wf_val val -> b = true))
           /\ (val = PyNone -> (b = true <-> flag = PyNone))
       end.
Proof.
  destruct self as [[store|]]; unfold tag_of, Flagable.flag_check;
    cbn [Flagable._flags_store]; [|eauto].
  destruct (store !! namespace) as [flags|]; [|eauto].
  destruct (flags !! flag_name) as [flag|]; [|eauto].
  eexists; split; [reflexivity|]. split.
  - intros Hval.
    assert (Heq : (if is_None val then is_None flag else py_eq flag val)
                  = py_eq flag val) by (destruct val; simpl; congruence).
    rewrite Heq. split; [done|].
    intros -> Hwf. by apply py_eq_refl.
  - intros ->. simpl. destruct flag; simpl; split; congruence.
Qed.

(** A tag set with a value is found with that value and with no other;
    a tag set without a value is found by a query without a value; and
    setting it again raises. *)
Example tag_then_check :
  let e1 := (Flagable.mark Flagable.__init__ "plugin" "seen" (PyInt 3)).2 in
  let e2 := (Flagable.mark e1 "plugin" "done" PyNone).2 in
  (Flagable.flag_check e2 "plugin" "seen" (PyInt 3)).1 = Ok true
  /\ (Flagable.flag_check e2 "plugin" "seen" (PyInt 4)).1 = Ok false
  /\ (Flagable.flag_check e2 "plugin" "seen" PyNone).1 = Ok false
  /\ (Flagable.flag_check e2 "plugin" "done" PyNone).1 = Ok true
  /\ (Flagable.flag_check e2 "plugin" "other" PyNone).1 = Ok false
  /\ (Flagable.flag_check e2 "core" "seen" (PyInt 3)).1 = Ok false
  /\ (Flagable.mark e2 "plugin" "seen" (PyInt 5)).1
     = Raise (TryFlagFailed
                "对象不可被重复标记。在命名空间 plugin 中名为 seen 的标记已存在")
  /\ (Flagable.mark e2 "core" "seen" (PyInt 5)).1 = Ok tt.
Proof. repeat split; vm_compute; reflexivity. Qed.

End FlagableFacts.

(** ** Callback slots of checkers *)

(** Induction on checkers, with a hypothesis for each child. *)
Lemma checker_induction (P : checker -> Prop) :
  (forall id, P (CLeaf id)) ->
  (forall id mode c1, P c1 -> P (CWrapped id mode c1 None)) ->
  (forall id mode c1 c2,
      P c1 -> P c2 -> P (CWrapped id mode c1 (Some c2))) ->
  forall c, P c.
Proof.
  intros Hleaf Hone Htwo.
  fix IH 1.
  intros [id | id mode c1 [c2|]].
  - apply Hleaf.
  - apply Htwo; apply IH.
  - apply Hone; apply IH.
Qed.

Lemma slots_at_insert (σ : cb_store) i j s :
  slots_at (<[i := s]> σ) j = if decide (i = j) then s else slots_at σ j.
Proof.
  unfold slots_at. destruct (decide (i = j)) as [->|Hne].
  - by rewrite lookup_insert_eq.
  - by rewrite lookup_insert_ne.
Qed.

Lemma kept_or_filled_refl cb o : kept_or_filled cb o o.
Proof. by left. Qed.

Lemma kept_or_filled_trans cb o1 o2 o3 :
  kept_or_filled cb o1 o2 -> kept_or_filled cb o2 o3 ->
  kept_or_filled cb o1 o3.
Proof.
  unfold kept_or_filled.
  intros [->|[-> ->]] [->|[Hn ->]]; auto; discriminate.
Qed.

Section FillFacts.

(** The slot a fill method reads ([get]) and writes ([set]), the slot it
    leaves alone ([other]), the text of its error ([msg]) and the
    base-class method itself. *)
Variables (get other : cb_slots -> option callback).
Variable set : callback -> cb_slots -> cb_slots.
Variable msg : callback -> string.
Variable base : nat -> callback -> cb_store -> result unit * cb_store.

Hypothesis get_set : forall cb s, get (set cb s) = Some cb.
Hypothesis other_set : forall cb s, other (set cb s) = other s.
Hypothesis base_eq :
  forall id cb σ,
    base id cb σ
    = match get (slots_at σ id) with
      | Some old => (Raise (BotCheckerError (msg old)), σ)
      | None => (Ok tt, <[id := set cb (slots_at σ id)]> σ)
      end.

Implicit Types (c : checker) (cb : callback) (σ : cb_store).

Lemma slot_effect_refl cb ids σ : slot_effect get other cb ids σ σ.
Proof. intros id. split; [apply kept_or_filled_refl | done]. Qed.

Lemma slot_effect_trans cb ids1 ids2 σ1 σ2 σ3 :
  slot_effect get other cb ids1 σ1 σ2 ->
  slot_effect get other cb ids2 σ2 σ3 ->
  slot_effect get other cb (ids1 ++ ids2) σ1 σ3.
Proof.
  intros H12 H23 id.
  destruct (H12 id) as (K1 & O1 & F1), (H23 id) as (K2 & O2 & F2).
  split; [by eapply kept_or_filled_trans|].
  split; [congruence|].
  intros Hnot. rewrite not_elem_of_app in Hnot. destruct Hnot as [N1 N2].
  by rewrite F2, F1.
Qed.

Lemma base_effect id cb σ :
  slot_effect get other cb [id] σ (base id cb σ).2.
Proof.
  rewrite base_eq.
  destruct (get (slots_at σ id)) as [old|] eqn:Hget; simpl;
    [apply slot_effect_refl|].
  intros j. rewrite slots_at_insert.
  destruct (decide (id = j)) as [<-|Hne].
  - rewrite get_set, other_set, Hget.
    split; [by right|]. split; [done|].
    intros Hnot. exfalso. apply Hnot. by apply list_elem_of_singleton.
  - split; [apply kept_or_filled_refl | done].
Qed.

(** Whatever its outcome, a fill replaces no callback, leaves the other
    slot of every object alone and touches no object outside the
    checker. *)
Lemma fill_with_effect c cb :
  forall σ,
    slot_effect get other cb (checker_ids c) σ (fill_with base c cb σ).2.
Proof.
  induction c as [id | id mode c1 IH1 | id mode c1 c2 IH1 IH2]
    using checker_induction; intros σ; simpl.
  - apply base_effect.
  - pose proof (base_effect id cb σ) as Hb.
    destruct (base id cb σ) as [[[]|e] σ1]; simpl in *.
    + specialize (IH1 σ1).
      destruct (fill_with base c1 cb σ1) as [[[]|e] σ2]; simpl in *;
        rewrite app_nil_r;
        apply (slot_effect_trans cb [id] (checker_ids c1) σ σ1 σ2 Hb IH1).
    + intros j. destruct (Hb j) as (K & O & F).
      repeat split; auto. intros Hnot. apply F.
      rewrite not_elem_of_cons in Hnot. destruct Hnot as [Hne _].
      by rewrite list_elem_of_singleton.
  - pose proof (base_effect id cb σ) as Hb.
    destruct (base id cb σ) as [[[]|e] σ1]; simpl in *.
    + specialize (IH1 σ1).
      destruct (fill_with base c1 cb σ1) as [[[]|e] σ2]; simpl in *.
      * specialize (IH2 σ2).
        apply (slot_effect_trans cb [id] _ σ σ1 _ Hb).
        apply (slot_effect_trans cb _ _ σ1 σ2 _ IH1 IH2).
      * apply (slot_effect_trans cb [id] _ σ σ1 _ Hb).
        apply (slot_effect_trans cb _ _ σ1 σ2 _ IH1).
        apply slot_effect_refl.
    + intros j. destruct (Hb j) as (K & O & F).
      repeat split; auto. intros Hnot. apply F.
      rewrite not_elem_of_cons in Hnot. destruct Hnot as [Hne _].
      by rewrite list_elem_of_singleton.
Qed.

(** A callback already in a slot stays there through any fill. *)
Lemma fill_with_keeps c cb σ id old :
  get (slots_at σ id) = Some old ->
  get (slots_at (fill_with base c cb σ).2 id) = Some old.
Proof.
  intros Hold. destruct (fill_with_effect c cb σ id) as ([->|[Hn _]] & _).
  - done.
  - congruence.
Qed.

(** A fill that returns has put the callback in the slot of the checker
    and of every descendant. *)
Lemma fill_with_post c cb :
  forall σ σ',
    fill_with base c cb σ = (Ok tt, σ') ->
    forall id, id ∈ checker_ids c -> get (slots_at σ' id) = Some cb.
Proof.
  assert (Hbase : forall id σ σ1,
             base id cb σ = (Ok tt, σ1) -> get (slots_at σ1 id) = Some cb).
  { intros id σ σ1. rewrite base_eq.
    destruct (get (slots_at σ id)); [discriminate|].
    intros [= <-]. rewrite slots_at_insert.
    destruct (decide (id = id)); [apply get_set | done]. }
  induction c as [id | id mode c1 IH1 | id mode c1 c2 IH1 IH2]
    using checker_induction; intros σ σ'; simpl.
  - intros Hb j Hj. apply list_elem_of_singleton in Hj as ->. by eapply Hbase.
  - destruct (base id cb σ) as [[[]|e] σ1] eqn:Eb; [|discriminate].
    destruct (fill_with base c1 cb σ1) as [[[]|e] σ2] eqn:E1; [|discriminate].
    intros [= <-] j Hj. rewrite app_nil_r in Hj.
    apply elem_of_cons in Hj as [->|Hj].
    + pose proof (fill_with_keeps c1 cb σ1 id cb (Hbase _ _ _ Eb)) as Hk.
      by rewrite E1 in Hk.
    + by eapply IH1.
  - destruct (base id cb σ) as [[[]|e] σ1] eqn:Eb; [|discriminate].
    destruct (fill_with base c1 cb σ1) as [[[]|e] σ2] eqn:E1; [|discriminate].
    intros E2 j Hj.
    apply elem_of_cons in Hj as [->|Hj]; [|apply elem_of_app in Hj as [Hj|Hj]].
    + pose proof (fill_with_keeps c1 cb σ1 id cb (Hbase _ _ _ Eb)) as Hk1.
      rewrite E1 in Hk1. simpl in Hk1.
      pose proof (fill_with_keeps c2 cb σ2 id cb Hk1) as Hk2.
      by rewrite E2 in Hk2.
    + pose proof (fill_with_keeps c2 cb σ2 j cb (IH1 _ _ E1 j Hj)) as Hk2.
      by rewrite E2 in Hk2.
    + by eapply IH2.
Qed.

(** A fill returns when the objects of the checker are distinct and their
    slots are empty. *)
Lemma fill_with_returns c cb :
  forall σ,
    NoDup (checker_ids c) ->
    (forall id, id ∈ checker_ids c -> get (slots_at σ id) = None) ->
    exists σ', fill_with base c cb σ = (Ok tt, σ').
Proof.
  induction c as [id | id mode c1 IH1 | id mode c1 c2 IH1 IH2]
    using checker_induction; intros σ Hnd Hempty; simpl in *.
  - rewrite base_eq, (Hempty id) by apply list_elem_of_here. eauto.
  - rewrite app_nil_r in *. apply NoDup_cons in Hnd as [Hid Hnd1].
    pose proof (base_effect id cb σ) as Hb.
    rewrite base_eq, (Hempty id) in * by apply list_elem_of_here.
    simpl in Hb.
    destruct (IH1 (<[id := set cb (slots_at σ id)]> σ) Hnd1) as [σ2 ->];
      [|eauto].
    intros j Hj. destruct (Hb j) as (_ & _ & F).
    rewrite F; [apply Hempty; by apply list_elem_of_further|].
    intros Hin. apply list_elem_of_singleton in Hin as ->. done.
  - apply NoDup_cons in Hnd as [Hid Hnd].
    apply NoDup_app in Hnd as (Hnd1 & Hdisj & Hnd2).
    rewrite not_elem_of_app in Hid. destruct Hid as [Hid1 Hid2].
    pose proof (base_effect id cb σ) as Hb.
    rewrite base_eq, (Hempty id) in * by apply list_elem_of_here.
    simpl in Hb.
    set (σ1 := <[id := set cb (slots_at σ id)]> σ) in *.
    assert (Hσ1 : forall j, j ≠ id -> slots_at σ1 j = slots_at σ j).
    { intros j Hne. destruct (Hb j) as (_ & _ & F). apply F.
      intros Hin. by apply list_elem_of_singleton in Hin. }
    destruct (IH1 σ1 Hnd1) as [σ2 E1].
    { intros j Hj. rewrite Hσ1 by congruence.
      apply Hempty, list_elem_of_further, elem_of_app. by left. }
    rewrite E1.
    pose proof (fill_with_effect c1 cb σ1) as He1. rewrite E1 in He1.
    apply (IH2 σ2 Hnd2).
    intros j Hj. destruct (He1 j) as (_ & _ & F). simpl in F.
    rewrite F by (intros Hin; by apply (Hdisj j)).
    rewrite Hσ1 by congruence.
    apply Hempty, list_elem_of_further, elem_of_app. by right.
Qed.

(** And only then. *)
Lemma fill_with_returns_only_if c cb :
  forall σ σ',
    fill_with base c cb σ = (Ok tt, σ') ->
    NoDup (checker_ids c)
    /\ forall id, id ∈ checker_ids c -> get (slots_at σ id) = None.
Proof.
  assert (Hbase : forall id σ σ1,
             base id cb σ = (Ok tt, σ1) ->
             get (slots_at σ id) = None /\ get (slots_at σ1 id) = Some cb).
  { intros id σ σ1. rewrite base_eq.
    destruct (get (slots_at σ id)); [discriminate|].
    intros [= <-]. rewrite slots_at_insert.
    destruct (decide (id = id)); [by rewrite get_set | done]. }
  assert (Hback : forall ids σ1 σ2 j,
             slot_effect get other cb ids σ1 σ2 ->
             get (slots_at σ2 j) = None -> get (slots_at σ1 j) = None).
  { intros ids σ1 σ2 j He H2. destruct (He j) as ([Heq|[Hn Hs]] & _).
    - congruence.
    - done. }
  induction c as [id | id mode c1 IH1 | id mode c1 c2 IH1 IH2]
    using checker_induction; intros σ σ'; simpl.
  - intros Hb. destruct (Hbase _ _ _ Hb) as [Hn _].
    split; [apply NoDup_singleton|].
    intros j Hj. by apply list_elem_of_singleton in Hj as ->.
  - destruct (base id cb σ) as [[[]|e] σ1] eqn:Eb; [|discriminate].
    destruct (fill_with base c1 cb σ1) as [[[]|e] σ2] eqn:E1; [|discriminate].
    intros [= <-]. rewrite app_nil_r.
    destruct (Hbase _ _ _ Eb) as [Hn Hs].
    destruct (IH1 _ _ E1) as [Hnd1 Hempty1].
    pose proof (base_effect id cb σ) as Hb. rewrite Eb in Hb.
    split.
    + apply NoDup_cons. split; [|done].
      intros Hin. apply Hempty1 in Hin. congruence.
    + intros j Hj. apply elem_of_cons in Hj as [->|Hj]; [done|].
      eapply Hback; [exact Hb | by apply Hempty1].
  - destruct (base id cb σ) as [[[]|e] σ1] eqn:Eb; [|discriminate].
    destruct (fill_with base c1 cb σ1) as [[[]|e] σ2] eqn:E1; [|discriminate].
    intros E2.
    destruct (Hbase _ _ _ Eb) as [Hn Hs].
    destruct (IH1 _ _ E1) as [Hnd1 Hempty1].
    destruct (IH2 _ _ E2) as [Hnd2 Hempty2].
    pose proof (base_effect id cb σ) as Hb. rewrite Eb in Hb.
    pose proof (fill_with_effect c1 cb σ1) as He1. rewrite E1 in He1.
    pose proof (fill_with_post c1 cb _ _ E1) as Hpost1.
    pose proof (fill_with_keeps c1 cb σ1 id cb Hs) as Hk1.
    rewrite E1 in Hk1. simpl in *.
    split.
    + apply NoDup_cons. split.
      * intros Hin. apply elem_of_app in Hin as [Hin|Hin].
        -- apply Hempty1 in Hin. congruence.
        -- apply Hempty2 in Hin. congruence.
      * apply NoDup_app. split; [done|]. split; [|done].
        intros j Hj1 Hj2. apply Hpost1 in Hj1. apply Hempty2 in Hj2.
        congruence.
    + intros j Hj.
      apply elem_of_cons in Hj as [->|Hj]; [done|].
      apply elem_of_app in Hj as [Hj|Hj].
      * eapply Hback; [exact Hb | by apply Hempty1].
      * eapply Hback; [exact Hb|].
        eapply Hback; [exact He1 | by apply Hempty2].
Qed.

(** A checker whose own slot is taken refuses the fill at once. *)
Lemma fill_with_taken c cb σ old :
  get (slots_at σ (checker_id c)) = Some old ->
  fill_with base c cb σ = (Raise (BotCheckerError (msg old)), σ).
Proof.
  destruct c as [id | id mode c1 c2]; simpl; intros Hold;
    by rewrite base_eq, Hold.
Qed.

(** The facts of a fill method [method] that makes this traversal. *)
Variable method : checker -> callback -> cb_store -> result unit * cb_store.
Hypothesis method_eq : forall c cb σ, method c cb σ = fill_with base c cb σ.

Lemma fill_method_facts c cb σ :
  ((NoDup (checker_ids c)
    /\ forall id, id ∈ checker_ids c -> get (slots_at σ id) = None)
   <-> (method c cb σ).1 = Ok tt)
  /\ ((method c cb σ).1 = Ok tt ->
      forall id,
        id ∈ checker_ids c -> get (slots_at (method c cb σ).2 id) = Some cb)
  /\ (forall old,
         get (slots_at σ (checker_id c)) = Some old ->
         method c cb σ = (Raise (BotCheckerError (msg old)), σ))
  /\ slot_effect get other cb (checker_ids c) σ (method c cb σ).2.
Proof.
  rewrite !method_eq.
  split; [split|split; [|split]].
  - intros [Hnd Hempty].
    destruct (fill_with_returns c cb σ Hnd Hempty) as [σ' ->].
    done.
  - destruct (fill_with base c cb σ) as [[[]|e] σ'] eqn:E; [|discriminate].
    intros _. by eapply fill_with_returns_only_if.
  - destruct (fill_with base c cb σ) as [[[]|e] σ'] eqn:E; [|discriminate].
    intros _. by eapply fill_with_post.
  - intros old. by apply fill_with_taken.
  - by eapply fill_with_effect.
Qed.

(** The traversal is the base-class method on the objects of the
    checker, in the order of [checker_ids]. *)
Lemma fill_ids_app ids1 ids2 cb σ :
  fill_ids base (ids1 ++ ids2) cb σ
  = match fill_ids base ids1 cb σ with
    | (Raise e, σ1) => (Raise e, σ1)
    | (Ok _, σ1) => fill_ids base ids2 cb σ1
    end.
Proof.
  revert σ. induction ids1 as [|id ids1 IH]; intros σ; simpl; [done|].
  by destruct (base id cb σ) as [[[]|e] σ1].
Qed.

Lemma fill_with_as_ids c cb :
  forall σ, fill_with base c cb σ = fill_ids base (checker_ids c) cb σ.
Proof.
  induction c as [id | id mode c1 IH1 | id mode c1 c2 IH1 IH2]
    using checker_induction; intros σ; simpl.
  - rewrite base_eq. by destruct (get (slots_at σ id)).
  - destruct (base id cb σ) as [[[]|e] σ1]; [|done].
    rewrite app_nil_r, IH1.
    by destruct (fill_ids base (checker_ids c1) cb σ1) as [[[]|e] σ2].
  - destruct (base id cb σ) as [[[]|e] σ1]; [|done].
    rewrite fill_ids_app, IH1.
    destruct (fill_ids base (checker_ids c1) cb σ1) as [[[]|e] σ2]; [|done].
    apply IH2.
Qed.

(** A fill that raises stopped at the first object whose slot was taken,
    before the call or by the call itself: the objects visited before it
    are distinct, had an empty slot and now hold the callback, and every
    other object is as it was. *)
Lemma fill_ids_raises ids cb :
  forall σ e σ',
    fill_ids base ids cb σ = (Raise e, σ') ->
    exists visited id rest old,
      ids = visited ++ id :: rest
      /\ e = BotCheckerError (msg old)
      /\ get (slots_at σ' id) = Some old
      /\ NoDup visited
      /\ (forall j, j ∈ visited ->
            get (slots_at σ j) = None /\ get (slots_at σ' j) = Some cb)
      /\ (forall j, j ∉ visited -> slots_at σ' j = slots_at σ j).
Proof.
  induction ids as [|id ids IH]; intros σ e σ'; simpl; [discriminate|].
  rewrite base_eq.
  destruct (get (slots_at σ id)) as [old|] eqn:Hget.
  - intros [= <- <-]. exists [], id, ids, old.
    split; [done|]. split; [done|]. split; [done|].
    split; [constructor|]. split; [|done].
    intros j Hj. by apply elem_of_nil in Hj.
  - intros Hfill.
    destruct (IH _ _ _ Hfill)
      as (visited & id' & rest & old & -> & -> & Hold & Hnd & Hvis & Hout).
    assert (get (slots_at (<[id := set cb (slots_at σ id)]> σ) id) = Some cb)
      as Hid.
    { rewrite slots_at_insert. by destruct (decide (id = id)). }
    assert (id ∉ visited) as Hnot.
    { intros Hin. destruct (Hvis id Hin) as [Hnone _]. congruence. }
    exists (id :: visited), id', rest, old.
    split; [done|]. split; [done|]. split; [done|].
    split; [by apply NoDup_cons|]. split.
    + intros j Hj. apply elem_of_cons in Hj as [->|Hj].
      * split; [done|]. by rewrite (Hout id Hnot).
      * destruct (Hvis j Hj) as [Hnone Hsome]. split; [|done].
        rewrite slots_at_insert in Hnone.
        destruct (decide (id = j)) as [<-|_]; [|done].
        by rewrite get_set in Hnone.
    + intros j Hj. rewrite not_elem_of_cons in Hj. destruct Hj as [Hne Hj].
      rewrite (Hout j Hj), slots_at_insert.
      by destruct (decide (id = j)).
Qed.

Lemma fill_method_raises c cb σ e :
  (method c cb σ).1 = Raise e ->
  exists visited id rest old,
    checker_ids c = visited ++ id :: rest
    /\ e = BotCheckerError (msg old)
    /\ get (slots_at (method c cb σ).2 id) = Some old
    /\ NoDup visited
    /\ (forall j, j ∈ visited ->
          get (slots_at σ j) = None
          /\ get (slots_at (method c cb σ).2 j) = Some cb)
    /\ (forall j, j ∉ visited ->
          slots_at (method c cb σ).2 j = slots_at σ j).
Proof.
  rewrite method_eq, fill_with_as_ids.
  destruct (fill_ids base (checker_ids c) cb σ) as [r σ'] eqn:Hfill.
  simpl. intros ->. by apply (fill_ids_raises _ _ _ _ _ Hfill).
Qed.

End FillFacts.

Section CheckerClaims.

Context `{PyBuiltins}.

Implicit Types (c : checker) (cb : callback) (σ : cb_store).

Lemma fill_ok_is_fill_with c cb :
  forall σ,
    WrappedChecker._fill_ok_cb c cb σ
    = fill_with BotChecker._fill_ok_cb c cb σ.
Proof.
  induction c as [id | id mode c1 IH1 | id mode c1 c2 IH1 IH2]
    using checker_induction; intros σ; simpl; [done|..];
    destruct (BotChecker._fill_ok_cb id cb σ) as [[[]|e] σ1]; try done;
    rewrite IH1;
    destruct (fill_with BotChecker._fill_ok_cb c1 cb σ1) as [[[]|e] σ2];
    try done.
Qed.

Lemma fill_fail_is_fill_with c cb :
  forall σ,
    WrappedChecker._fill_fail_cb c cb σ
    = fill_with BotChecker._fill_fail_cb c cb σ.
Proof.
  induction c as [id | id mode c1 IH1 | id mode c1 c2 IH1 IH2]
    using checker_induction; intros σ; simpl; [done|..];
    destruct (BotChecker._fill_fail_cb id cb σ) as [[[]|e] σ1]; try done;
    rewrite IH1;
    destruct (fill_with BotChecker._fill_fail_cb c1 cb σ1) as [[[]|e] σ2];
    try done.
Qed.

(** C4, as amended. Filling the success callback of a checker visits the
    checker itself, then its first child with its descendants, then its
    second child with its descendants. It returns exactly when the
    checker and its descendants are distinct objects with empty success
    slots, and it has then put the same callback in the slot of the
    checker itself and of every descendant, leaves included. Otherwise it
    raises [BotCheckerError] at the first object it reaches whose slot is
    taken, be it from before the call or by this very call when the
    object is reached a second time, and what was filled stays filled:
    the objects visited before hold the callback, every other object is
    as it was. A checker whose own slot is taken refuses the fill and
    nothing changes. Whatever the outcome, no callback already in a slot
    is replaced, the failure slots are as they were, and no object
    outside the checker is touched. The same holds of the failure
    callback, with the roles of the two slots exchanged. *)
Theorem fill_cb_reaches_every_slot c cb σ :
  (((NoDup (checker_ids c)
     /\ forall id, id ∈ checker_ids c -> ok_cb (slots_at σ id) = None)
    <-> (WrappedChecker._fill_ok_cb c cb σ).1 = Ok tt)
   /\ ((WrappedChecker._fill_ok_cb c cb σ).1 = Ok tt ->
       forall id,
         id ∈ checker_ids c ->
         ok_cb (slots_at (WrappedChecker._fill_ok_cb c cb σ).2 id) = Some cb)
   /\ (forall e,
          (WrappedChecker._fill_ok_cb c cb σ).1 = Raise e ->
          exists visited id rest old,
            checker_ids c = visited ++ id :: rest
            /\ e = BotCheckerError
                     ("ok_cb 回调已经被初始化，值为：" +:+ py_str (ObjCallback old))
            /\ ok_cb (slots_at (WrappedChecker._fill_ok_cb c cb σ).2 id)
               = Some old
            /\ NoDup visited
            /\ (forall j,
                   j ∈ visited ->
                   ok_cb (slots_at σ j) = None
                   /\ ok_cb (slots_at (WrappedChecker._fill_ok_cb c cb σ).2 j)
                      = Some cb)
            /\ (forall j,
                   j ∉ visited ->
                   slots_at (WrappedChecker._fill_ok_cb c cb σ).2 j
                   = slots_at σ j))
   /\ (forall old,
          ok_cb (slots_at σ (checker_id c)) = Some old ->
          WrappedChecker._fill_ok_cb c cb σ
          = (Raise (BotCheckerError
                      ("ok_cb 回调已经被初始化，值为：" +:+ py_str (ObjCallback old))),
             σ))
   /\ slot_effect ok_cb fail_cb cb (checker_ids c) σ
                  (WrappedChecker._fill_ok_cb c cb σ).2)
  /\ (((NoDup (checker_ids c)
        /\ forall id, id ∈ checker_ids c -> fail_cb (slots_at σ id) = None)
       <-> (WrappedChecker._fill_fail_cb c cb σ).1 = Ok tt)
      /\ ((WrappedChecker._fill_fail_cb c cb σ).1 = Ok tt ->
          forall id,
            id ∈ checker_ids c ->
            fail_cb (slots_at (WrappedChecker._fill_fail_cb c cb σ).2 id)
            = Some cb)
      /\ (forall e,
             (WrappedChecker._fill_fail_cb c cb σ).1 = Raise e ->
             exists visited id rest old,
               checker_ids c = visited ++ id :: rest
               /\ e = BotCheckerError
                        ("fail_cb 回调已经被初始化，值为："
                         +:+ py_str (ObjCallback old))
               /\ fail_cb (slots_at (WrappedChecker._fill_fail_cb c cb σ).2 id)
                  = Some old
               /\ NoDup visited
               /\ (forall j,
                      j ∈ visited ->
                      fail_cb (slots_at σ j) = None
                      /\ fail_cb
                           (slots_at (WrappedChecker._fill_fail_cb c cb σ).2 j)
                         = Some cb)
               /\ (forall j,
                      j ∉ visited ->
                      slots_at (WrappedChecker._fill_fail_cb c cb σ).2 j
                      = slots_at σ j))
      /\ (forall old,
             fail_cb (slots_at σ (checker_id c)) = Some old ->
             WrappedChecker._fill_fail_cb c cb σ
             = (Raise (BotCheckerError
                         ("fail_cb 回调已经被初始化，值为："
                          +:+ py_str (ObjCallback old))),
                σ))
      /\ slot_effect fail_cb ok_cb cb (checker_ids c) σ
                     (WrappedChecker._fill_fail_cb c cb σ).2).
Proof.
  assert (forall id cb' σ',
             BotChecker._fill_ok_cb id cb' σ'
             = match ok_cb (slots_at σ' id) with
               | Some old =>
                   (Raise (BotCheckerError
                             ("ok_cb 回调已经被初始化，值为："
                              +:+ py_str (ObjCallback old))), σ')
               | None =>
                   (Ok tt,
                    <[id := mk_slots (Some cb') (fail_cb (slots_at σ' id))]> σ')
               end) as Hok.
  { intros id cb' σ'. unfold BotChecker._fill_ok_cb.
    by destruct (ok_cb (slots_at σ' id)). }
  assert (forall id cb' σ',
             BotChecker._fill_fail_cb id cb' σ'
             = match fail_cb (slots_at σ' id) with
               | Some old =>
                   (Raise (BotCheckerError
                             ("fail_cb 回调已经被初始化，值为："
                              +:+ py_str (ObjCallback old))), σ')
               | None =>
                   (Ok tt,
                    <[id := mk_slots (ok_cb (slots_at σ' id)) (Some cb')]> σ')
               end) as Hfail.
  { intros id cb' σ'. unfold BotChecker._fill_fail_cb.
    by destruct (fail_cb (slots_at σ' id)). }
  split.
  - destruct (fill_method_facts
                ok_cb fail_cb (λ cb s, mk_slots (Some cb) (fail_cb s))
                (λ old, "ok_cb 回调已经被初始化，值为：" +:+ py_str (ObjCallback old))
                BotChecker._fill_ok_cb (λ _ _, eq_refl) (λ _ _, eq_refl) Hok
                WrappedChecker._fill_ok_cb fill_ok_is_fill_with c cb σ)
      as (Hiff & Hpost & Htaken & Heff).
    split; [done|]. split; [done|]. split; [|done].
    intros e.
    apply (fill_method_raises
             ok_cb (λ cb s, mk_slots (Some cb) (fail_cb s))
             (λ old, "ok_cb 回调已经被初始化，值为：" +:+ py_str (ObjCallback old))
             BotChecker._fill_ok_cb (λ _ _, eq_refl) Hok
             WrappedChecker._fill_ok_cb fill_ok_is_fill_with).
  - destruct (fill_method_facts
                fail_cb ok_cb (λ cb s, mk_slots (ok_cb s) (Some cb))
                (λ old, "fail_cb 回调已经被初始化，值为："
                        +:+ py_str (ObjCallback old))
                BotChecker._fill_fail_cb (λ _ _, eq_refl) (λ _ _, eq_refl)
                Hfail
                WrappedChecker._fill_fail_cb fill_fail_is_fill_with c cb σ)
      as (Hiff & Hpost & Htaken & Heff).
    split; [done|]. split; [done|]. split; [|done].
    intros e.
    apply (fill_method_raises
             fail_cb (λ cb s, mk_slots (ok_cb s) (Some cb))
             (λ old, "fail_cb 回调已经被初始化，值为："
                     +:+ py_str (ObjCallback old))
             BotChecker._fill_fail_cb (λ _ _, eq_refl) Hfail
             WrappedChecker._fill_fail_cb fill_fail_is_fill_with).
Qed.

(** C5, as amended. The constructors of [WrappedChecker] and
    [WrappedMatcher] never raise: they store the mode and the children
    they are given, in every mode, with or without a second child. The
    operator [~] builds a NOT composite with exactly one child. *)
Theorem wrapped_init_stores_operands
  (new : nat) (mode : LogicMode) (c1 : checker) (c2 : option checker)
  (σ : cb_store) (m1 : matcher) (m2 : option matcher) :
  WrappedChecker.__init__ new mode c1 c2 σ
  = (Ok (CWrapped new mode c1 c2), <[new := empty_slots]> σ)
  /\ WrappedMatcher.__init__ mode m1 m2 = Ok (MWrapped mode m1 m2)
  /\ BotCheckerOps.__invert__ new c1 σ
     = (Ok (CWrapped new NOT c1 None), <[new := empty_slots]> σ)
  /\ BotMatcher.__invert__ m1 = Ok (MWrapped NOT m1 None)
  /\ checker_children (CWrapped new NOT c1 None) = 1%nat
  /\ matcher_children (MWrapped NOT m1 None) = 1%nat.
Proof. repeat split. Qed.

(** C9. [&], [|] and [^] on a checker, given a right operand that is not
    a checker, raise [BotCheckerError] whose message ends with the text of
    the operand, and build nothing; likewise on a matcher, with
    [BotMatcherError], for an operand that is not a matcher. *)
Theorem combine_with_non_predicate
  (new : nat) (self_c : checker) (self_m : matcher) (other : pyobj)
  (σ : cb_store) :
  (isinstance_BotChecker other = false ->
   let e := BotCheckerError
              ("联合检查器定义时出现了非检查器对象，其值为：" +:+ py_str other) in
   BotCheckerOps.__and__ new self_c other σ = (Raise e, σ)
   /\ BotCheckerOps.__or__ new self_c other σ = (Raise e, σ)
   /\ BotCheckerOps.__xor__ new self_c other σ = (Raise e, σ))
  /\ (isinstance_BotMatcher other = false ->
      let e := BotMatcherError
                 ("联合匹配器定义时出现了非匹配器对象，其值为：" +:+ py_str other) in
      BotMatcher.__and__ self_m other = Raise e
      /\ BotMatcher.__or__ self_m other = Raise e
      /\ BotMatcher.__xor__ self_m other = Raise e).
Proof.
  split; intros Hno; destruct other; try discriminate; repeat split.
Qed.

End CheckerClaims.

(** C5, the claim as written fails: a NOT composite built with a second
    operand is constructed, and holds two children. *)
Lemma not_with_second_operand_is_built :
  (WrappedChecker.__init__ 2 NOT (CLeaf 0) (Some (CLeaf 1)) ∅).1
  = Ok (CWrapped 2 NOT (CLeaf 0) (Some (CLeaf 1)))
  /\ checker_children (CWrapped 2 NOT (CLeaf 0) (Some (CLeaf 1))) = 2%nat
  /\ WrappedMatcher.__init__ NOT (MLeaf 0) (Some (MLeaf 1))
     = Ok (MWrapped NOT (MLeaf 0) (Some (MLeaf 1)))
  /\ matcher_children (MWrapped NOT (MLeaf 0) (Some (MLeaf 1))) = 2%nat.
Proof. repeat split. Qed.

(** A composite of three distinct leaves, filled on a store where nobody
    has a callback: the fill returns and the five objects hold the
    callback. *)
Example fill_three_leaves :
  let r := @WrappedChecker._fill_ok_cb sample_builtins three_leaf_checker
                                       (Callback 7) ∅ in
  r.1 = Ok tt
  /\ map (λ id, ok_cb (slots_at r.2 id)) [0; 1; 2; 3; 4]%nat
     = [Some (Callback 7); Some (Callback 7); Some (Callback 7);
        Some (Callback 7); Some (Callback 7)].
Proof. split; reflexivity. Qed.

(** A composite that reaches one leaf twice: the second visit of the leaf
    raises, and the leaf after it is left empty. *)
Example fill_shared_leaf :
  let r := @WrappedChecker._fill_ok_cb sample_builtins shared_leaf_checker
                                       (Callback 7) ∅ in
  r.1 = Raise (BotCheckerError "ok_cb 回调已经被初始化，值为：<function>")
  /\ map (λ id, ok_cb (slots_at r.2 id)) [0; 1; 2; 3; 4; 5]%nat
     = [Some (Callback 7); Some (Callback 7); Some (Callback 7);
        Some (Callback 7); Some (Callback 7); None].
Proof. split; reflexivity. Qed.

(** C4, the claim as written fails: a fill need not reach every
    descendant. On [(g & a) | (g & o)] with all slots empty the second
    visit of [g] raises and [o] is left without the callback; on a
    composite of distinct objects one of whose leaves has a callback
    already, the fill raises at that leaf, after it has filled the
    objects before it, and the leaf after it is left empty. *)
Lemma fill_leaves_descendants_unfilled :
  let r := @WrappedChecker._fill_ok_cb sample_builtins shared_leaf_checker
                                       (Callback 7) ∅ in
  let σ0 : cb_store := <[3%nat := mk_slots (Some (Callback 1)) None]> ∅ in
  let r' := @WrappedChecker._fill_ok_cb sample_builtins three_leaf_checker
                                        (Callback 7) σ0 in
  checker_ids shared_leaf_checker = [0; 1; 2; 3; 4; 2; 5]%nat
  /\ r.1 = Raise (BotCheckerError "ok_cb 回调已经被初始化，值为：<function>")
  /\ ok_cb (slots_at r.2 0%nat) = Some (Callback 7)
  /\ ok_cb (slots_at r.2 5%nat) = None
  /\ checker_ids three_leaf_checker = [0; 1; 2; 3; 4]%nat
  /\ r'.1 = Raise (BotCheckerError "ok_cb 回调已经被初始化，值为：<function>")
  /\ ok_cb (slots_at r'.2 0%nat) = Some (Callback 7)
  /\ ok_cb (slots_at r'.2 3%nat) = Some (Callback 1)
  /\ ok_cb (slots_at r'.2 4%nat) = None.
Proof. repeat split; reflexivity. Qed.

(** ** Serialization of actions *)

(** C8, as amended. [extract] never fails and yields the keys "action" and
    "params", in that order, holding the operation type and the parameter
    payload, followed by the key "echo" holding the identifier exactly
    when an identifier is present and is not the empty string. The action
    "send_private_msg" with parameters user_id 123 and message "hi" and no
    identifier yields just these two keys. *)
Theorem extract_structure (self : BotAction.t) :
  BotAction.extract self
  = Ok ([("action", PyStr (BotAction.type self));
         ("params", PyDict (BotAction.params self))]
        ++ match BotAction.resp_id self with
           | Some id => if String.eqb id "" then [] else [("echo", PyStr id)]
           | None => []
           end)
  /\ BotAction.extract sample_action
     = Ok [("action", PyStr "send_private_msg");
           ("params", PyDict [("user_id", PyInt 123);
                              ("message", PyStr "hi")])].
Proof.
  split; [|reflexivity].
  unfold BotAction.extract, BotAction.resp_id_val, truthy_opt_str.
  destruct (BotAction.resp_id self) as [id|]; [|reflexivity].
  destruct (String.eqb id ""); reflexivity.
Qed.

(** C8, the claim as written fails: an action that carries an identifier,
    the empty string, is serialized without the key "echo". *)
Lemma extract_empty_identifier_has_no_echo :
  BotAction.resp_id sample_action_empty_id = Some ""
  /\ BotAction.extract sample_action_empty_id
     = Ok [("action", PyStr "send_private_msg");
           ("params", PyDict [("user_id", PyInt 123);
                              ("message", PyStr "hi")])].
Proof. split; reflexivity. Qed.

(** ** Sorting *)

Section SortFacts.

Context {A : Type} (key : A -> Z).

Lemma insert_desc_perm x l : insert_desc key x l ≡ₚ x :: l.
Proof.
  induction l as [|y l IH]; simpl; [done|].
  destruct (key x <? key y); [|done].
  rewrite IH. apply Permutation_swap.
Qed.

Lemma sorted_reverse_perm l : sorted_reverse key l ≡ₚ l.
Proof.
  induction l as [|x l IH]; simpl; [done|].
  by rewrite insert_desc_perm, IH.
Qed.

Lemma insert_desc_sorted x l :
  StronglySorted (λ a b, key b <= key a) l ->
  StronglySorted (λ a b, key b <= key a) (insert_desc key x l).
Proof.
  induction 1 as [|y l Hs IH Hall]; simpl.
  - repeat constructor.
  - destruct (Z.ltb_spec (key x) (key y)) as [Hlt|Hge].
    + constructor; [done|].
      rewrite insert_desc_perm. constructor; [lia | done].
    + constructor; [by constructor|].
      constructor; [done|].
      eapply Forall_impl; [exact Hall|]. simpl. intros; lia.
Qed.

Lemma sorted_reverse_sorted l :
  StronglySorted (λ a b, key b <= key a) (sorted_reverse key l).
Proof.
  induction l as [|x l IH]; simpl; [constructor|].
  by apply insert_desc_sorted.
Qed.

(** The sort is stable: the elements with a given key keep their order. *)
Lemma insert_desc_stable k x l :
  filter (λ a, key a = k) (insert_desc key x l)
  = filter (λ a, key a = k) (x :: l).
Proof.
  induction l as [|y l IH]; simpl; [done|].
  destruct (Z.ltb_spec (key x) (key y)) as [Hlt|Hge]; [|done].
  rewrite !filter_cons in *.
  destruct (decide (key y = k)) as [Hy|Hy];
    destruct (decide (key x = k)) as [Hx|Hx]; try lia; by rewrite IH.
Qed.

Lemma sorted_reverse_stable k l :
  filter (λ a, key a = k) (sorted_reverse key l) = filter (λ a, key a = k) l.
Proof.
  induction l as [|x l IH]; simpl; [done|].
  rewrite insert_desc_stable, !filter_cons. by rewrite IH.
Qed.

End SortFacts.

(** ** Binding handlers *)

Section BindFacts.

Context {World : Type}.

Implicit Types (lm lr ln : list (IEventHandler World)).
Implicit Types (h : IEventHandler World) (hs : list (IEventHandler World)).

Lemma handlers3_message lm lr ln : handlers3 lm lr ln !! "message" = Some lm.
Proof. unfold handlers3. by rewrite lookup_insert_eq. Qed.

Lemma handlers3_request lm lr ln : handlers3 lm lr ln !! "request" = Some lr.
Proof.
  unfold handlers3.
  rewrite lookup_insert_ne by done. by rewrite lookup_insert_eq.
Qed.

Lemma handlers3_notice lm lr ln : handlers3 lm lr ln !! "notice" = Some ln.
Proof.
  unfold handlers3.
  rewrite !lookup_insert_ne by done. by rewrite lookup_insert_eq.
Qed.

Lemma handlers3_other lm lr ln (k : string) :
  k <> "message" -> k <> "request" -> k <> "notice" ->
  handlers3 lm lr ln !! k = None.
Proof.
  intros Hm Hr Hn. unfold handlers3.
  rewrite !lookup_insert_ne by done. apply lookup_empty.
Qed.

Lemma handlers3_set_message l lm lr ln :
  <["message" := l]> (handlers3 lm lr ln) = handlers3 l lr ln.
Proof. unfold handlers3. by rewrite insert_insert_eq. Qed.

Lemma handlers3_set_request l lm lr ln :
  <["request" := l]> (handlers3 lm lr ln) = handlers3 lm l ln.
Proof.
  unfold handlers3.
  rewrite (insert_insert_ne _ "request" "message") by done.
  by rewrite insert_insert_eq.
Qed.

Lemma handlers3_set_notice l lm lr ln :
  <["notice" := l]> (handlers3 lm lr ln) = handlers3 lm lr l.
Proof.
  unfold handlers3.
  rewrite (insert_insert_ne _ "notice" "message") by done.
  rewrite (insert_insert_ne _ "notice" "request") by done.
  by rewrite insert_insert_eq.
Qed.

Lemma handlers3_fmap (f : list (IEventHandler World)
                          -> list (IEventHandler World)) lm lr ln :
  f <$> handlers3 lm lr ln = handlers3 (f lm) (f lr) (f ln).
Proof. unfold handlers3. by rewrite !fmap_insert, fmap_empty. Qed.

Lemma init_handlers3 logger :
  BotDispatcher.__init__ (World := World) logger
  = BotDispatcher.mk (handlers3 [] [] []) logger false.
Proof. reflexivity. Qed.

Lemma of_family_cons f h hs :
  of_family f (h :: hs)
  = if decide (family h = f) then h :: of_family f hs else of_family f hs.
Proof. unfold of_family. by rewrite filter_cons. Qed.

Lemma of_family_app f hs hs' :
  of_family f (hs ++ hs') = of_family f hs ++ of_family f hs'.
Proof. unfold of_family. by rewrite filter_app. Qed.

(** The first loop of [bind] appends every handler to the list of its
    family, in the order of the argument, and drops the others. *)
Lemma bind_classify_handlers3 hs lm lr ln :
  BotDispatcher.bind_classify hs (handlers3 lm lr ln)
  = (Ok tt,
     handlers3 (lm ++ of_family MsgEventHandler hs)
               (lr ++ of_family ReqEventHandler hs)
               (ln ++ of_family NoticeEventHandler hs)).
Proof.
  revert lm lr ln.
  induction hs as [|h hs IH]; intros lm lr ln; simpl.
  - unfold of_family. by rewrite !filter_nil, !app_nil_r.
  - rewrite !of_family_cons. unfold BotDispatcher.append_to.
    destruct (family h); simpl.
    + rewrite handlers3_message, handlers3_set_message, IH.
      by rewrite <- !app_assoc.
    + rewrite handlers3_request, handlers3_set_request, IH.
      by rewrite <- !app_assoc.
    + rewrite handlers3_notice, handlers3_set_notice, IH.
      by rewrite <- !app_assoc.
    + by rewrite IH.
Qed.

(** One call of [bind] on a dispatcher with the three keys. *)
Lemma bind_handlers3 hs lm lr ln logger ready :
  BotDispatcher.bind (BotDispatcher.mk (handlers3 lm lr ln) logger ready) hs
  = (Ok tt,
     BotDispatcher.mk
       (handlers3
          (sorted_reverse priority (lm ++ of_family MsgEventHandler hs))
          (sorted_reverse priority (lr ++ of_family ReqEventHandler hs))
          (sorted_reverse priority (ln ++ of_family NoticeEventHandler hs)))
       logger true).
Proof.
  unfold BotDispatcher.bind. simpl.
  by rewrite bind_classify_handlers3, handlers3_fmap.
Qed.

(** Any sequence of calls of [bind], from a dispatcher with the three keys
    and sorted lists. *)
Lemma bind_all_handlers3 calls :
  forall lm lr ln logger ready,
    sorted_desc lm -> sorted_desc lr -> sorted_desc ln ->
    exists lm' lr' ln',
      BotDispatcher.bind_all
        (BotDispatcher.mk (handlers3 lm lr ln) logger ready) calls
      = (Ok tt,
         BotDispatcher.mk (handlers3 lm' lr' ln') logger
                          (match calls with [] => ready | _ => true end))
      /\ (sorted_desc lm' /\ sorted_desc lr' /\ sorted_desc ln')
      /\ lm' ≡ₚ lm ++ of_family MsgEventHandler (concat calls)
      /\ lr' ≡ₚ lr ++ of_family ReqEventHandler (concat calls)
      /\ ln' ≡ₚ ln ++ of_family NoticeEventHandler (concat calls).
Proof.
  induction calls as [|hs calls IH]; intros lm lr ln logger ready Hm Hr Hn.
  - exists lm, lr, ln. simpl. unfold of_family.
    by rewrite !filter_nil, !app_nil_r.
  - simpl. rewrite bind_handlers3.
    destruct (IH (sorted_reverse priority (lm ++ of_family MsgEventHandler hs))
                 (sorted_reverse priority (lr ++ of_family ReqEventHandler hs))
                 (sorted_reverse priority
                                 (ln ++ of_family NoticeEventHandler hs))
                 logger true)
      as (lm' & lr' & ln' & Heq & Hsorted & Pm & Pr & Pn);
      try apply sorted_reverse_sorted.
    exists lm', lr', ln'.
    split; [rewrite Heq; by destruct calls|].
    split; [done|].
    rewrite !of_family_app, !app_assoc.
    rewrite Pm, Pr, Pn.
    by rewrite !sorted_reverse_perm.
Qed.

(** C3. Any sequence of calls of [bind] on a new dispatcher returns
    normally and leaves a dictionary with the three keys, where each list
    is sorted by priority, highest first, and holds exactly the handlers
    of its family from all the calls; the dispatcher is ready as soon as
    one call was made, and a call on a ready dispatcher leaves it
    ready. *)
Theorem bind_sorts_each_family
  (logger : Logger.t) (calls : list (list (IEventHandler World))) :
  (exists lm lr ln,
      BotDispatcher.bind_all (BotDispatcher.__init__ logger) calls
      = (Ok tt,
         BotDispatcher.mk (handlers3 lm lr ln) logger
                          (match calls with [] => false | _ => true end))
      /\ (sorted_desc lm /\ sorted_desc lr /\ sorted_desc ln)
      /\ lm ≡ₚ of_family MsgEventHandler (concat calls)
      /\ lr ≡ₚ of_family ReqEventHandler (concat calls)
      /\ ln ≡ₚ of_family NoticeEventHandler (concat calls))
  /\ (forall (self : BotDispatcher.t World) hs,
        BotDispatcher._ready_signal self = true ->
        BotDispatcher._ready_signal (BotDispatcher.bind self hs).2 = true).
Proof.
  split.
  - rewrite init_handlers3.
    destruct (bind_all_handlers3 calls [] [] [] logger false)
      as (lm & lr & ln & Heq & Hsorted & Pm & Pr & Pn);
      try (by constructor).
    exists lm, lr, ln. by rewrite Heq.
  - intros self hs Hready. unfold BotDispatcher.bind.
    by destruct (BotDispatcher.bind_classify hs (BotDispatcher._handlers self))
      as [[[]|e] handlers'].
Qed.

End BindFacts.

(** ** Dispatching an event *)

Section DispatchFacts.

Context {World : Type} `{PyBuiltins} `{PriorityLevel}.

Implicit Types (h : IEventHandler World) (hs : list (IEventHandler World)).
Implicit Types (s : BotDispatcher.step) (steps : list BotDispatcher.step).
Implicit Types (w : World) (event : BotEvent.t).

Lemma step_ok_skipped pr b p :
  pr < p -> step_ok (BotDispatcher.mk_step pr b p BotDispatcher.Skipped p).
Proof.
  intros Hlt. unfold step_ok, step_raises_floor; simpl.
  split; [lia|]. split; [done|].
  split; [split; [intros [r Hr]; discriminate | lia]|].
  split; [intros (Hr & _); discriminate | done].
Qed.

Lemma step_ok_not_accepted pr b p (r : result bool) :
  p <= pr -> r <> Ok true ->
  step_ok (BotDispatcher.mk_step pr b p (BotDispatcher.Evoked r) p).
Proof.
  intros Hle Hr. unfold step_ok, step_raises_floor; simpl.
  split; [lia|]. split; [split; [discriminate | lia]|].
  split; [split; eauto|].
  split; [intros (Heq & _); congruence | done].
Qed.

Lemma step_ok_accepted pr b p :
  p <= pr ->
  step_ok (BotDispatcher.mk_step pr b p (BotDispatcher.Evoked (Ok true))
                                 (if b && (pr >? p) then pr else p)).
Proof.
  intros Hle. unfold step_ok, step_raises_floor; simpl.
  rewrite Z.gtb_ltb.
  split; [destruct b, (Z.ltb_spec p pr); simpl; lia|].
  split; [split; [discriminate | lia]|].
  split; [split; eauto|].
  split.
  - intros (_ & -> & Hlt). simpl.
    destruct (Z.ltb_spec p pr); [done | lia].
  - intros Hnot. destruct b; simpl; [|done].
    destruct (Z.ltb_spec p pr); [|done].
    exfalso. apply Hnot. done.
Qed.

(** The loop, from any list of handlers and any floor. *)
Lemma dispatch_loop_steps event hs :
  forall p w,
    let '(r, steps, w') := BotDispatcher.dispatch_loop event hs p w in
    steps_follow hs steps
    /\ floors_chain p steps
    /\ Forall step_ok steps.
Proof.
  induction hs as [|h hs IH]; intros p w; simpl.
  - repeat split; constructor.
  - destruct (Z.ltb_spec (priority h) p) as [Hlt|Hge].
    + specialize (IH p w).
      destruct (BotDispatcher.dispatch_loop event hs p w) as [[r steps] w'].
      destruct IH as (Hf & Hc & Hok).
      repeat split; simpl; auto.
      * by constructor.
      * constructor; [by apply step_ok_skipped | done].
    + destruct (evoke h event w) as [[[|]|e] w1].
      * set (p' := if set_block h && (priority h >? p)
                   then priority h else p).
        specialize (IH p' w1).
        destruct (BotDispatcher.dispatch_loop event hs p' w1)
          as [[r steps] w'].
        destruct IH as (Hf & Hc & Hok).
        repeat split; simpl; auto.
        -- by constructor.
        -- constructor; [by apply step_ok_accepted | done].
      * specialize (IH p w1).
        destruct (BotDispatcher.dispatch_loop event hs p w1)
          as [[r steps] w'].
        destruct IH as (Hf & Hc & Hok).
        repeat split; simpl; auto.
        -- by constructor.
        -- constructor; [by apply step_ok_not_accepted | done].
      * repeat split; simpl; auto.
        -- unfold steps_follow; simpl. rewrite take_0.
           constructor; [done | constructor].
        -- constructor; [by apply step_ok_not_accepted | constructor].
Qed.

(** An iteration whose [evoke] raised is the last one, and the loop ends
    with that exception; a loop that ends with an exception ends on such
    an iteration. *)
Lemma dispatch_loop_raise event hs :
  forall p w,
    let '(r, steps, w') := BotDispatcher.dispatch_loop event hs p w in
    (forall i s e,
        steps !! i = Some s ->
        BotDispatcher.step_action s = BotDispatcher.Evoked (Raise e) ->
        length steps = S i /\ r = Raise e)
    /\ (forall e,
           r = Raise e ->
           exists s,
             last steps = Some s
             /\ BotDispatcher.step_action s
                = BotDispatcher.Evoked (Raise e)).
Proof.
  induction hs as [|h hs IH]; intros p w; simpl.
  - split; [intros i s e Hi; by rewrite lookup_nil in Hi | discriminate].
  - assert (Hcons : forall r steps w' (s0 : BotDispatcher.step),
               (forall e, BotDispatcher.step_action s0
                          <> BotDispatcher.Evoked (Raise e)) ->
               ((forall i s e,
                    steps !! i = Some s ->
                    BotDispatcher.step_action s
                    = BotDispatcher.Evoked (Raise e) ->
                    length steps = S i /\ r = Raise e)
                /\ (forall e,
                       r = Raise e ->
                       exists s,
                         last steps = Some s
                         /\ BotDispatcher.step_action s
                            = BotDispatcher.Evoked (Raise e))) ->
               (forall i s e,
                   (s0 :: steps) !! i = Some s ->
                   BotDispatcher.step_action s
                   = BotDispatcher.Evoked (Raise e) ->
                   length (s0 :: steps) = S i /\ (r : result unit) = Raise e)
               /\ (forall e,
                      r = Raise e ->
                      exists s,
                        last (s0 :: steps) = Some s
                        /\ BotDispatcher.step_action s
                           = BotDispatcher.Evoked (Raise e))).
    { intros r steps w' s0 Hs0 [Hall Hlast]. split.
      - intros [|i] s e Hi Hact; simpl in *.
        + injection Hi as <-. by apply Hs0 in Hact.
        + destruct (Hall i s e Hi Hact) as [-> ->]. done.
      - intros e He. destruct (Hlast e He) as (s & Hs & Hact).
        exists s. split; [|done].
        destruct steps as [|s1 steps]; [discriminate|].
        by rewrite last_cons_cons. }
    destruct (Z.ltb_spec (priority h) p) as [Hlt|Hge].
    + specialize (IH p w).
      destruct (BotDispatcher.dispatch_loop event hs p w) as [[r steps] w'].
      apply (Hcons r steps w'); [done | exact IH].
    + destruct (evoke h event w) as [[[|]|e] w1].
      * set (p' := if set_block h && (priority h >? p)
                   then priority h else p).
        specialize (IH p' w1).
        destruct (BotDispatcher.dispatch_loop event hs p' w1)
          as [[r steps] w'].
        apply (Hcons r steps w'); [done | exact IH].
      * specialize (IH p w1).
        destruct (BotDispatcher.dispatch_loop event hs p w1)
          as [[r steps] w'].
        apply (Hcons r steps w'); [done | exact IH].
      * split.
        -- intros [|i] s e' Hi Hact; simpl in *.
           ++ injection Hi as <-. simpl in Hact. by injection Hact as ->.
           ++ by rewrite lookup_nil in Hi.
        -- intros e' He. injection He as <-. eexists. split; reflexivity.
Qed.

(** The recorded results are those of the calls of [evoke], each in the
    world the iterations before it left; the loop ends in the world the
    recorded iterations leave; and a loop that ends without an exception
    has given every handler its iteration. *)
Lemma dispatch_loop_world event hs :
  forall p w,
    let '(r, steps, w') := BotDispatcher.dispatch_loop event hs p w in
    evokes_recorded event hs steps w
    /\ w' = world_after event hs steps w
    /\ (r = Ok tt -> length steps = length hs).
Proof.
  induction hs as [|h hs IH]; intros p w; cbn [BotDispatcher.dispatch_loop].
  - done.
  - destruct (priority h <? p).
    + specialize (IH p w).
      destruct (BotDispatcher.dispatch_loop event hs p w) as [[r steps] w'].
      destruct IH as (Hrec & Hw & Hlen).
      cbn. split; [done|]. split; [done|]. intros Hr. by rewrite Hlen.
    + destruct (evoke h event w) as [[[|]|e] w1] eqn:Hev.
      * set (p' := if set_block h && (priority h >? p)
                   then priority h else p).
        specialize (IH p' w1).
        destruct (BotDispatcher.dispatch_loop event hs p' w1)
          as [[r steps] w'].
        destruct IH as (Hrec & Hw & Hlen).
        cbn. rewrite Hev. cbn.
        split; [done|]. split; [done|]. intros Hr. by rewrite Hlen.
      * specialize (IH p w1).
        destruct (BotDispatcher.dispatch_loop event hs p w1)
          as [[r steps] w'].
        destruct IH as (Hrec & Hw & Hlen).
        cbn. rewrite Hev. cbn.
        split; [done|]. split; [done|]. intros Hr. by rewrite Hlen.
      * cbn. rewrite Hev. cbn.
        split; [by destruct hs|]. split; [by destruct hs|]. discriminate.
Qed.

(** The iteration whose [evoke] raised: the world the loop ends in is the
    world this call left, reached from the world the iterations before
    it left. *)
Lemma dispatch_loop_raise_world event hs :
  forall p w i s e,
    let '(r, steps, w') := BotDispatcher.dispatch_loop event hs p w in
    steps !! i = Some s ->
    BotDispatcher.step_action s = BotDispatcher.Evoked (Raise e) ->
    exists h,
      hs !! i = Some h
      /\ evoke h event (world_after event hs (take i steps) w)
         = (Raise e, w').
Proof.
  induction hs as [|h hs IH]; intros p w i s e;
    cbn [BotDispatcher.dispatch_loop].
  - intros Hi. by rewrite lookup_nil in Hi.
  - destruct (priority h <? p).
    + specialize (IH p w).
      destruct (BotDispatcher.dispatch_loop event hs p w) as [[r steps] w'].
      destruct i as [|i]; cbn.
      * intros [= <-]. discriminate.
      * intros Hi Hact. by apply (IH i s e).
    + destruct (evoke h event w) as [[[|]|e0] w1] eqn:Hev.
      * set (p' := if set_block h && (priority h >? p)
                   then priority h else p).
        specialize (IH p' w1).
        destruct (BotDispatcher.dispatch_loop event hs p' w1)
          as [[r steps] w'].
        destruct i as [|i]; cbn.
        -- intros [= <-]. discriminate.
        -- intros Hi Hact. rewrite Hev. by apply (IH i s e).
      * specialize (IH p w1).
        destruct (BotDispatcher.dispatch_loop event hs p w1)
          as [[r steps] w'].
        destruct i as [|i]; cbn.
        -- intros [= <-]. discriminate.
        -- intros Hi Hact. rewrite Hev. by apply (IH i s e).
      * destruct i as [|i]; cbn.
        -- intros [= <-] [= <-]. by exists h.
        -- done.
Qed.

(** Every handler has its iteration, unless an [evoke] raised. *)
Lemma dispatch_loop_complete event hs p w :
  steps_complete hs (BotDispatcher.dispatch_loop event hs p w).1.2.
Proof.
  pose proof (dispatch_loop_world event hs p w) as Hworld.
  pose proof (dispatch_loop_raise event hs p w) as Hraise.
  destruct (BotDispatcher.dispatch_loop event hs p w) as [[[[]|e] steps] w'].
  - left. by apply Hworld.
  - right. destruct Hraise as [_ Hlast].
    destruct (Hlast e eq_refl) as (s & Hs & Hact). by exists s, e.
Qed.

End DispatchFacts.

Section DispatchClaims.

Context {World : Type} `{PyBuiltins} `{PriorityLevel}.

Implicit Types (hs : list (IEventHandler World)).
Implicit Types (self : BotDispatcher.t World) (w : World).
Implicit Types (event : BotEvent.t).

(** C1. In one call of [dispatch] on a ready dispatcher, the iterations
    go through the handlers of the event's type in the order of the list,
    and every handler has its iteration unless an [evoke] raised before;
    the floor of the first iteration is the minimum priority and each
    iteration starts with the floor the previous one ended with; within an
    iteration the floor does not go down, the handler is skipped exactly
    when its priority is below the floor, and is evoked exactly when its
    priority is at least the floor (so also when the two are equal); and
    the floor becomes the handler's priority exactly when [evoke] returned
    true, the handler is blocking and its priority is above the floor.
    An iteration that evokes records the result of the call of [evoke] on
    its handler, and the world [dispatch] leaves is the one these calls
    leave, one after the other: a skipped handler is not evoked, and
    nothing else is. *)
Theorem dispatch_floor_invariant self event w hs :
  BotDispatcher._ready_signal self = true ->
  BotDispatcher._handlers self !! BotEvent.type event = Some hs ->
  let r := BotDispatcher.dispatch self event w in
  let steps := BotDispatcher.res_steps r in
  steps_follow hs steps
  /\ floors_chain MIN_value steps
  /\ Forall step_ok steps
  /\ steps_complete hs steps
  /\ evokes_recorded event hs steps w
  /\ BotDispatcher.res_world r = world_after event hs steps w.
Proof.
  intros Hready Hhs. unfold BotDispatcher.dispatch.
  rewrite Hready; simpl.
  unfold BotDispatcher.dispatch_try. rewrite Hhs.
  pose proof (dispatch_loop_steps event hs MIN_value w) as Hloop.
  pose proof (dispatch_loop_world event hs MIN_value w) as Hworld.
  pose proof (dispatch_loop_complete event hs MIN_value w) as Hall.
  destruct (BotDispatcher.dispatch_loop event hs MIN_value w)
    as [[[[]|e] steps] w']; simpl in *.
  - destruct Hloop as (? & ? & ?), Hworld as (? & ? & _). done.
  - destruct Hloop as (? & ? & ?), Hworld as (? & ? & _).
    by destruct (isinstance_Exception e).
Qed.

(** C2, as amended. When [evoke] of a handler raises during the loop of a
    ready dispatcher, that iteration is the last one, and the world
    [dispatch] leaves is the world this call of [evoke] left: no later
    handler is visited or evoked. If the exception is an instance of
    [Exception], [dispatch]
    returns normally, the logger has received three more records (the
    class and text of the exception, the raw payload of the event, the
    stack trace) and nothing else of the dispatcher has changed. If it is
    not, the exception leaves [dispatch] and nothing is logged. *)
Theorem dispatch_exception_boundary self event w hs i s e :
  BotDispatcher._ready_signal self = true ->
  BotDispatcher._handlers self !! BotEvent.type event = Some hs ->
  BotDispatcher.res_steps (BotDispatcher.dispatch self event w) !! i
  = Some s ->
  BotDispatcher.step_action s = BotDispatcher.Evoked (Raise e) ->
  let r := BotDispatcher.dispatch self event w in
  length (BotDispatcher.res_steps r) = S i
  /\ (exists h,
        hs !! i = Some h
        /\ evoke h event
                 (world_after event hs (take i (BotDispatcher.res_steps r)) w)
           = (Raise e, BotDispatcher.res_world r))
  /\ (isinstance_Exception e = true ->
      BotDispatcher.res_outcome r = BotDispatcher.Returned
      /\ BotDispatcher.res_self r
         = BotDispatcher.mk
             (BotDispatcher._handlers self)
             (BotDispatcher.logger self
              ++ [(Logger.ERROR,
                   "bot dispatcher 抛出异常：[" +:+ class_name e +:+ "] "
                   +:+ exc_str e);
                  (Logger.DEBUG,
                   "异常点的事件记录为："
                   +:+ py_str (ObjVal (BotEvent.raw event)));
                  (Logger.DEBUG,
                   "异常回溯栈：" +:+ String newline EmptyString
                   +:+ strip_newlines (format_exc e))])
             (BotDispatcher._ready_signal self))
  /\ (isinstance_Exception e = false ->
      BotDispatcher.res_outcome r = BotDispatcher.Propagated e
      /\ BotDispatcher.res_self r = self).
Proof.
  intros Hready Hhs. unfold BotDispatcher.dispatch.
  rewrite Hready; simpl.
  unfold BotDispatcher.dispatch_try. rewrite Hhs.
  pose proof (dispatch_loop_raise event hs MIN_value w) as Hloop.
  pose proof (dispatch_loop_raise_world event hs MIN_value w i s e) as Hworld.
  destruct (BotDispatcher.dispatch_loop event hs MIN_value w)
    as [[r steps] w'].
  destruct Hloop as [Hall _].
  destruct r as [[]|e0]; [|destruct (isinstance_Exception e0) eqn:Hcls];
    cbn [BotDispatcher.res_steps BotDispatcher.res_outcome
         BotDispatcher.res_self BotDispatcher.res_world];
    intros Hi Hact; destruct (Hall i s e Hi Hact) as [Hlen Hr];
    [discriminate | injection Hr as -> ..].
  - split; [done|]. split; [by apply Hworld|].
    split; intros Hcls'; [|congruence].
    split; [done|].
    unfold BotDispatcher.log_exception, Logger.debug, Logger.error.
    by rewrite <- !app_assoc.
  - split; [done|]. split; [by apply Hworld|].
    split; intros Hcls'; [congruence | done].
Qed.

(** C10. On a dispatcher made ready by any sequence of calls of [bind], an
    event whose type is none of "message", "request" and "notice" is
    dispatched without a single iteration: the lookup of its type raises
    [KeyError], which the error boundary logs, and [dispatch] returns
    normally, the world and the handlers unchanged. *)
Theorem dispatch_unknown_type_dropped
  (logger : Logger.t) (calls : list (list (IEventHandler World)))
  self event w :
  BotDispatcher.bind_all (BotDispatcher.__init__ logger) calls
  = (Ok tt, self) ->
  BotDispatcher._ready_signal self = true ->
  BotEvent.type event <> "message" ->
  BotEvent.type event <> "request" ->
  BotEvent.type event <> "notice" ->
  BotDispatcher.dispatch self event w
  = BotDispatcher.mk_result
      BotDispatcher.Returned [] w
      (BotDispatcher.mk
         (BotDispatcher._handlers self)
         (BotDispatcher.log_exception
            (BotDispatcher.logger self) event
            (KeyError (BotEvent.type event)))
         true).
Proof.
  intros Hbind Hready Hm Hr Hn.
  rewrite init_handlers3 in Hbind.
  destruct (bind_all_handlers3 calls [] [] [] logger false)
    as (lm & lr & ln & Heq & _); try (by constructor).
  rewrite Heq in Hbind. injection Hbind as <-.
  unfold BotDispatcher.dispatch, BotDispatcher.dispatch_try.
  simpl in *. rewrite Hready. simpl.
  by rewrite handlers3_other.
Qed.

End DispatchClaims.

(** ** The claims on sample data *)

(** The scenario of three handlers for "message" events: A (priority 10,
    blocking), B (priority 5) and C (priority 10, not blocking), bound in
    that order. A is evoked and raises the floor to 10, C is evoked at the
    floor, B is skipped. *)
Example dispatch_scenario_steps :
  BotDispatcher.res_steps
    (sample_dispatch (sample_dispatcher [handler_A; handler_B; handler_C])
                     sample_message)
  = [BotDispatcher.mk_step 10 true 0 (BotDispatcher.Evoked (Ok true)) 10;
     BotDispatcher.mk_step 10 false 10 (BotDispatcher.Evoked (Ok true)) 10;
     BotDispatcher.mk_step 5 false 10 BotDispatcher.Skipped 10]
  /\ BotDispatcher.res_world
       (sample_dispatch (sample_dispatcher [handler_A; handler_B; handler_C])
                        sample_message)
     = 2%nat.
Proof. split; reflexivity. Qed.

Lemma dispatch_floor_invariant_scenario :
  let r :=
    sample_dispatch (sample_dispatcher [handler_A; handler_B; handler_C])
                    sample_message in
  let steps := BotDispatcher.res_steps r in
  steps_follow [handler_A; handler_C; handler_B] steps
  /\ floors_chain 0 steps
  /\ Forall step_ok steps
  /\ steps_complete [handler_A; handler_C; handler_B] steps
  /\ evokes_recorded sample_message [handler_A; handler_C; handler_B] steps
                     0%nat
  /\ BotDispatcher.res_world r
     = world_after sample_message [handler_A; handler_C; handler_B] steps
                   0%nat.
Proof.
  apply (@dispatch_floor_invariant nat sample_builtins sample_priority
           (sample_dispatcher [handler_A; handler_B; handler_C])
           sample_message 0%nat [handler_A; handler_C; handler_B]);
    reflexivity.
Defined.

Lemma dispatch_exception_boundary_sample :
  let e := OtherException "ValueError" "bad value" in
  let self := sample_dispatcher [handler_C; handler_failing; handler_B] in
  let r := sample_dispatch self sample_message in
  length (BotDispatcher.res_steps r) = 2%nat
  /\ (exists h,
        [handler_C; handler_failing; handler_B] !! 1%nat = Some h
        /\ evoke h sample_message
                 (world_after sample_message
                              [handler_C; handler_failing; handler_B]
                              (take 1 (BotDispatcher.res_steps r)) 0%nat)
           = (Raise e, BotDispatcher.res_world r))
  /\ BotDispatcher.res_world r = 2%nat
  /\ BotDispatcher.res_outcome r = BotDispatcher.Returned
  /\ BotDispatcher.logger (BotDispatcher.res_self r)
     = [(Logger.ERROR, "bot dispatcher 抛出异常：[ValueError] bad value");
        (Logger.DEBUG,
         "异常点的事件记录为：" +:+ "<value>");
        (Logger.DEBUG,
         "异常回溯栈：" +:+ String newline EmptyString
         +:+ "Traceback (most recent call last): ValueError")].
Proof.
  destruct (@dispatch_exception_boundary nat sample_builtins sample_priority
              (sample_dispatcher [handler_C; handler_failing; handler_B])
              sample_message 0%nat [handler_C; handler_failing; handler_B]
              1%nat
              (BotDispatcher.mk_step
                 7 false 0
                 (BotDispatcher.Evoked
                    (Raise (OtherException "ValueError" "bad value"))) 0)
              (OtherException "ValueError" "bad value")
              eq_refl eq_refl eq_refl eq_refl)
    as (Hlen & Hworld & Hexc & _).
  destruct (Hexc eq_refl) as [Hout Hself].
  split; [exact Hlen|]. split; [exact Hworld|].
  split; [reflexivity|]. split; [exact Hout|].
  reflexivity.
Defined.

(** C2, the claim as written fails: an exception that is not an instance
    of [Exception], raised by [evoke], leaves [dispatch], and nothing is
    logged. *)
Lemma dispatch_lets_system_exit_through :
  let self := sample_dispatcher [handler_C; handler_exiting; handler_B] in
  let r := sample_dispatch self sample_message in
  BotDispatcher.res_outcome r
  = BotDispatcher.Propagated (SystemExiting "SystemExit" "0")
  /\ BotDispatcher.logger (BotDispatcher.res_self r) = []
  /\ length (BotDispatcher.res_steps r) = 2%nat.
Proof. repeat split. Qed.

Lemma dispatch_unknown_type_dropped_sample :
  sample_dispatch (sample_dispatcher [handler_A; handler_B; handler_C])
                  sample_meta
  = BotDispatcher.mk_result
      BotDispatcher.Returned [] 0%nat
      (BotDispatcher.mk
         (BotDispatcher._handlers
            (sample_dispatcher [handler_A; handler_B; handler_C]))
         [(Logger.ERROR, "bot dispatcher 抛出异常：[KeyError] 'meta'");
          (Logger.DEBUG, "异常点的事件记录为：" +:+ "<value>");
          (Logger.DEBUG,
           "异常回溯栈：" +:+ String newline EmptyString
           +:+ "Traceback (most recent call last): KeyError")]
         true).
Proof.
  apply (@dispatch_unknown_type_dropped nat sample_builtins sample_priority
           [] [[handler_A; handler_B; handler_C]]
           (sample_dispatcher [handler_A; handler_B; handler_C])
           sample_meta 0%nat);
    [reflexivity | reflexivity | discriminate | discriminate | discriminate].
Defined.

(** A checker combined with a string, and with a matcher; a matcher
    combined with a checker. *)
Example combine_with_string :
  @BotCheckerOps.__and__ sample_builtins 9 (CLeaf 0) (ObjVal (PyStr "abc")) ∅
  = (Raise (BotCheckerError
              "联合检查器定义时出现了非检查器对象，其值为：abc"), ∅)
  /\ @BotCheckerOps.__xor__ sample_builtins 9 (CLeaf 0)
                            (ObjMatcher (MLeaf 1)) ∅
     = (Raise (BotCheckerError
                 "联合检查器定义时出现了非检查器对象，其值为：<matcher>"), ∅)
  /\ @BotMatcher.__or__ sample_builtins (MLeaf 1) (ObjChecker (CLeaf 0))
     = Raise (BotMatcherError
                "联合匹配器定义时出现了非匹配器对象，其值为：<checker>")
  /\ (@BotCheckerOps.__and__ sample_builtins 9 (CLeaf 0)
                             (ObjChecker (CLeaf 1)) ∅).1
     = Ok (CWrapped 9 AND (CLeaf 0) (Some (CLeaf 1))).
Proof. repeat split. Qed.

(** * Further properties *)

(** ** Tags, triggers and parsed arguments *)

Section MoreFlagableFacts.

Implicit Types (self : Flagable.t) (namespace flag_name : string).
Implicit Types (val : pyval).

Lemma mark_keeps_tag self namespace flag_name val ns fn v :
  tag_of self ns fn = Some v ->
  tag_of (Flagable.mark self namespace flag_name val).2 ns fn = Some v.
Proof.
  intros Htag.
  destruct (tag_of self namespace flag_name) as [old|] eqn:Hcur.
  - by rewrite (mark_present self namespace flag_name val old Hcur).
  - destruct (mark_absent self namespace flag_name val Hcur)
      as (self' & -> & _ & Hother).
    simpl. rewrite Hother; [done|].
    intros [= -> ->]. congruence.
Qed.

Lemma flag_check_keeps_object self namespace flag_name val :
  (Flagable.flag_check self namespace flag_name val).2 = self.
Proof.
  destruct self as [[store|]]; unfold Flagable.flag_check;
    cbn [Flagable._flags_store]; [|done].
  destruct (store !! namespace) as [flags|]; [|done].
  by destruct (flags !! flag_name).
Qed.

(** X1. A tag, once set, is permanent: after any sequence of calls of
    [mark] and [flag_check], with any arguments, raising or not, the pair
    still holds the value it was given. *)
Theorem tag_is_permanent self (calls : list tag_call) ns fn v :
  tag_of self ns fn = Some v ->
  tag_of (after_tag_calls self calls) ns fn = Some v.
Proof.
  unfold after_tag_calls. revert self.
  induction calls as [|c calls IH]; intros self Htag; simpl; [done|].
  apply IH. destruct c as [namespace flag_name val | namespace flag_name val];
    simpl.
  - by apply mark_keeps_tag.
  - by rewrite flag_check_keeps_object.
Qed.

Lemma tag_is_permanent_sample :
  tag_of (after_tag_calls
            (Flagable.mark Flagable.__init__ "plugin" "seen" (PyInt 3)).2
            [CallMark "plugin" "seen" (PyInt 4);
             CallCheck "plugin" "seen" PyNone;
             CallMark "plugin" "other" PyNone;
             CallMark "core" "seen" (PyStr "x")])
         "plugin" "seen"
  = Some (PyInt 3).
Proof.
  apply (tag_is_permanent
           (Flagable.mark Flagable.__init__ "plugin" "seen" (PyInt 3)).2).
  reflexivity.
Defined.

(** X2. On an object that does not carry the pair, [mark] followed by
    [flag_check] with the same value answers [True]; and when the value
    is not [None], a [flag_check] for the same pair without a value
    answers [False]: a tag that has a value is not found by a query for
    bare presence. *)
Theorem mark_then_flag_check self namespace flag_name val :
  tag_of self namespace flag_name = None ->
  wf_val val ->
  let self' := (Flagable.mark self namespace flag_name val).2 in
  (Flagable.mark self namespace flag_name val).1 = Ok tt
  /\ (Flagable.flag_check self' namespace flag_name val).1 = Ok true
  /\ (val <> PyNone ->
      (Flagable.flag_check self' namespace flag_name PyNone).1 = Ok false).
Proof.
  intros Habs Hwf.
  destruct (mark_absent self namespace flag_name val Habs)
    as (self' & -> & Htag & _).
  simpl. split; [done|].
  destruct self' as [[store|]]; unfold tag_of, Flagable.flag_check in *;
    cbn [Flagable._flags_store] in *; [|discriminate].
  destruct (store !! namespace) as [flags|]; [|discriminate].
  rewrite Htag. simpl. split.
  - pose proof (py_eq_refl val Hwf) as Hrefl.
    destruct val; try done; cbn [is_None]; by rewrite Hrefl.
  - intros Hval. by destruct val.
Qed.

Lemma mark_then_flag_check_sample :
  let self' := (Flagable.mark Flagable.__init__ "plugin" "seen"
                              (PyDict [("n", PyInt 1)])).2 in
  (Flagable.mark Flagable.__init__ "plugin" "seen"
                 (PyDict [("n", PyInt 1)])).1 = Ok tt
  /\ (Flagable.flag_check self' "plugin" "seen"
                          (PyDict [("n", PyInt 1)])).1 = Ok true
  /\ (PyDict [("n", PyInt 1)] <> PyNone ->
      (Flagable.flag_check self' "plugin" "seen" PyNone).1 = Ok false).
Proof.
  apply (mark_then_flag_check Flagable.__init__ "plugin" "seen"
                              (PyDict [("n", PyInt 1)])).
  - reflexivity.
  - simpl. repeat split; try constructor.
    + intros Hin. by apply elem_of_nil in Hin.
    + constructor.
Defined.

End MoreFlagableFacts.

(** X3. The trigger of an action is recorded once: on an action without
    a trigger [_fill_trigger] returns and records the event; every later
    call raises [BotActionError] and leaves the action, and so the
    recorded event, as it is. Recording the trigger does not change what
    [extract] yields. *)
Theorem fill_trigger_once (self : BotAction.t) (event : BotEvent.t) :
  BotAction.trigger self = None ->
  let self' := (BotAction._fill_trigger self event).2 in
  (BotAction._fill_trigger self event).1 = Ok tt
  /\ BotAction.trigger self' = Some event
  /\ BotAction.extract self' = BotAction.extract self
  /\ BotAction.flags self' = BotAction.flags self
  /\ forall event',
       BotAction._fill_trigger self' event'
       = (Raise (BotActionError "action 已记录触发 event，拒绝再次记录"), self').
Proof.
  intros Hnone. unfold BotAction._fill_trigger. rewrite Hnone. simpl.
  repeat split.
Qed.

Lemma fill_trigger_once_sample :
  let self' := (BotAction._fill_trigger sample_action sample_message).2 in
  (BotAction._fill_trigger sample_action sample_message).1 = Ok tt
  /\ BotAction.trigger self' = Some sample_message
  /\ BotAction.extract self' = BotAction.extract sample_action
  /\ BotAction.flags self' = BotAction.flags sample_action
  /\ forall event',
       BotAction._fill_trigger self' event'
       = (Raise (BotActionError "action 已记录触发 event，拒绝再次记录"), self').
Proof. apply (fill_trigger_once sample_action sample_message). reflexivity. Defined.

Section EventFacts.

Context {World : Type}.

(** X4. At most one of the five type tests of an event holds, and a
    dispatcher made by [__init__] and any calls of [bind] has a list of
    handlers for the type of an event exactly when the event passes
    [is_msg_event], [is_req_event] or [is_notice_event]. *)
Theorem dispatcher_serves_three_types
  (logger : Logger.t) (calls : list (list (IEventHandler World)))
  (event : BotEvent.t) :
  (length (filter (λ b, b = true)
                  [BotEventMethods.is_msg_event event;
                   BotEventMethods.is_req_event event;
                   BotEventMethods.is_notice_event event;
                   BotEventMethods.is_meta_event event;
                   BotEventMethods.is_resp_event event]) <= 1)%nat
  /\ (is_Some (BotDispatcher._handlers
                 (BotDispatcher.bind_all (BotDispatcher.__init__ logger) calls).2
               !! BotEvent.type event)
      <-> BotEventMethods.is_msg_event event
          || BotEventMethods.is_req_event event
          || BotEventMethods.is_notice_event event = true).
Proof.
  unfold BotEventMethods.is_msg_event, BotEventMethods.is_req_event,
    BotEventMethods.is_notice_event, BotEventMethods.is_meta_event,
    BotEventMethods.is_resp_event.
  split.
  - destruct (String.eqb_spec (BotEvent.type event) "message") as [Heq|_];
      [rewrite ?Heq; simpl; lia|].
    destruct (String.eqb_spec (BotEvent.type event) "request") as [Heq|_];
      [rewrite ?Heq; simpl; lia|].
    destruct (String.eqb_spec (BotEvent.type event) "notice") as [Heq|_];
      [rewrite ?Heq; simpl; lia|].
    destruct (String.eqb_spec (BotEvent.type event) "meta") as [Heq|_];
      [rewrite ?Heq; simpl; lia|].
    destruct (String.eqb_spec (BotEvent.type event) "response") as [Heq|_];
      simpl; lia.
  - rewrite init_handlers3.
    destruct (bind_all_handlers3 calls [] [] [] logger false)
      as (lm & lr & ln & -> & _); try (by constructor).
    cbn [snd BotDispatcher._handlers].
    destruct (String.eqb_spec (BotEvent.type event) "message") as [->|Hm].
    { rewrite handlers3_message. split; eauto. }
    destruct (String.eqb_spec (BotEvent.type event) "request") as [->|Hr].
    { rewrite handlers3_request. split; eauto. }
    destruct (String.eqb_spec (BotEvent.type event) "notice") as [->|Hn].
    { rewrite handlers3_notice. split; eauto. }
    rewrite handlers3_other by done. simpl.
    split; [intros [x Hx]; discriminate | discriminate].
Qed.

End EventFacts.

Section ArgsFacts.

Context {K : Type} `{Countable K} {G : Type}.

Implicit Types (m : option (gmap K (option G))) (parser_id : K).
Implicit Types (args_group : option G).

(** X5. The parsed arguments of an event are kept per parser: nothing
    stored reads as [Void]; what was stored for a parser is read back for
    that parser, also when it is [None], which stays distinct from
    [Void]; storing for one parser leaves every other parser's entry as
    it was; and a second store for the same parser replaces the first. *)
Theorem args_store_then_get m parser_id args_group :
  BotEventMethods._get_args (G := G) None parser_id = BotEventMethods.Void
  /\ BotEventMethods._get_args
       (BotEventMethods._store_args m parser_id args_group) parser_id
     = BotEventMethods.Got args_group
  /\ (forall other,
         other <> parser_id ->
         BotEventMethods._get_args
           (BotEventMethods._store_args m parser_id args_group) other
         = BotEventMethods._get_args m other)
  /\ (forall args_group',
         BotEventMethods._store_args
           (BotEventMethods._store_args m parser_id args_group)
           parser_id args_group'
         = BotEventMethods._store_args m parser_id args_group').
Proof.
  unfold BotEventMethods._get_args, BotEventMethods._store_args.
  split; [done|]. split; [by rewrite lookup_insert_eq|]. split.
  - intros other Hne. rewrite lookup_insert_ne by done.
    destruct m as [m|]; [done|]. by rewrite lookup_empty.
  - intros args_group'. by rewrite insert_insert_eq.
Qed.

End ArgsFacts.

(** ** Blocking, order and completion of a dispatch *)

Section MoreDispatchFacts.

Context {World : Type} `{PyBuiltins} `{PriorityLevel}.

Implicit Types (h : IEventHandler World) (hs : list (IEventHandler World)).
Implicit Types (s : BotDispatcher.step) (steps : list BotDispatcher.step).
Implicit Types (self : BotDispatcher.t World) (w : World).
Implicit Types (event : BotEvent.t).

(** One more iteration in front of a loop that satisfies the
    characterisation of skipping. *)
Lemma skip_iff_cons s0 steps p p' :
  (BotDispatcher.step_action s0 = BotDispatcher.Skipped
   <-> BotDispatcher.step_priority s0 < p) ->
  (forall x,
      x < p'
      <-> x < p
          \/ (BotDispatcher.step_action s0 = BotDispatcher.Evoked (Ok true)
              /\ BotDispatcher.step_block s0 = true
              /\ x < BotDispatcher.step_priority s0)) ->
  (forall j s,
      steps !! j = Some s ->
      BotDispatcher.step_action s = BotDispatcher.Skipped
      <-> BotDispatcher.step_priority s < p'
          \/ blocked_by steps j (BotDispatcher.step_priority s)) ->
  forall j s,
    (s0 :: steps) !! j = Some s ->
    BotDispatcher.step_action s = BotDispatcher.Skipped
    <-> BotDispatcher.step_priority s < p
        \/ blocked_by (s0 :: steps) j (BotDispatcher.step_priority s).
Proof.
  intros Hs0 Hfloor IH [|j] s Hj; simpl in Hj.
  - injection Hj as <-. rewrite Hs0. split; [by left|].
    intros [Hlt|(i & s & Hi & _)]; [done | lia].
  - rewrite (IH j s Hj), Hfloor. split.
    + intros [[Hlt|(Ha & Hb & Hlt)]|(i & si & Hi & Hsi & Hrest)].
      * by left.
      * right. exists 0%nat, s0. repeat split; auto. lia.
      * right. exists (S i), si. split; [lia|]. by split.
    + intros [Hlt|(i & si & Hi & Hsi & Ha & Hb & Hlt)]; [by left; left|].
      destruct i as [|i]; simpl in Hsi.
      * injection Hsi as <-. left. right. done.
      * right. exists i, si. split; [lia|]. by repeat split.
Qed.

(** In a loop started at the floor [p], a handler is skipped exactly when
    its priority is below [p] or an earlier iteration blocks it. *)
Lemma dispatch_loop_skip_iff event hs :
  forall p w j s,
    (BotDispatcher.dispatch_loop event hs p w).1.2 !! j = Some s ->
    BotDispatcher.step_action s = BotDispatcher.Skipped
    <-> BotDispatcher.step_priority s < p
        \/ blocked_by (BotDispatcher.dispatch_loop event hs p w).1.2 j
                      (BotDispatcher.step_priority s).
Proof.
  induction hs as [|h hs IH]; intros p w; simpl.
  - intros j s Hj. by rewrite lookup_nil in Hj.
  - destruct (Z.ltb_spec (priority h) p) as [Hlt|Hge].
    + specialize (IH p w).
      destruct (BotDispatcher.dispatch_loop event hs p w) as [[r steps] w'].
      simpl in *. apply (skip_iff_cons _ steps p p); simpl; [done| |done].
      intros x. split; [by left|]. intros [?|(Ha & _)]; [done | discriminate].
    + destruct (evoke h event w) as [[[|]|e] w1].
      * set (p' := if set_block h && (priority h >? p)
                   then priority h else p).
        specialize (IH p' w1).
        destruct (BotDispatcher.dispatch_loop event hs p' w1)
          as [[r steps] w'].
        simpl in *. apply (skip_iff_cons _ steps p p'); simpl;
          [split; [discriminate | lia] | | done].
        intros x. unfold p'. rewrite Z.gtb_ltb.
        destruct (set_block h); simpl;
          [destruct (Z.ltb_spec p (priority h))|];
          split; try (intros [?|(_ & ? & ?)]); try lia; try done;
          try (intros ?; by left).
        intros Hx. destruct (decide (x < p)); [by left|]. right. done.
      * specialize (IH p w1).
        destruct (BotDispatcher.dispatch_loop event hs p w1)
          as [[r steps] w'].
        simpl in *. apply (skip_iff_cons _ steps p p); simpl;
          [split; [discriminate | lia] | | done].
        intros x. split; [by left|].
        intros [?|(Ha & _)]; [done | discriminate].
      * simpl. intros [|j] s Hj; simpl in Hj; [|by rewrite lookup_nil in Hj].
        injection Hj as <-. simpl. split; [discriminate|].
        intros [Hlt|(i & s & Hi & _)]; lia.
Qed.

(** Every iteration is for a handler of the list. *)
Lemma steps_follow_priority hs steps j s :
  steps_follow hs steps ->
  steps !! j = Some s ->
  exists h, h ∈ hs /\ BotDispatcher.step_priority s = priority h.
Proof.
  unfold steps_follow. intros Hf Hj.
  destruct (Forall2_lookup_r _ _ _ _ _ Hf Hj) as (h & Hh & Hp & _).
  exists h. split; [|done].
  apply lookup_take_Some in Hh as [Hh _].
  by eapply list_elem_of_lookup_2.
Qed.

(** X6. In a dispatch on a ready dispatcher whose handlers for the type
    of the event all have at least the minimum priority, a handler is
    skipped exactly when an earlier handler of the same dispatch had a
    priority above its own, was blocking, and was evoked with the result
    true. So handlers of equal priority never block one another, and
    without a blocking handler nobody is skipped. *)
Theorem skipped_iff_blocked self event w hs j s :
  BotDispatcher._ready_signal self = true ->
  BotDispatcher._handlers self !! BotEvent.type event = Some hs ->
  Forall (λ h, MIN_value <= priority h) hs ->
  BotDispatcher.res_steps (BotDispatcher.dispatch self event w) !! j
  = Some s ->
  BotDispatcher.step_action s = BotDispatcher.Skipped
  <-> blocked_by (BotDispatcher.res_steps
                    (BotDispatcher.dispatch self event w))
                 j (BotDispatcher.step_priority s).
Proof.
  intros Hready Hhs Hmin.
  assert (Hsteps : BotDispatcher.res_steps (BotDispatcher.dispatch self event w)
                   = (BotDispatcher.dispatch_loop event hs MIN_value w).1.2).
  { unfold BotDispatcher.dispatch, BotDispatcher.dispatch_try.
    rewrite Hready, Hhs. simpl.
    destruct (BotDispatcher.dispatch_loop event hs MIN_value w)
      as [[[[]|e] steps] w']; simpl; [done|].
    by destruct (isinstance_Exception e). }
  rewrite Hsteps. intros Hj.
  rewrite (dispatch_loop_skip_iff event hs MIN_value w j s Hj).
  pose proof (dispatch_loop_steps event hs MIN_value w) as Hloop.
  destruct (BotDispatcher.dispatch_loop event hs MIN_value w)
    as [[r steps] w']; simpl in *.
  destruct Hloop as (Hf & _).
  destruct (steps_follow_priority hs steps j s Hf Hj) as (h & Hin & Hp).
  rewrite Forall_forall in Hmin. specialize (Hmin h Hin).
  split; [intros [Hlt|Hb]; [lia | done] | by right].
Qed.

End MoreDispatchFacts.

Lemma skipped_iff_blocked_scenario :
  blocked_by
    (BotDispatcher.res_steps
       (sample_dispatch (sample_dispatcher [handler_A; handler_B; handler_C])
                        sample_message))
    2 5.
Proof.
  apply (@skipped_iff_blocked nat sample_builtins sample_priority
           (sample_dispatcher [handler_A; handler_B; handler_C])
           sample_message 0%nat [handler_A; handler_C; handler_B] 2%nat
           (BotDispatcher.mk_step 5 false 10 BotDispatcher.Skipped 10)).
  - reflexivity.
  - reflexivity.
  - repeat constructor; simpl; lia.
  - reflexivity.
  - reflexivity.
Defined.

(** ** Stable sorting, once more *)

Section StableSortFacts.

Context {A : Type} (key : A -> Z).

#[local] Abbreviation desc := (StronglySorted (λ a b : A, key b <= key a)).

Lemma filter_key_nil (l : list A) :
  (forall k, filter (λ a, key a = k) l = []) -> l = [].
Proof.
  destruct l as [|y l]; [done|].
  intros Hall. specialize (Hall (key y)).
  rewrite filter_cons in Hall. by destruct (decide (key y = key y)).
Qed.

Lemma desc_head_max x (l : list A) z :
  desc (x :: l) -> z ∈ x :: l -> key z <= key x.
Proof.
  intros Hs Hin. apply StronglySorted_inv in Hs as [_ Hall].
  apply elem_of_cons in Hin as [->|Hin]; [lia|].
  rewrite Forall_forall in Hall. by apply Hall.
Qed.

(** Two descending lists with the same elements of every key, in the
    same order, are the same list. *)
Lemma desc_stable_unique (l1 l2 : list A) :
  desc l1 -> desc l2 ->
  (forall k, filter (λ a, key a = k) l1 = filter (λ a, key a = k) l2) ->
  l1 = l2.
Proof.
  revert l2. induction l1 as [|x l1 IH]; intros l2 Hs1 Hs2 Hall.
  - symmetry. apply filter_key_nil. intros k. by rewrite <- Hall.
  - destruct l2 as [|y l2].
    { apply filter_key_nil. intros k. by rewrite Hall. }
    assert (Hxy : key x = key y).
    { pose proof (Hall (key x)) as Hx. pose proof (Hall (key y)) as Hy.
      assert (Hxin : x ∈ y :: l2).
      { apply (proj1 (list_elem_of_filter (λ a, key a = key x) _ x)).
        rewrite <- Hx, filter_cons.
        destruct (decide (key x = key x)); [apply list_elem_of_here | done]. }
      assert (Hyin : y ∈ x :: l1).
      { apply (proj1 (list_elem_of_filter (λ a, key a = key y) _ y)).
        rewrite Hy, filter_cons.
        destruct (decide (key y = key y)); [apply list_elem_of_here | done]. }
      pose proof (desc_head_max _ _ _ Hs2 Hxin).
      pose proof (desc_head_max _ _ _ Hs1 Hyin). lia. }
    pose proof (Hall (key x)) as Hx. rewrite !filter_cons in Hx.
    destruct (decide (key x = key x)); [|done].
    destruct (decide (key y = key x)); [|congruence].
    injection Hx as -> Htl. f_equal.
    apply StronglySorted_inv in Hs1 as [Hs1 _].
    apply StronglySorted_inv in Hs2 as [Hs2 _].
    apply IH; [done | done |].
    intros k. destruct (decide (key y = k)) as [<-|Hne]; [done|].
    specialize (Hall k). rewrite !filter_cons in Hall.
    by destruct (decide (key y = k)).
Qed.

(** Sorting the outcome of a sort followed by more elements is sorting
    everything at once. *)
Lemma sorted_reverse_sorted_app (l a : list A) :
  sorted_reverse key (sorted_reverse key l ++ a)
  = sorted_reverse key (l ++ a).
Proof.
  apply desc_stable_unique; try apply sorted_reverse_sorted.
  intros k. rewrite !sorted_reverse_stable, !filter_app.
  by rewrite sorted_reverse_stable.
Qed.

End StableSortFacts.

(** ** Calls of [bind] compose *)

Section MoreBindFacts.

Context {World : Type}.

Implicit Types (lm lr ln : list (IEventHandler World)).
Implicit Types (h : IEventHandler World) (hs : list (IEventHandler World)).

Lemma bind_bind_handlers3 hs hs' lm lr ln logger ready :
  BotDispatcher.bind
    (BotDispatcher.bind
       (BotDispatcher.mk (handlers3 lm lr ln) logger ready) hs).2 hs'
  = BotDispatcher.bind
      (BotDispatcher.mk (handlers3 lm lr ln) logger ready) (hs ++ hs').
Proof.
  rewrite !bind_handlers3. simpl. rewrite bind_handlers3.
  rewrite !sorted_reverse_sorted_app, !of_family_app.
  by rewrite <- !app_assoc.
Qed.

Lemma bind_all_cons (self : BotDispatcher.t World) hs calls :
  BotDispatcher.bind_all self (hs :: calls)
  = match BotDispatcher.bind self hs with
    | (Ok _, self') => BotDispatcher.bind_all self' calls
    | (Raise e, self') => (Raise e, self')
    end.
Proof. reflexivity. Qed.

Lemma bind_all_as_one_bind calls :
  forall hs lm lr ln logger ready,
    BotDispatcher.bind_all
      (BotDispatcher.mk (handlers3 lm lr ln) logger ready) (hs :: calls)
    = BotDispatcher.bind
        (BotDispatcher.mk (handlers3 lm lr ln) logger ready)
        (concat (hs :: calls)).
Proof.
  induction calls as [|hs' calls IH]; intros hs lm lr ln logger ready.
  - simpl. rewrite app_nil_r. by rewrite bind_handlers3.
  - rewrite bind_all_cons, bind_handlers3, IH.
    transitivity
      (BotDispatcher.bind
         (BotDispatcher.bind
            (BotDispatcher.mk (handlers3 lm lr ln) logger ready) hs).2
         (concat (hs' :: calls))).
    + by rewrite (bind_handlers3 hs).
    + by rewrite bind_bind_handlers3.
Qed.

(** X8. Calls of [bind] compose: binding several lists one after the
    other on a new dispatcher leaves it in the state that one call with
    their concatenation leaves it in. In particular a further call with
    an empty list changes nothing. *)
Theorem bind_calls_compose
  (logger : Logger.t) (hs : list (IEventHandler World))
  (calls : list (list (IEventHandler World))) :
  BotDispatcher.bind_all (BotDispatcher.__init__ logger) (hs :: calls)
  = BotDispatcher.bind (BotDispatcher.__init__ logger) (concat (hs :: calls))
  /\ BotDispatcher.bind
       (BotDispatcher.bind (BotDispatcher.__init__ logger) hs).2 []
     = BotDispatcher.bind (BotDispatcher.__init__ logger) hs.
Proof.
  rewrite init_handlers3. split.
  - apply bind_all_as_one_bind.
  - rewrite bind_bind_handlers3. by rewrite app_nil_r.
Qed.

Lemma bind_all_stable calls :
  forall lm lr ln logger ready,
    exists lm' lr' ln',
      BotDispatcher._handlers
        (BotDispatcher.bind_all
           (BotDispatcher.mk (handlers3 lm lr ln) logger ready) calls).2
      = handlers3 lm' lr' ln'
      /\ forall p,
           filter (λ h, priority h = p) lm'
           = filter (λ h, priority h = p)
                    (lm ++ of_family MsgEventHandler (concat calls))
           /\ filter (λ h, priority h = p) lr'
              = filter (λ h, priority h = p)
                       (lr ++ of_family ReqEventHandler (concat calls))
           /\ filter (λ h, priority h = p) ln'
              = filter (λ h, priority h = p)
                       (ln ++ of_family NoticeEventHandler (concat calls)).
Proof.
  induction calls as [|hs calls IH]; intros lm lr ln logger ready.
  - exists lm, lr, ln. simpl. unfold of_family.
    by rewrite !filter_nil, !app_nil_r.
  - simpl. rewrite bind_handlers3.
    destruct (IH (sorted_reverse priority (lm ++ of_family MsgEventHandler hs))
                 (sorted_reverse priority (lr ++ of_family ReqEventHandler hs))
                 (sorted_reverse priority
                                 (ln ++ of_family NoticeEventHandler hs))
                 logger true)
      as (lm' & lr' & ln' & Heq & Hfil).
    exists lm', lr', ln'. split; [done|].
    intros p. destruct (Hfil p) as (Fm & Fr & Fn).
    rewrite Fm, Fr, Fn, !of_family_app, !filter_app.
    rewrite !sorted_reverse_stable, !filter_app.
    by rewrite <- !app_assoc.
Qed.

(** X9. Handlers of equal priority keep their order of registration:
    after any calls of [bind] on a new dispatcher, the handlers of one
    family that have the priority [p] stand in their list in the order in
    which they were bound. *)
Theorem bind_keeps_registration_order
  (logger : Logger.t) (calls : list (list (IEventHandler World))) :
  exists lm lr ln,
    BotDispatcher._handlers
      (BotDispatcher.bind_all (BotDispatcher.__init__ logger) calls).2
    = handlers3 lm lr ln
    /\ forall p,
         filter (λ h, priority h = p) lm
         = filter (λ h, priority h = p)
                  (of_family MsgEventHandler (concat calls))
         /\ filter (λ h, priority h = p) lr
            = filter (λ h, priority h = p)
                     (of_family ReqEventHandler (concat calls))
         /\ filter (λ h, priority h = p) ln
            = filter (λ h, priority h = p)
                     (of_family NoticeEventHandler (concat calls)).
Proof.
  rewrite init_handlers3.
  apply (bind_all_stable calls [] [] [] logger false).
Qed.

End MoreBindFacts.

(** ** Order and completion of a dispatch *)

Section DispatchOrderFacts.

Context {World : Type} `{PyBuiltins} `{PriorityLevel}.

Implicit Types (h : IEventHandler World) (hs : list (IEventHandler World)).
Implicit Types (s : BotDispatcher.step) (steps : list BotDispatcher.step).
Implicit Types (self : BotDispatcher.t World) (w : World).
Implicit Types (event : BotEvent.t).

Lemma sorted_desc_take n hs : sorted_desc hs -> sorted_desc (take n hs).
Proof.
  unfold sorted_desc. intros Hs. revert n.
  induction Hs as [|h hs Hs IH Hall]; intros [|n]; simpl; try constructor.
  - apply IH.
  - by apply Forall_take.
Qed.

Lemma Forall2_steps_sorted hs steps :
  Forall2 (λ h s, BotDispatcher.step_priority s = priority h
                  /\ BotDispatcher.step_block s = set_block h) hs steps ->
  sorted_desc hs ->
  StronglySorted (λ a b, BotDispatcher.step_priority b
                         <= BotDispatcher.step_priority a) steps.
Proof.
  unfold sorted_desc.
  induction 1 as [|h s hs steps [Hp _] Hf IH]; intros Hs; [constructor|].
  apply StronglySorted_inv in Hs as [Hs Hall].
  constructor; [by apply IH|].
  clear IH Hs. induction Hf as [|h' s' hs steps [Hp' _] Hf IH];
    [constructor|].
  apply Forall_cons in Hall as [Hle Hall].
  constructor; [lia | by apply IH].
Qed.

Lemma steps_follow_sorted hs steps :
  steps_follow hs steps ->
  sorted_desc hs ->
  StronglySorted (λ a b, BotDispatcher.step_priority b
                         <= BotDispatcher.step_priority a) steps.
Proof.
  intros Hf Hs. apply (Forall2_steps_sorted _ _ Hf).
  by apply sorted_desc_take.
Qed.

Lemma handlers3_lookup_inv (lm lr ln : list (IEventHandler World)) k hs :
  handlers3 lm lr ln !! k = Some hs -> hs = lm \/ hs = lr \/ hs = ln.
Proof.
  destruct (decide (k = "message")) as [->|Hm].
  { rewrite handlers3_message. intros [= <-]. by left. }
  destruct (decide (k = "request")) as [->|Hr].
  { rewrite handlers3_request. intros [= <-]. right. by left. }
  destruct (decide (k = "notice")) as [->|Hn].
  { rewrite handlers3_notice. intros [= <-]. right. by right. }
  by rewrite handlers3_other.
Qed.

(** X7. The handlers of one event are visited in priority order: on a
    dispatcher made by [__init__] and any calls of [bind], the iterations
    of a dispatch go through handlers of descending priority. *)
Theorem dispatch_visits_in_priority_order
  (logger : Logger.t) (calls : list (list (IEventHandler World)))
  event w :
  StronglySorted
    (λ a b, BotDispatcher.step_priority b <= BotDispatcher.step_priority a)
    (BotDispatcher.res_steps
       (BotDispatcher.dispatch
          (BotDispatcher.bind_all (BotDispatcher.__init__ logger) calls).2
          event w)).
Proof.
  rewrite init_handlers3.
  destruct (bind_all_handlers3 calls [] [] [] logger false)
    as (lm & lr & ln & -> & (Sm & Sr & Sn) & _); try (by constructor).
  cbn [snd]. unfold BotDispatcher.dispatch, BotDispatcher.dispatch_try.
  cbn [BotDispatcher._ready_signal BotDispatcher._handlers].
  destruct (negb _); [constructor|].
  destruct (handlers3 lm lr ln !! BotEvent.type event) as [hs|] eqn:Hhs;
    [|constructor].
  assert (Hsorted : sorted_desc hs).
  { destruct (handlers3_lookup_inv _ _ _ _ _ Hhs) as [->|[->| ->]]; done. }
  pose proof (dispatch_loop_steps event hs MIN_value w) as Hloop.
  destruct (BotDispatcher.dispatch_loop event hs MIN_value w)
    as [[[[]|e] steps] w']; destruct Hloop as (Hf & _).
  - by apply (steps_follow_sorted hs).
  - destruct (isinstance_Exception e); by apply (steps_follow_sorted hs).
Qed.

(** A loop in which no [evoke] raises goes through all the handlers. *)
Lemma dispatch_loop_completes event hs :
  (forall h w e, h ∈ hs -> (evoke h event w).1 <> Raise e) ->
  forall p w,
  exists steps w',
    BotDispatcher.dispatch_loop event hs p w = (Ok tt, steps, w')
    /\ length steps = length hs.
Proof.
  induction hs as [|h hs IH]; intros Hno p w; simpl; [eauto|].
  assert (Hno' : forall h0 w0 e, h0 ∈ hs -> (evoke h0 event w0).1 <> Raise e).
  { intros h0 w0 e Hin. apply Hno. by apply list_elem_of_further. }
  destruct (priority h <? p).
  - destruct (IH Hno' p w) as (steps & w' & -> & Hlen).
    eexists _, _. split; [reflexivity|]. simpl. by rewrite Hlen.
  - pose proof (Hno h w) as Hh.
    destruct (evoke h event w) as [[[|]|e] w1]; simpl in Hh.
    + destruct (IH Hno' (if set_block h && (priority h >? p)
                         then priority h else p) w1)
        as (steps & w' & -> & Hlen).
      eexists _, _. split; [reflexivity|]. simpl. by rewrite Hlen.
    + destruct (IH Hno' p w1) as (steps & w' & -> & Hlen).
      eexists _, _. split; [reflexivity|]. simpl. by rewrite Hlen.
    + exfalso. apply (Hh e); [apply list_elem_of_here | done].
Qed.

(** X10. A dispatch never changes the handlers or the ready signal of the
    dispatcher, and it either leaves the logger alone or adds the three
    records of one exception that is an instance of [Exception]. When
    the dispatcher is ready and no [evoke] of the handlers of the event's
    type raises, the dispatch returns, every one of these handlers has its
    iteration, and the dispatcher is as before: nothing is logged. *)
Theorem dispatch_completes self event w :
  (BotDispatcher._handlers (BotDispatcher.res_self
                              (BotDispatcher.dispatch self event w))
   = BotDispatcher._handlers self
   /\ BotDispatcher._ready_signal (BotDispatcher.res_self
                                     (BotDispatcher.dispatch self event w))
      = BotDispatcher._ready_signal self
   /\ (BotDispatcher.logger (BotDispatcher.res_self
                               (BotDispatcher.dispatch self event w))
       = BotDispatcher.logger self
       \/ exists e,
            isinstance_Exception e = true
            /\ BotDispatcher.logger (BotDispatcher.res_self
                                       (BotDispatcher.dispatch self event w))
               = BotDispatcher.log_exception
                   (BotDispatcher.logger self) event e))
  /\ forall hs,
       BotDispatcher._ready_signal self = true ->
       BotDispatcher._handlers self !! BotEvent.type event = Some hs ->
       (forall h w0 e, h ∈ hs -> (evoke h event w0).1 <> Raise e) ->
       BotDispatcher.res_outcome (BotDispatcher.dispatch self event w)
       = BotDispatcher.Returned
       /\ length (BotDispatcher.res_steps
                    (BotDispatcher.dispatch self event w))
          = length hs
       /\ BotDispatcher.res_self (BotDispatcher.dispatch self event w) = self.
Proof.
  split.
  - unfold BotDispatcher.dispatch.
    destruct (negb (BotDispatcher._ready_signal self)); [by repeat split; left|].
    destruct (BotDispatcher.dispatch_try self event w) as [[[[]|e] steps] w'];
      [by repeat split; left|].
    destruct (isinstance_Exception e) eqn:Hcls; simpl;
      [|by repeat split; left].
    repeat split. right. eauto.
  - intros hs Hready Hhs Hno.
    unfold BotDispatcher.dispatch, BotDispatcher.dispatch_try.
    rewrite Hready, Hhs. simpl.
    destruct (dispatch_loop_completes event hs Hno MIN_value w)
      as (steps & w' & -> & Hlen).
    done.
Qed.

End DispatchOrderFacts.

(** ** Evaluation of composite checkers *)

Section CheckFacts.

Context {World : Type} `{LogicCalc}.
Variable leaf_check : nat -> BotEvent.t -> World -> result bool * World.

Implicit Types (c : checker) (event : BotEvent.t) (w : World).

Lemma check_each_app ids1 ids2 event w :
  CheckerEval.check_each leaf_check (ids1 ++ ids2) event w
  = match CheckerEval.check_each leaf_check ids1 event w with
    | (Raise e, w1) => (Raise e, w1)
    | (Ok vs1, w1) =>
        match CheckerEval.check_each leaf_check ids2 event w1 with
        | (Raise e, w2) => (Raise e, w2)
        | (Ok vs2, w2) => (Ok (vs1 ++ vs2), w2)
        end
    end.
Proof.
  revert w. induction ids1 as [|id ids1 IH]; intros w; simpl.
  - by destruct (CheckerEval.check_each leaf_check ids2 event w) as [[vs|e] w2].
  - destruct (leaf_check id event w) as [[v|e] w1]; [|done].
    rewrite IH.
    destruct (CheckerEval.check_each leaf_check ids1 event w1)
      as [[vs1|e] w2]; [|done].
    by destruct (CheckerEval.check_each leaf_check ids2 event w2)
      as [[vs2|e] w3].
Qed.

Lemma check_as_check_each c event :
  forall w,
    match CheckerEval.check leaf_check c event w with
    | (Ok v, w') =>
        exists vs,
          CheckerEval.check_each leaf_check (checker_leaves c) event w
          = (Ok vs, w')
          /\ length vs = length (checker_leaves c)
    | (Raise e, w') =>
        (forall mode v1 v2, exists v, calc mode v1 v2 = Ok v) ->
        CheckerEval.check_each leaf_check (checker_leaves c) event w
        = (Raise e, w')
    end.
Proof.
  induction c as [id | id mode c1 IH1 | id mode c1 c2 IH1 IH2]
    using checker_induction; intros w; simpl.
  - destruct (leaf_check id event w) as [[v|e] w1]; eauto.
  - rewrite app_nil_r. specialize (IH1 w).
    destruct (CheckerEval.check leaf_check c1 event w) as [[v1|e] w1];
      [|done].
    destruct IH1 as (vs & Heq & Hlen).
    destruct (calc mode v1 None) as [v|e] eqn:Hcalc; [eauto|].
    intros Htotal. destruct (Htotal mode v1 None) as [v Hv]. congruence.
  - rewrite check_each_app. specialize (IH1 w).
    destruct (CheckerEval.check leaf_check c1 event w) as [[v1|e] w1].
    + destruct IH1 as (vs1 & -> & Hlen1). specialize (IH2 w1).
      destruct (CheckerEval.check leaf_check c2 event w1) as [[v2|e] w2].
      * destruct IH2 as (vs2 & -> & Hlen2).
        destruct (calc mode v1 (Some v2)) as [v|e] eqn:Hcalc.
        -- exists (vs1 ++ vs2). split; [done|].
           rewrite !length_app. lia.
        -- intros Htotal. destruct (Htotal mode v1 (Some v2)) as [v Hv].
           congruence.
      * intros Htotal. by rewrite (IH2 Htotal).
    + intros Htotal. by rewrite (IH1 Htotal).
Qed.

(** X11. A composite checker does not cut its evaluation short: when
    [check] returns, every leaf of the checker has been checked, from left
    to right, whatever the modes and the results on the way, and the
    state is the one these leaf checks leave. When [LogicMode.calc] never
    raises, this holds of the state after any [check], and [check] raises
    exactly the exception of the first leaf check that raises. *)
Theorem check_evaluates_every_leaf c event w :
  (forall v w',
      CheckerEval.check leaf_check c event w = (Ok v, w') ->
      exists vs,
        CheckerEval.check_each leaf_check (checker_leaves c) event w
        = (Ok vs, w')
        /\ length vs = length (checker_leaves c))
  /\ ((forall mode v1 v2, exists v, calc mode v1 v2 = Ok v) ->
      (CheckerEval.check leaf_check c event w).2
      = (CheckerEval.check_each leaf_check (checker_leaves c) event w).2
      /\ forall e,
           (CheckerEval.check leaf_check c event w).1 = Raise e
           <-> (CheckerEval.check_each leaf_check (checker_leaves c)
                                       event w).1 = Raise e).
Proof.
  pose proof (check_as_check_each c event w) as Hc.
  destruct (CheckerEval.check leaf_check c event w) as [[v|e] w'].
  - destruct Hc as (vs & Heq & Hlen). split.
    + intros v0 w0 [= <- <-]. eauto.
    + intros _. rewrite Heq. simpl. split; [done|].
      intros e. split; discriminate.
  - split; [discriminate|].
    intros Htotal. rewrite (Hc Htotal). simpl. split; [done|].
    intros e0. split; intros [= ->]; reflexivity.
Qed.

End CheckFacts.

(** A conjunction whose first leaf answers false still checks its second
    leaf, and so does every other composite. *)
Example check_does_not_short_circuit :
  @CheckerEval.check (list nat) sample_calc recording_leaf_check
                     (CWrapped 0 AND (CLeaf 3) (Some (CLeaf 4)))
                     sample_message []
  = (Ok false, [3; 4]%nat)
  /\ @CheckerEval.check (list nat) sample_calc recording_leaf_check
                        three_leaf_checker sample_message []
     = (Ok true, [2; 3; 4]%nat).
Proof. split; reflexivity. Qed.

(** ** Combining checkers, then filling their callbacks *)

Section FillComposeFacts.

Context `{PyBuiltins}.

Implicit Types (c a b : checker) (cb : callback) (σ : cb_store).

Lemma fill_ok_facts c cb σ :
  ((NoDup (checker_ids c)
    /\ forall id, id ∈ checker_ids c -> ok_cb (slots_at σ id) = None)
   <-> (WrappedChecker._fill_ok_cb c cb σ).1 = Ok tt)
  /\ ((WrappedChecker._fill_ok_cb c cb σ).1 = Ok tt ->
      forall id,
        id ∈ checker_ids c ->
        ok_cb (slots_at (WrappedChecker._fill_ok_cb c cb σ).2 id) = Some cb)
  /\ (forall old,
         ok_cb (slots_at σ (checker_id c)) = Some old ->
         WrappedChecker._fill_ok_cb c cb σ
         = (Raise (BotCheckerError
                     ("ok_cb 回调已经被初始化，值为："
                      +:+ py_str (ObjCallback old))),
            σ))
  /\ slot_effect ok_cb fail_cb cb (checker_ids c) σ
                 (WrappedChecker._fill_ok_cb c cb σ).2.
Proof.
  apply (fill_method_facts
           ok_cb fail_cb (λ cb s, mk_slots (Some cb) (fail_cb s))
           (λ old, "ok_cb 回调已经被初始化，值为：" +:+ py_str (ObjCallback old))
           BotChecker._fill_ok_cb);
    [done | done | | apply fill_ok_is_fill_with].
  intros id cb' σ'. unfold BotChecker._fill_ok_cb.
  by destruct (ok_cb (slots_at σ' id)).
Qed.

Lemma fill_fail_facts c cb σ :
  ((NoDup (checker_ids c)
    /\ forall id, id ∈ checker_ids c -> fail_cb (slots_at σ id) = None)
   <-> (WrappedChecker._fill_fail_cb c cb σ).1 = Ok tt)
  /\ ((WrappedChecker._fill_fail_cb c cb σ).1 = Ok tt ->
      forall id,
        id ∈ checker_ids c ->
        fail_cb (slots_at (WrappedChecker._fill_fail_cb c cb σ).2 id)
        = Some cb)
  /\ (forall old,
         fail_cb (slots_at σ (checker_id c)) = Some old ->
         WrappedChecker._fill_fail_cb c cb σ
         = (Raise (BotCheckerError
                     ("fail_cb 回调已经被初始化，值为："
                      +:+ py_str (ObjCallback old))),
            σ))
  /\ slot_effect fail_cb ok_cb cb (checker_ids c) σ
                 (WrappedChecker._fill_fail_cb c cb σ).2.
Proof.
  apply (fill_method_facts
           fail_cb ok_cb (λ cb s, mk_slots (ok_cb s) (Some cb))
           (λ old, "fail_cb 回调已经被初始化，值为：" +:+ py_str (ObjCallback old))
           BotChecker._fill_fail_cb);
    [done | done | | apply fill_fail_is_fill_with].
  intros id cb' σ'. unfold BotChecker._fill_fail_cb.
  by destruct (fail_cb (slots_at σ' id)).
Qed.

(** X12. Two checkers made of distinct objects with empty success slots,
    combined by [&] into a new object, can be filled in one call on the
    composite: the call returns, and the composite, both operands and all
    their descendants hold the callback. *)
Theorem combine_then_fill new a b cb σ :
  NoDup (new :: checker_ids a ++ checker_ids b) ->
  (forall id,
      id ∈ checker_ids a ++ checker_ids b ->
      ok_cb (slots_at σ id) = None) ->
  exists c σ1 σ2,
    BotCheckerOps.__and__ new a (ObjChecker b) σ = (Ok c, σ1)
    /\ checker_ids c = new :: checker_ids a ++ checker_ids b
    /\ WrappedChecker._fill_ok_cb c cb σ1 = (Ok tt, σ2)
    /\ forall id,
         id ∈ new :: checker_ids a ++ checker_ids b ->
         ok_cb (slots_at σ2 id) = Some cb.
Proof.
  intros Hnd Hempty.
  exists (CWrapped new AND a (Some b)), (<[new := empty_slots]> σ).
  destruct (fill_ok_facts (CWrapped new AND a (Some b)) cb
                          (<[new := empty_slots]> σ))
    as ([Hret _] & Hpost & _).
  assert (Hok : (WrappedChecker._fill_ok_cb
                   (CWrapped new AND a (Some b)) cb
                   (<[new := empty_slots]> σ)).1 = Ok tt).
  { apply Hret. split; [done|].
    intros id Hin. rewrite slots_at_insert.
    destruct (decide (new = id)) as [<-|Hne]; [done|].
    apply Hempty. simpl in Hin.
    apply elem_of_cons in Hin as [->|Hin]; [done | exact Hin]. }
  specialize (Hpost Hok).
  destruct (WrappedChecker._fill_ok_cb (CWrapped new AND a (Some b)) cb
                                       (<[new := empty_slots]> σ))
    as [r σ2] eqn:Hfill.
  simpl in Hok. subst r. exists σ2. repeat split; done.
Qed.

(** X13. The two callbacks of a checker can be filled in either order:
    on a checker made of distinct objects whose slots are all empty, both
    orders return, and they leave every object with the same slots, the
    objects of the checker holding both callbacks and every other object
    being as it was. *)
Theorem fill_both_in_either_order c cb1 cb2 σ :
  NoDup (checker_ids c) ->
  (forall id, id ∈ checker_ids c -> slots_at σ id = empty_slots) ->
  let ok_first :=
    WrappedChecker._fill_fail_cb
      c cb2 (WrappedChecker._fill_ok_cb c cb1 σ).2 in
  let fail_first :=
    WrappedChecker._fill_ok_cb
      c cb1 (WrappedChecker._fill_fail_cb c cb2 σ).2 in
  (WrappedChecker._fill_ok_cb c cb1 σ).1 = Ok tt
  /\ ok_first.1 = Ok tt
  /\ (WrappedChecker._fill_fail_cb c cb2 σ).1 = Ok tt
  /\ fail_first.1 = Ok tt
  /\ forall id,
       slots_at ok_first.2 id = slots_at fail_first.2 id
       /\ (id ∈ checker_ids c ->
           slots_at ok_first.2 id = mk_slots (Some cb1) (Some cb2))
       /\ (id ∉ checker_ids c -> slots_at ok_first.2 id = slots_at σ id).
Proof.
  intros Hnd Hempty.
  assert (Hok_empty : forall id, id ∈ checker_ids c ->
                                  ok_cb (slots_at σ id) = None).
  { intros id Hin. by rewrite Hempty. }
  assert (Hfail_empty : forall id, id ∈ checker_ids c ->
                                    fail_cb (slots_at σ id) = None).
  { intros id Hin. by rewrite Hempty. }
  destruct (fill_ok_facts c cb1 σ) as ([Hret1 _] & Hpost1 & _ & Heff1).
  destruct (fill_fail_facts c cb2 σ) as ([Hret2 _] & Hpost2 & _ & Heff2).
  pose proof (Hret1 (conj Hnd Hok_empty)) as Hok1.
  pose proof (Hret2 (conj Hnd Hfail_empty)) as Hok2.
  specialize (Hpost1 Hok1). specialize (Hpost2 Hok2).
  set (σa := (WrappedChecker._fill_ok_cb c cb1 σ).2) in *.
  set (σb := (WrappedChecker._fill_fail_cb c cb2 σ).2) in *.
  destruct (fill_fail_facts c cb2 σa) as ([Hret3 _] & Hpost3 & _ & Heff3).
  destruct (fill_ok_facts c cb1 σb) as ([Hret4 _] & Hpost4 & _ & Heff4).
  assert (Hok3 : (WrappedChecker._fill_fail_cb c cb2 σa).1 = Ok tt).
  { apply Hret3. split; [done|]. intros id Hin.
    destruct (Heff1 id) as (_ & -> & _). by apply Hfail_empty. }
  assert (Hok4 : (WrappedChecker._fill_ok_cb c cb1 σb).1 = Ok tt).
  { apply Hret4. split; [done|]. intros id Hin.
    destruct (Heff2 id) as (_ & -> & _). by apply Hok_empty. }
  specialize (Hpost3 Hok3). specialize (Hpost4 Hok4).
  split; [done|]. split; [done|]. split; [done|]. split; [done|].
  simpl. intros id.
  destruct (Heff1 id) as (_ & Hf1 & Hout1).
  destruct (Heff2 id) as (_ & Ho2 & Hout2).
  destruct (Heff3 id) as (_ & Ho3 & Hout3).
  destruct (Heff4 id) as (_ & Hf4 & Hout4).
  assert (Hin_case : id ∈ checker_ids c ->
                     slots_at (WrappedChecker._fill_fail_cb c cb2 σa).2 id
                     = mk_slots (Some cb1) (Some cb2)
                     /\ slots_at (WrappedChecker._fill_ok_cb c cb1 σb).2 id
                        = mk_slots (Some cb1) (Some cb2)).
  { intros Hin.
    pose proof (Hpost1 id Hin) as P1. pose proof (Hpost2 id Hin) as P2.
    pose proof (Hpost3 id Hin) as P3. pose proof (Hpost4 id Hin) as P4.
    split.
    - destruct (slots_at (WrappedChecker._fill_fail_cb c cb2 σa).2 id)
        as [o f] eqn:E. simpl in *. congruence.
    - destruct (slots_at (WrappedChecker._fill_ok_cb c cb1 σb).2 id)
        as [o f] eqn:E. simpl in *. congruence. }
  destruct (decide (id ∈ checker_ids c)) as [Hin|Hout].
  - destruct (Hin_case Hin) as [-> ->]. by repeat split.
  - rewrite (Hout3 Hout), (Hout1 Hout), (Hout4 Hout), (Hout2 Hout).
    by repeat split.
Qed.

End FillComposeFacts.

Lemma combine_then_fill_sample :
  exists c σ1 σ2,
    @BotCheckerOps.__and__ sample_builtins 9 (CLeaf 1) (ObjChecker (CLeaf 2)) ∅
    = (Ok c, σ1)
    /\ checker_ids c = 9%nat :: checker_ids (CLeaf 1) ++ checker_ids (CLeaf 2)
    /\ @WrappedChecker._fill_ok_cb sample_builtins c (Callback 7) σ1
       = (Ok tt, σ2)
    /\ forall id,
         id ∈ 9%nat :: checker_ids (CLeaf 1) ++ checker_ids (CLeaf 2) ->
         ok_cb (slots_at σ2 id) = Some (Callback 7).
Proof.
  apply (@combine_then_fill sample_builtins 9%nat (CLeaf 1) (CLeaf 2)
                            (Callback 7) ∅).
  - apply (bool_decide_unpack _). by vm_compute.
  - intros id _. reflexivity.
Defined.

Lemma fill_both_in_either_order_sample :
  let ok_first :=
    @WrappedChecker._fill_fail_cb
      sample_builtins three_leaf_checker (Callback 8)
      (@WrappedChecker._fill_ok_cb sample_builtins three_leaf_checker
                                   (Callback 7) ∅).2 in
  let fail_first :=
    @WrappedChecker._fill_ok_cb
      sample_builtins three_leaf_checker (Callback 7)
      (@WrappedChecker._fill_fail_cb sample_builtins three_leaf_checker
                                     (Callback 8) ∅).2 in
  ok_first.1 = Ok tt
  /\ fail_first.1 = Ok tt
  /\ slots_at ok_first.2 3 = slots_at fail_first.2 3.
Proof.
  assert (Hnd : NoDup (checker_ids three_leaf_checker))
    by (apply (bool_decide_unpack _); by vm_compute).
  assert (Hempty : forall id,
             id ∈ checker_ids three_leaf_checker ->
             slots_at ∅ id = empty_slots) by (intros id _; reflexivity).
  destruct (@fill_both_in_either_order
              sample_builtins three_leaf_checker (Callback 7) (Callback 8) ∅
              Hnd Hempty)
    as (_ & Ha & _ & Hb & Hall).
  split; [exact Ha|]. split; [exact Hb|]. exact (proj1 (Hall 3%nat)).
Defined.

(** ** Building a plugin *)

Section PluginFacts.

Context {E : Type}.
Variable to_async : callback -> callback.

Implicit Types (self : BotPlugin.t E) (regs : list registration).

Lemma register_pairs self r :
  share_pairs (register to_async self r)
  = share_pairs self ++ declared_shares [r]
  /\ share_cb_pairs (register to_async self r)
     = share_cb_pairs self ++ affected_shares [r]
  /\ BotPlugin.__id__ (register to_async self r) = BotPlugin.__id__ self.
Proof.
  unfold share_pairs, share_cb_pairs.
  destruct r; simpl; rewrite ?map_app, ?app_nil_r; done.
Qed.

Lemma registered_pairs regs :
  forall self,
    share_pairs (foldl (register to_async) self regs)
    = share_pairs self ++ declared_shares regs
    /\ share_cb_pairs (foldl (register to_async) self regs)
       = share_cb_pairs self ++ affected_shares regs
    /\ BotPlugin.__id__ (foldl (register to_async) self regs)
       = BotPlugin.__id__ self.
Proof.
  induction regs as [|r regs IH]; intros self; simpl.
  - unfold declared_shares, affected_shares. simpl.
    by rewrite !app_nil_r.
  - destruct (IH (register to_async self r)) as (-> & -> & ->).
    destruct (register_pairs self r) as (-> & -> & ->).
    rewrite <- !app_assoc. by destruct r.
Qed.

Lemma all_false_filter {A} (P : A -> Prop) `{forall x, Decision (P x)}
  (l : list A) :
  forallb (λ _ : A, false) (filter P l) = true <-> forall x, x ∈ l -> ~ P x.
Proof.
  induction l as [|x l IH]; simpl.
  - split; [|done]. intros _ x Hx. by apply elem_of_nil in Hx.
  - rewrite filter_cons. destruct (decide (P x)) as [HP|HP]; simpl.
    + split; [discriminate|]. intros Hall. exfalso.
      apply (Hall x); [apply list_elem_of_here | done].
    + rewrite IH. split.
      * intros Hall y Hy. apply elem_of_cons in Hy as [->|Hy]; auto.
      * intros Hall y Hy. apply Hall. by apply list_elem_of_further.
Qed.

(** X14. A plugin is built exactly when every shared object it attaches
    a callback to is one it declares itself, whatever the order of the
    registrations; otherwise [_self_build] raises [PluginInitError] with
    the identifier of the plugin. Either way the proxy is set, and it
    lists the declared shared objects and the callbacks in the order of
    their registration. *)
Theorem self_build_checks_share_callbacks
  (id version desc doc : string) (keywords : option (list string))
  (url : string) regs :
  let plugin :=
    foldl (register to_async)
          (BotPlugin.__init__ (EventHandlerArgs := E)
                              id version desc doc keywords url) regs in
  ((BotPlugin._self_build plugin).1 = Ok tt
   <-> forall pair, pair ∈ affected_shares regs -> pair ∈ declared_shares regs)
  /\ ((BotPlugin._self_build plugin).1 = Ok tt
      \/ (BotPlugin._self_build plugin).1
         = Raise (OtherException
                    "PluginInitError"
                    ("插件 " +:+ id +:+ " 不能为不属于自己的共享对象注册回调")))
  /\ exists proxy,
       BotPlugin.__proxy__ (BotPlugin._self_build plugin).2 = Some proxy
       /\ PluginProxy.shares proxy = declared_shares regs
       /\ PluginProxy.share_cbs proxy = affected_shares regs
       /\ PluginProxy.id proxy = id.
Proof.
  intros plugin.
  destruct (registered_pairs
              regs (BotPlugin.__init__ (EventHandlerArgs := E)
                                       id version desc doc keywords url))
    as (Hs & Hc & Hid).
  fold plugin in Hs, Hc, Hid. clearbody plugin.
  change (share_pairs plugin = declared_shares regs) in Hs.
  change (share_cb_pairs plugin = affected_shares regs) in Hc.
  change (BotPlugin.__id__ plugin = id) in Hid.
  unfold BotPlugin._self_build. cbn zeta.
  cbn [PluginProxy.shares PluginProxy.share_cbs].
  fold (share_pairs plugin). fold (share_cb_pairs plugin).
  rewrite Hs, Hc, Hid.
  pose proof (all_false_filter (λ pair, pair ∉ declared_shares regs)
                               (affected_shares regs)) as Hall.
  destruct (forallb (λ _ : string * string, false)
                    (filter (λ pair, pair ∉ declared_shares regs)
                            (affected_shares regs))) eqn:Hcheck; simpl.
  - split; [|split; [by left|]].
    + split; [|done]. intros _ pair Hin.
      destruct (decide (pair ∈ declared_shares regs)) as [|Hnot]; [done|].
      exfalso. by apply (proj1 Hall eq_refl pair Hin).
    + eexists. split; [reflexivity|]. done.
  - split; [|split; [by right|]].
    + split; [discriminate|]. intros Hsub.
      assert (false = true); [|done].
      apply Hall. intros pair Hin Hnot. by apply Hnot, Hsub.
    + eexists. split; [reflexivity|]. done.
Qed.

End PluginFacts.

(** A callback registered before the shared object it belongs to, and a
    callback for a shared object the plugin never declares. *)
Example self_build_samples :
  let plugin :=
    BotPlugin.__init__ (EventHandlerArgs := unit) "demo" "1.0" "" "" None "" in
  (BotPlugin._self_build
     (foldl (register (λ f, f)) plugin
            [RegShareAffected "Help" "all" (Callback 1);
             RegShare "Help" "all" (Callback 2)])).1
  = Ok tt
  /\ (BotPlugin._self_build
        (foldl (register (λ f, f)) plugin
               [RegShare "Help" "all" (Callback 2);
                RegShareAffected "Help" "other" (Callback 1)])).1
     = Raise (OtherException
                "PluginInitError"
                "插件 demo 不能为不属于自己的共享对象注册回调").
Proof. split; reflexivity. Qed.

(** ** CQ escaping *)

Section CQFacts.

Local Open Scope nat_scope.

Lemma append_String c s t : String c s +:+ t = String c (s +:+ t).
Proof. reflexivity. Qed.

Lemma append_empty t : EmptyString +:+ t = t.
Proof. reflexivity. Qed.

Lemma append_assoc (r s t : string) : (r +:+ s) +:+ t = r +:+ (s +:+ t).
Proof.
  induction r as [|c r IH]; [done|]. by rewrite !append_String, IH.
Qed.

Lemma map_chars_app f s t :
  map_chars f (s +:+ t) = map_chars f s +:+ map_chars f t.
Proof.
  induction s as [|c s IH]; [done|].
  rewrite append_String. cbn [map_chars]. by rewrite IH, append_assoc.
Qed.

Lemma map_chars_ext f g s :
  (forall c, f c = g c) -> map_chars f s = map_chars g s.
Proof. intros Hfg. induction s as [|c s IH]; [done|]. simpl. by rewrite Hfg, IH. Qed.

Lemma map_chars_compose f g s :
  map_chars g (map_chars f s) = map_chars (λ c, map_chars g (f c)) s.
Proof.
  induction s as [|c s IH]; [done|]. simpl. by rewrite map_chars_app, IH.
Qed.

Lemma map_chars_id s : map_chars (λ c, String c EmptyString) s = s.
Proof. induction s as [|c s IH]; [done|]. simpl. by rewrite IH. Qed.

(** Replacing a one-character string is a character-wise substitution. *)
Lemma str_replace_char a new s :
  str_replace (String a EmptyString) new s
  = map_chars (λ c, if Ascii.eqb c a then new else String c EmptyString) s.
Proof.
  unfold str_replace.
  induction s as [|c s IH]; [done|].
  cbn [replace_from map_chars String.prefix String.length].
  destruct (Ascii.ascii_dec a c) as [->|Hne].
  - rewrite Ascii.eqb_refl.
    replace (String.prefix EmptyString s) with true by by destruct s.
    simpl. by rewrite IH.
  - destruct (Ascii.eqb_spec c a) as [->|_]; [done|]. simpl. by rewrite IH.
Qed.

Lemma escape_by_char text :
  CQEncoder.escape text = map_chars (esc_char true true true true) text.
Proof.
  unfold CQEncoder.escape. rewrite !str_replace_char, !map_chars_compose.
  apply map_chars_ext. intros c. unfold esc_char.
  destruct (Ascii.eqb_spec c "&") as [->|H1]; [done|].
  destruct (Ascii.eqb_spec c "[") as [->|H2]; [done|].
  destruct (Ascii.eqb_spec c "]") as [->|H3]; [done|].
  destruct (Ascii.eqb_spec c ",") as [->|H4]; [done|].
  cbn [map_chars String.append].
  destruct (Ascii.eqb_spec c "[") as [|_]; [done|]. cbn [map_chars String.append].
  destruct (Ascii.eqb_spec c "]") as [|_]; [done|]. cbn [map_chars String.append].
  by destruct (Ascii.eqb_spec c ",") as [|_].
Qed.

Lemma has_char_app c s t :
  has_char c (s +:+ t) = has_char c s || has_char c t.
Proof.
  induction s as [|d s IH]; [done|]. simpl. rewrite IH. by rewrite orb_assoc.
Qed.

Lemma has_char_map_chars a f s :
  (forall c, has_char a (f c) = false) -> has_char a (map_chars f s) = false.
Proof.
  intros Hf. induction s as [|c s IH]; [done|].
  simpl. by rewrite has_char_app, Hf, IH.
Qed.

Lemma esc_char_clean c :
  has_char "[" (esc_char true true true true c) = false
  /\ has_char "]" (esc_char true true true true c) = false
  /\ has_char "," (esc_char true true true true c) = false.
Proof.
  unfold esc_char.
  destruct (Ascii.eqb_spec c "&") as [->|H1]; [done|].
  destruct (Ascii.eqb_spec c "[") as [->|H2]; [done|].
  destruct (Ascii.eqb_spec c "]") as [->|H3]; [done|].
  destruct (Ascii.eqb_spec c ",") as [->|H4]; [done|].
  cbn [has_char]. rewrite !orb_false_r.
  repeat split; apply Ascii.eqb_neq; congruence.
Qed.

Lemma prefix_String a p c s :
  String.prefix (String a p) (String c s)
  = if Ascii.ascii_dec a c then String.prefix p s else false.
Proof. reflexivity. Qed.

Lemma prefix_empty s : String.prefix EmptyString s = true.
Proof. by destruct s. Qed.

Lemma prefix_app p s : String.prefix p (p +:+ s) = true.
Proof.
  induction p as [|a p IH]; [apply prefix_empty|].
  rewrite append_String, prefix_String. by destruct (Ascii.ascii_dec a a).
Qed.

Lemma prefix_true_app p s :
  String.prefix p s = true -> exists s', s = p +:+ s'.
Proof.
  revert s. induction p as [|a p IH]; intros s Hp; [by exists s|].
  destruct s as [|c s]; [done|]. rewrite prefix_String in Hp.
  destruct (Ascii.ascii_dec a c) as [->|]; [|done].
  destruct (IH s Hp) as [s' ->]. by exists s'.
Qed.

Lemma length_append (s t : string) :
  String.length (s +:+ t) = String.length s + String.length t.
Proof.
  induction s as [|c s IH]; [done|].
  rewrite append_String. cbn [String.length]. by rewrite IH.
Qed.

Lemma replace_from_pass old new c s :
  String.prefix old (String c s) = false ->
  replace_from old new 0 (String c s) = String c (replace_from old new 0 s).
Proof. intros Hp. cbn [replace_from]. by rewrite Hp. Qed.

Lemma replace_from_skip old new r s :
  replace_from old new (String.length r) (r +:+ s) = replace_from old new 0 s.
Proof.
  induction r as [|c r IH]; [done|].
  rewrite append_String. cbn [String.length replace_from]. exact IH.
Qed.

Lemma replace_from_hit a p new s :
  replace_from (String a p) new 0 (String a p +:+ s)
  = new +:+ replace_from (String a p) new 0 s.
Proof.
  rewrite append_String. cbn [replace_from].
  rewrite <- append_String, prefix_app. cbn [String.length].
  by rewrite Nat.sub_succ, Nat.sub_0_r, replace_from_skip.
Qed.

(** A text in which [old] does not occur is left as it is. *)
Lemma replace_absent a p new t :
  has_substring (String a p) t = false ->
  str_replace (String a p) new t = t.
Proof.
  unfold str_replace. induction t as [|c t IH]; [done|].
  cbn [has_substring]. intros [Hp Hno]%orb_false_elim.
  by rewrite replace_from_pass, IH.
Qed.

(** A replacement by a single character never makes the text longer, and
    the characters that are skipped are all lost. *)
Lemma replace_from_length old x k t :
  String.length (replace_from old (String x EmptyString) k t)
  + Nat.min k (String.length t) <= String.length t.
Proof.
  revert k. induction t as [|c t IH]; intros k; [simpl; lia|].
  destruct k as [|k].
  - cbn [replace_from]. destruct (String.prefix old (String c t)).
    + pose proof (IH (String.length old - 1)).
      change (String x EmptyString +:+ ?r) with (String x r).
      cbn [String.length]. lia.
    + pose proof (IH 0). cbn [String.length]. lia.
  - pose proof (IH k). cbn [replace_from String.length]. lia.
Qed.

Lemma replace_present_shorter a b p x t :
  has_substring (String a (String b p)) t = true ->
  String.length (str_replace (String a (String b p)) (String x EmptyString) t)
  < String.length t.
Proof.
  unfold str_replace. induction t as [|c t IH]; [done|].
  cbn [has_substring replace_from].
  destruct (String.prefix (String a (String b p)) (String c t)) eqn:Hp.
  - intros _. apply prefix_true_app in Hp as [s Hs].
    rewrite !append_String in Hs. injection Hs as _ Ht.
    pose proof (replace_from_length
                  (String a (String b p)) x
                  (String.length (String a (String b p)) - 1) t) as Hlen.
    assert (1 <= String.length t) by (rewrite Ht; cbn [String.length]; lia).
    change (String x EmptyString +:+ ?r) with (String x r).
    cbn [String.length] in *. lia.
  - rewrite orb_false_l. intros Hin. specialize (IH Hin).
    cbn [String.length]. lia.
Qed.

(** A pattern without [&], [[], []] and [,] is found at the head of a
    text escaped in part exactly when it is at the head of the text. *)
Lemma prefix_esc q lbr rbr comma t :
  has_char "&" q = false -> has_char "[" q = false ->
  has_char "]" q = false -> has_char "," q = false ->
  String.prefix q (map_chars (esc_char false lbr rbr comma) t)
  = String.prefix q t.
Proof.
  revert t. induction q as [|a q IH]; intros t; [by rewrite !prefix_empty|].
  cbn [has_char].
  intros [Ha1 Hq1]%orb_false_elim [Ha2 Hq2]%orb_false_elim
         [Ha3 Hq3]%orb_false_elim [Ha4 Hq4]%orb_false_elim.
  apply Ascii.eqb_neq in Ha1, Ha2, Ha3, Ha4.
  destruct t as [|c t]; [done|].
  cbn [map_chars]. set (M := map_chars _ t).
  assert (forall r X, String.prefix (String a q) (String "&" r +:+ X) = false)
    as Hamp.
  { intros r X. rewrite append_String, prefix_String.
    by destruct (Ascii.ascii_dec a "&") as [->|]. }
  unfold esc_char.
  destruct (Ascii.eqb_spec c "&") as [->|H1]; [by rewrite Hamp, prefix_String;
    destruct (Ascii.ascii_dec a "&") as [->|]|].
  destruct (Ascii.eqb_spec c "[") as [->|H2].
  { rewrite (prefix_String a q "[").
    destruct (Ascii.ascii_dec a "[") as [->|]; [done|].
    destruct lbr; [apply Hamp|].
    rewrite append_String, prefix_String.
    by destruct (Ascii.ascii_dec a "[") as [->|]. }
  destruct (Ascii.eqb_spec c "]") as [->|H3].
  { rewrite (prefix_String a q "]").
    destruct (Ascii.ascii_dec a "]") as [->|]; [done|].
    destruct rbr; [apply Hamp|].
    rewrite append_String, prefix_String.
    by destruct (Ascii.ascii_dec a "]") as [->|]. }
  destruct (Ascii.eqb_spec c ",") as [->|H4].
  { rewrite (prefix_String a q ",").
    destruct (Ascii.ascii_dec a ",") as [->|]; [done|].
    destruct comma; [apply Hamp|].
    rewrite append_String, prefix_String.
    by destruct (Ascii.ascii_dec a ",") as [->|]. }
  rewrite append_String, append_empty, !prefix_String.
  destruct (Ascii.ascii_dec a c); [|done]. by apply IH.
Qed.

(** One step of [anti_escape] on a text escaped character by character:
    replacing [&q] by [x] turns the escape [fin] into the escape [fout],
    and also replaces the occurrences of [&q] the text had of its own. *)
Lemma unescape_stage (q : string) (x : ascii) (fin fout : ascii -> string) :
  (forall t, String.prefix q (map_chars fin t) = String.prefix q t) ->
  map_chars fin (String "&" q) = String "&" q ->
  fout x = String x EmptyString ->
  fin "&"%char = "&" -> fout "&"%char = "&" ->
  (forall c X, c <> "&"%char ->
     replace_from (String "&" q) (String x EmptyString) 0 (fin c +:+ X)
     = fout c +:+ replace_from (String "&" q) (String x EmptyString) 0 X) ->
  forall t,
    str_replace (String "&" q) (String x EmptyString) (map_chars fin t)
    = map_chars fout (str_replace (String "&" q) (String x EmptyString) t).
Proof.
  intros Hq Hold Hnew Hin Hout Hstep t. unfold str_replace.
  remember (String.length t) as n eqn:Hn.
  assert (String.length t <= n) as Hle by lia. clear Hn.
  revert t Hle. induction n as [|n IH]; intros t Hle.
  { destruct t; [done|]. cbn [String.length] in Hle. lia. }
  destruct t as [|c t]; [done|]. cbn [String.length] in Hle.
  destruct (Ascii.ascii_dec c "&") as [->|Hc].
  - destruct (String.prefix (String "&" q) (String "&" t)) eqn:Hp.
    + apply prefix_true_app in Hp as [s Hs]. rewrite Hs.
      rewrite map_chars_app, Hold, !replace_from_hit, map_chars_app.
      cbn [map_chars]. rewrite Hnew.
      rewrite IH; [done|].
      apply (f_equal String.length) in Hs.
      rewrite length_append in Hs. cbn [String.length] in Hs. lia.
    + rewrite (replace_from_pass _ _ _ t Hp).
      cbn [map_chars]. rewrite Hin, Hout, !append_String, !append_empty.
      rewrite replace_from_pass; [rewrite IH; [done|lia]|].
      rewrite prefix_String in Hp |- *.
      destruct (Ascii.ascii_dec "&" "&"); [|done]. by rewrite Hq.
  - rewrite (replace_from_pass _ _ c t).
    + cbn [map_chars]. rewrite Hstep by done. rewrite IH; [done|lia].
    + rewrite prefix_String. by destruct (Ascii.ascii_dec "&" c) as [<-|].
Qed.

Lemma plain_char_step q x c X :
  c <> "&"%char ->
  replace_from (String "&" q) (String x EmptyString) 0
               (String c EmptyString +:+ X)
  = String c EmptyString
    +:+ replace_from (String "&" q) (String x EmptyString) 0 X.
Proof.
  intros Hc. rewrite !append_String, !append_empty.
  apply replace_from_pass. rewrite prefix_String.
  by destruct (Ascii.ascii_dec "&" c) as [<-|].
Qed.

Lemma unescape_amp t :
  str_replace "&amp;" "&" (map_chars (esc_char true true true true) t)
  = map_chars (esc_char false true true true) t.
Proof.
  unfold str_replace. induction t as [|c t IH]; [done|].
  cbn [map_chars]. rewrite <- IH. set (M := map_chars _ t). unfold esc_char.
  destruct (Ascii.eqb_spec c "&") as [->|H1]; [apply replace_from_hit|].
  destruct (Ascii.eqb_spec c "[") as [->|H2]; [done|].
  destruct (Ascii.eqb_spec c "]") as [->|H3]; [done|].
  destruct (Ascii.eqb_spec c ",") as [->|H4]; [done|].
  by apply plain_char_step.
Qed.

Lemma unescape_lbr t :
  str_replace "&#91;" "[" (map_chars (esc_char false true true true) t)
  = map_chars (esc_char false false true true) (str_replace "&#91;" "[" t).
Proof.
  apply unescape_stage; try done.
  - intros t'. by apply prefix_esc.
  - intros c X H1. unfold esc_char.
    destruct (Ascii.eqb_spec c "&") as [|_]; [done|].
    destruct (Ascii.eqb_spec c "[") as [->|H2]; [apply replace_from_hit|].
    destruct (Ascii.eqb_spec c "]") as [->|H3]; [done|].
    destruct (Ascii.eqb_spec c ",") as [->|H4]; [done|].
    by apply plain_char_step.
Qed.

Lemma unescape_rbr t :
  str_replace "&#93;" "]" (map_chars (esc_char false false true true) t)
  = map_chars (esc_char false false false true) (str_replace "&#93;" "]" t).
Proof.
  apply unescape_stage; try done.
  - intros t'. by apply prefix_esc.
  - intros c X H1. unfold esc_char.
    destruct (Ascii.eqb_spec c "&") as [|_]; [done|].
    destruct (Ascii.eqb_spec c "[") as [->|H2]; [by apply plain_char_step|].
    destruct (Ascii.eqb_spec c "]") as [->|H3]; [apply replace_from_hit|].
    destruct (Ascii.eqb_spec c ",") as [->|H4]; [done|].
    by apply plain_char_step.
Qed.

Lemma unescape_comma t :
  str_replace "&#44;" "," (map_chars (esc_char false false false true) t)
  = map_chars (esc_char false false false false) (str_replace "&#44;" "," t).
Proof.
  apply unescape_stage; try done.
  - intros t'. by apply prefix_esc.
  - intros c X H1. unfold esc_char.
    destruct (Ascii.eqb_spec c "&") as [|_]; [done|].
    destruct (Ascii.eqb_spec c "[") as [->|H2]; [by apply plain_char_step|].
    destruct (Ascii.eqb_spec c "]") as [->|H3]; [by apply plain_char_step|].
    destruct (Ascii.eqb_spec c ",") as [->|H4]; [apply replace_from_hit|].
    by apply plain_char_step.
Qed.

Lemma esc_char_off t : map_chars (esc_char false false false false) t = t.
Proof.
  rewrite <- (map_chars_id t) at 2. apply map_chars_ext. intros c.
  unfold esc_char.
  destruct (Ascii.eqb_spec c "&") as [->|_]; [done|].
  destruct (Ascii.eqb_spec c "[") as [->|_]; [done|].
  destruct (Ascii.eqb_spec c "]") as [->|_]; [done|].
  by destruct (Ascii.eqb_spec c ",") as [->|_].
Qed.

Lemma anti_escape_escape text :
  CQEncoder.anti_escape (CQEncoder.escape text)
  = str_replace "&#44;" ","
      (str_replace "&#93;" "]" (str_replace "&#91;" "[" text)).
Proof.
  unfold CQEncoder.anti_escape. rewrite escape_by_char.
  by rewrite unescape_amp, unescape_lbr, unescape_rbr, unescape_comma,
    esc_char_off.
Qed.

Lemma replace_length_le a p x t :
  String.length (str_replace (String a p) (String x EmptyString) t)
  <= String.length t.
Proof.
  pose proof (replace_from_length (String a p) x 0 t). unfold str_replace. lia.
Qed.

End CQFacts.

(** X15. [escape] works character by character: [&], [[], []] and [,]
    become [&amp;], [&#91;], [&#93;] and [&#44;], every other character
    is kept, so the escape of a concatenation is the concatenation of
    the escapes and the result holds no [[], []] or [,]. *)
Theorem escape_is_charwise text more :
  CQEncoder.escape text = map_chars (esc_char true true true true) text
  /\ CQEncoder.escape (text +:+ more)
     = CQEncoder.escape text +:+ CQEncoder.escape more
  /\ has_char "[" (CQEncoder.escape text) = false
  /\ has_char "]" (CQEncoder.escape text) = false
  /\ has_char "," (CQEncoder.escape text) = false.
Proof.
  split; [apply escape_by_char|].
  split; [by rewrite !escape_by_char, map_chars_app|].
  rewrite escape_by_char.
  repeat split; apply has_char_map_chars; intros c; apply esc_char_clean.
Qed.

(** X16. [anti_escape] after [escape] undoes the escaping and then also
    decodes the [&#91;], [&#93;] and [&#44;] that the text had of its
    own; an [&amp;] of the text is kept. *)
Theorem anti_escape_after_escape text :
  CQEncoder.anti_escape (CQEncoder.escape text)
  = str_replace "&#44;" ","
      (str_replace "&#93;" "]" (str_replace "&#91;" "[" text))
  /\ CQEncoder.anti_escape (CQEncoder.escape ("&amp;" +:+ text))
     = "&amp;" +:+ CQEncoder.anti_escape (CQEncoder.escape text).
Proof.
  split; [apply anti_escape_escape|].
  rewrite !anti_escape_escape.
  unfold str_replace. rewrite !append_String, append_empty.
  by rewrite !replace_from_pass.
Qed.

(** X17. [escape] followed by [anti_escape] gives the text back exactly
    when the text holds none of [&#91;], [&#93;] and [&#44;]. *)
Theorem escape_round_trip_iff text :
  CQEncoder.anti_escape (CQEncoder.escape text) = text
  <-> has_substring "&#91;" text = false
      /\ has_substring "&#93;" text = false
      /\ has_substring "&#44;" text = false.
Proof.
  rewrite anti_escape_escape. split.
  - intros Heq. apply (f_equal String.length) in Heq.
    pose proof (replace_length_le "&" "#91;" "[" text) as H1.
    pose proof (replace_length_le "&" "#93;" "]"
                  (str_replace "&#91;" "[" text)) as H2.
    pose proof (replace_length_le "&" "#44;" ","
                  (str_replace "&#93;" "]" (str_replace "&#91;" "[" text)))
      as H3.
    destruct (has_substring "&#91;" text) eqn:Hl.
    { pose proof (replace_present_shorter "&" "#" "91;" "[" text Hl). lia. }
    rewrite (replace_absent "&" "#91;" "[" text Hl) in *.
    destruct (has_substring "&#93;" text) eqn:Hr.
    { pose proof (replace_present_shorter "&" "#" "93;" "]" text Hr). lia. }
    rewrite (replace_absent "&" "#93;" "]" text Hr) in *.
    destruct (has_substring "&#44;" text) eqn:Hc; [|done].
    pose proof (replace_present_shorter "&" "#" "44;" "," text Hc). lia.
  - intros (Hl & Hr & Hc).
    by rewrite (replace_absent "&" "#91;" "[" text Hl),
      (replace_absent "&" "#93;" "]" text Hr),
      (replace_absent "&" "#44;" "," text Hc).
Qed.

(** A text that holds an escape of its own does not come back. *)
Example escape_round_trip_samples :
  CQEncoder.escape "a&b[1,2]" = "a&amp;b&#91;1&#44;2&#93;"
  /\ CQEncoder.anti_escape (CQEncoder.escape "a&b[1,2]") = "a&b[1,2]"
  /\ CQEncoder.escape "&#91;" = "&amp;#91;"
  /\ CQEncoder.anti_escape (CQEncoder.escape "&#91;") = "[".
Proof. repeat split; reflexivity. Qed.

(** ** Action packers *)

Section PackerFacts.

Context `{PyBuiltins}.

Lemma dict_at_set self k v h :
  dict_at (dict_store_set self k v h) self = <[k := v]> (dict_at h self).
Proof. unfold dict_store_set, dict_at at 1. by rewrite lookup_insert_eq. Qed.

Lemma dict_store_set_other id self k v h :
  id <> self -> dict_store_set self k v h !! id = h !! id.
Proof. intros Hne. unfold dict_store_set. by rewrite lookup_insert_ne. Qed.

Lemma dict_at_auto self p h :
  dict_at (if p : bool
           then dict_store_set self "auto_escape" (ParamVal (PyBool true)) h
           else h) self
  = with_auto_escape p (dict_at h self).
Proof. destruct p; [apply dict_at_set|done]. Qed.

Lemma private_pack_cases self msgs userId p h :
  (exists e, MsgSendPacker.private_pack self msgs userId p h = (Raise e, h))
  \/ (exists pkg h',
        MsgSendPacker.private_pack self msgs userId p h = (Ok pkg, h')
        /\ packed_as self h msgs p ToUser userId pkg h').
Proof.
  unfold MsgSendPacker.private_pack.
  destruct (MsgSendPacker.message_value msgs) as [m|e] eqn:Hm;
    [right|left; by exists e].
  eexists _, _. split; [reflexivity|]. split; [done|]. split.
  - exists m. split; [done|].
    by rewrite dict_at_set, dict_at_auto, dict_at_set.
  - intros id Hne. destruct p; by rewrite !dict_store_set_other.
Qed.

Lemma group_pack_cases self msgs groupId p h :
  (exists e, MsgSendPacker.group_pack self msgs groupId p h = (Raise e, h))
  \/ (exists pkg h',
        MsgSendPacker.group_pack self msgs groupId p h = (Ok pkg, h')
        /\ packed_as self h msgs p ToGroup groupId pkg h').
Proof.
  unfold MsgSendPacker.group_pack.
  destruct (MsgSendPacker.message_value msgs) as [m|e] eqn:Hm;
    [right|left; by exists e].
  eexists _, _. split; [reflexivity|]. split; [done|]. split.
  - exists m. split; [done|].
    by rewrite dict_at_set, dict_at_auto, dict_at_set.
  - intros id Hne. destruct p; by rewrite !dict_store_set_other.
Qed.

Lemma pack_for_user_cases self event msgs p h :
  (exists e, MsgSendPacker.pack_for_user self event msgs p h = (Raise e, h))
  \/ (exists pkg h' userId,
        MsgSendPacker.pack_for_user self event msgs p h = (Ok pkg, h')
        /\ dict_get "user_id" event = Some userId
        /\ packed_as self h msgs p ToUser userId pkg h').
Proof.
  unfold MsgSendPacker.pack_for_user, dict_item.
  destruct (dict_get "user_id" event) as [userId|]; [|left; by eexists].
  destruct (private_pack_cases self msgs userId p h)
    as [[e He]|(pkg & h' & Hp & Has)]; [left; by exists e|right].
  by exists pkg, h', userId.
Qed.

Lemma pack_for_group_cases self event msgs p h :
  (exists e, MsgSendPacker.pack_for_group self event msgs p h = (Raise e, h))
  \/ (exists pkg h' groupId,
        MsgSendPacker.pack_for_group self event msgs p h = (Ok pkg, h')
        /\ dict_get "group_id" event = Some groupId
        /\ packed_as self h msgs p ToGroup groupId pkg h').
Proof.
  unfold MsgSendPacker.pack_for_group, dict_item.
  destruct (dict_get "group_id" event) as [groupId|]; [|left; by eexists].
  destruct (group_pack_cases self msgs groupId p h)
    as [[e He]|(pkg & h' & Hp & Has)]; [left; by exists e|right].
  by exists pkg, h', groupId.
Qed.

(** [pack] either raises and leaves the store as it was, or packs for
    the group or for the user of the event. *)
Lemma pack_cases self event msgs p h log :
  (exists e log',
     MsgSendPacker.pack self event msgs p h log = (Raise e, h, log')
     /\ (log' = log
         \/ e = OtherException "BotUnexpectedEvent" "预期之外的 event 事件"
            /\ log' = log ++ [(Logger.ERROR,
                               "消息 action 封装错误，事件 "
                               +:+ py_str (ObjVal (PyDict event))
                               +:+ " 不合法！")]))
  \/ (exists pkg h' t v,
        MsgSendPacker.pack self event msgs p h log = (Ok pkg, h', log)
        /\ dict_get (target_key t) event = Some v
        /\ packed_as self h msgs p t v pkg h').
Proof.
  assert (forall r : result package * dict_store,
            ((exists e, r = (Raise e, h))
             \/ exists pkg h' t v,
                 r = (Ok pkg, h')
                 /\ dict_get (target_key t) event = Some v
                 /\ packed_as self h msgs p t v pkg h') ->
            (exists e log', (r, log) = (Raise e, h, log')
               /\ (log' = log
                   \/ e = OtherException "BotUnexpectedEvent"
                                         "预期之外的 event 事件"
                      /\ log' = log ++ [(Logger.ERROR,
                               "消息 action 封装错误，事件 "
                               +:+ py_str (ObjVal (PyDict event))
                               +:+ " 不合法！")]))
            \/ (exists pkg h' t v,
                  (r, log) = (Ok pkg, h', log)
                  /\ dict_get (target_key t) event = Some v
                  /\ packed_as self h msgs p t v pkg h')) as Hlift.
  { intros r [[e ->]|(pkg & h' & t & v & -> & Hv & Has)].
    - left. exists e, log. by split; [|left].
    - right. by exists pkg, h', t, v. }
  assert ((exists e, MsgSendPacker.pack_for_user self event msgs p h
                     = (Raise e, h))
          \/ exists pkg h' t v,
              MsgSendPacker.pack_for_user self event msgs p h = (Ok pkg, h')
              /\ dict_get (target_key t) event = Some v
              /\ packed_as self h msgs p t v pkg h') as Huser.
  { destruct (pack_for_user_cases self event msgs p h)
      as [?|(pkg & h' & v & ? & ? & ?)]; [by left|right].
    by exists pkg, h', ToUser, v. }
  assert ((exists e, MsgSendPacker.pack_for_group self event msgs p h
                     = (Raise e, h))
          \/ exists pkg h' t v,
              MsgSendPacker.pack_for_group self event msgs p h = (Ok pkg, h')
              /\ dict_get (target_key t) event = Some v
              /\ packed_as self h msgs p t v pkg h') as Hgroup.
  { destruct (pack_for_group_cases self event msgs p h)
      as [?|(pkg & h' & v & ? & ? & ?)]; [by left|right].
    by exists pkg, h', ToGroup, v. }
  unfold MsgSendPacker.pack.
  destruct (MsgSendPacker.is_group_message event) as [[|]|e];
    [by apply Hlift| |left; exists e, log; by split; [|left]].
  destruct (MsgSendPacker.is_private_message event) as [[|]|e];
    [by apply Hlift| |left; exists e, log; by split; [|left]].
  destruct (MsgSendPacker.is_poke_notice event) as [[|]|e];
    [|left; eexists _, _; split; [reflexivity|by right]
     |left; exists e, log; by split; [|left]].
  destruct (has_key "group_id" event); by apply Hlift.
Qed.

Lemma do_pack_cases self c h :
  (exists e, do_pack self c h = (Raise e, h))
  \/ (exists pkg h' t v,
        do_pack self c h = (Ok pkg, h')
        /\ packed_as self h (call_msgs c) (is_pure_text c) t v pkg h').
Proof.
  destruct c as [msgs userId p|msgs groupId p|event msgs p];
    cbn [do_pack call_msgs is_pure_text].
  - destruct (private_pack_cases self msgs userId p h)
      as [?|(pkg & h' & ? & ?)]; [by left|right].
    by exists pkg, h', ToUser, userId.
  - destruct (group_pack_cases self msgs groupId p h)
      as [?|(pkg & h' & ? & ?)]; [by left|right].
    by exists pkg, h', ToGroup, groupId.
  - destruct (pack_cases self event msgs p h [])
      as [(e & log' & -> & _)|(pkg & h' & t & v & -> & _ & Has)];
      [left; by exists e|right].
    by exists pkg, h', t, v.
Qed.

Lemma params_kept_refl self h : params_kept self h h.
Proof. by repeat split. Qed.

Lemma params_kept_trans self h1 h2 h3 :
  params_kept self h1 h2 -> params_kept self h2 h3 -> params_kept self h1 h3.
Proof.
  intros (Ha1 & Ha2 & Ha3 & Ha4) (Hb1 & Hb2 & Hb3 & Hb4).
  split; [|split; [|split]].
  - intros k Hk. by apply Hb1, Ha1.
  - intros k Hk. by rewrite Hb2, Ha2.
  - intros Hk. by apply Hb3, Ha3.
  - intros id Hne. by rewrite Hb4, Ha4.
Qed.

Lemma target_key_cases t :
  target_key t = "user_id" \/ target_key t = "group_id".
Proof. destruct t; [by left|by right]. Qed.

Lemma with_auto_escape_lookup p d k :
  k <> "auto_escape" -> with_auto_escape p d !! k = d !! k.
Proof. intros Hne. destruct p; [|done]. simpl. by rewrite lookup_insert_ne. Qed.

Lemma with_auto_escape_auto p d :
  with_auto_escape p d !! "auto_escape"
  = if p then Some (ParamVal (PyBool true)) else d !! "auto_escape".
Proof. destruct p; [|done]. simpl. by rewrite lookup_insert_eq. Qed.

Lemma packed_as_kept self h msgs p t v pkg h' :
  packed_as self h msgs p t v pkg h' -> params_kept self h h'.
Proof.
  intros (_ & (m & _ & Hd) & Hother).
  split; [|split; [|split]]; [| | |done]; rewrite Hd.
  - intros k Hk.
    destruct (decide (k = target_key t)) as [->|Hk1];
      [by rewrite lookup_insert_eq|rewrite lookup_insert_ne by done].
    destruct (decide (k = "auto_escape")) as [->|Hk2].
    { rewrite with_auto_escape_auto. destruct p; [done|].
      by rewrite lookup_insert_ne. }
    rewrite with_auto_escape_lookup by done.
    destruct (decide (k = "message")) as [->|Hk3];
      [by rewrite lookup_insert_eq|by rewrite lookup_insert_ne].
  - intros k Hk.
    rewrite !not_elem_of_cons in Hk. destruct Hk as (? & ? & ? & ? & _).
    rewrite lookup_insert_ne by (by destruct t).
    rewrite with_auto_escape_lookup by done.
    by rewrite lookup_insert_ne.
  - intros Hauto.
    rewrite lookup_insert_ne by (by destruct t).
    rewrite with_auto_escape_auto. destruct p; [done|].
    by rewrite lookup_insert_ne.
Qed.

Lemma do_pack_kept self c h : params_kept self h (do_pack self c h).2.
Proof.
  destruct (do_pack_cases self c h)
    as [[e ->]|(pkg & h' & t & v & -> & Has)];
    [apply params_kept_refl|by eapply packed_as_kept].
Qed.

Lemma do_packs_kept self cs h : params_kept self h (do_packs self cs h).
Proof.
  revert h. induction cs as [|c cs IH]; intros h; [apply params_kept_refl|].
  eapply params_kept_trans; [apply (do_pack_kept self c h)|apply IH].
Qed.

Lemma packed_as_pure self h msgs t v pkg h' :
  packed_as self h msgs true t v pkg h' ->
  dict_at h' self !! "auto_escape" = Some (ParamVal (PyBool true)).
Proof.
  intros (_ & (m & _ & ->) & _).
  rewrite lookup_insert_ne by (by destruct t).
  by rewrite with_auto_escape_auto.
Qed.

Lemma str_join_from_strings i l :
  str_join_from i (CQStr <$> l) = Ok (foldr String.append EmptyString l).
Proof.
  revert i. induction l as [|s l IH]; intros i; [done|].
  cbn [fmap list_fmap str_join_from foldr].
  by rewrite (IH (S i)).
Qed.

Lemma append_empty_r s : s +:+ EmptyString = s.
Proof.
  induction s as [|c s IH]; [done|].
  change (String c s +:+ EmptyString) with (String c (s +:+ EmptyString)).
  by rewrite IH.
Qed.

(** X18. A [MsgSendPacker] never clears its [params]: through any
    sequence of calls, failed or not, a key once set stays set, keys
    other than the four the packer writes keep their values, an
    [auto_escape] that is true stays true, other dictionaries are not
    touched, and every action built from a later package has all the
    keys. *)
Theorem packed_params_pile_up self cs h isEcho now :
  let h' := do_packs self cs h in
  (forall k, is_Some (dict_at h self !! k) -> is_Some (dict_at h' self !! k))
  /\ (forall k, k ∉ ["message"; "auto_escape"; "user_id"; "group_id"] ->
        dict_at h' self !! k = dict_at h self !! k)
  /\ (dict_at h self !! "auto_escape" = Some (ParamVal (PyBool true)) ->
      dict_at h' self !! "auto_escape" = Some (ParamVal (PyBool true)))
  /\ (forall id, id <> self -> h' !! id = h !! id)
  /\ (forall c pkg h'',
        do_pack self c h' = (Ok pkg, h'') ->
        forall k,
          is_Some (dict_at h self !! k) ->
          is_Some (action_params (ActionBuilder.build pkg isEcho now h'')
                   !! k)).
Proof.
  intros h'. pose proof (do_packs_kept self cs h) as Hkept. fold h' in Hkept.
  destruct Hkept as (Hk1 & Hk2 & Hk3 & Hk4).
  do 4 (split; [done|]).
  intros c pkg h'' Hc k Hk.
  destruct (do_pack_cases self c h')
    as [[e He]|(pkg' & h2 & t & v & Hc' & Has)]; [congruence|].
  rewrite Hc in Hc'. injection Hc' as <- <-.
  destruct (packed_as_kept _ _ _ _ _ _ _ _ Has) as (Hs1 & _).
  destruct Has as (-> & _). cbn. by apply Hs1, Hk1.
Qed.

(** X19. Once a message was packed as pure text, every action packed
    later by the same packer carries [auto_escape] true, whatever its
    own [isPureText]. *)
Theorem pure_text_stays self c1 cs c2 h pkg1 h1 pkg2 h2 isEcho now :
  is_pure_text c1 = true ->
  do_pack self c1 h = (Ok pkg1, h1) ->
  do_pack self c2 (do_packs self cs h1) = (Ok pkg2, h2) ->
  action_params (ActionBuilder.build pkg2 isEcho now h2) !! "auto_escape"
  = Some (ParamVal (PyBool true)).
Proof.
  intros Hpure H1 H2.
  destruct (do_pack_cases self c1 h)
    as [[e He]|(pkg & h' & t & v & Hc & Has)]; [congruence|].
  rewrite H1 in Hc. injection Hc as <- <-. rewrite Hpure in Has.
  apply packed_as_pure in Has.
  destruct (do_packs_kept self cs h1) as (_ & _ & Hauto & _).
  apply Hauto in Has.
  destruct (do_pack_cases self c2 (do_packs self cs h1))
    as [[e He]|(pkg & h' & t' & v' & Hc & Has')]; [congruence|].
  rewrite H2 in Hc. injection Hc as <- <-.
  destruct (packed_as_kept _ _ _ _ _ _ _ _ Has') as (_ & _ & Hauto' & _).
  destruct Has' as (-> & _). cbn. by apply Hauto'.
Qed.

(** X20. A package is not a copy: built after a later call of its
    packer, an earlier package gives the parameters of the later call,
    under its own action name. *)
Theorem earlier_package_follows_later_pack
  self c1 c2 h pkg1 h1 pkg2 h2 isEcho now :
  do_pack self c1 h = (Ok pkg1, h1) ->
  do_pack self c2 h1 = (Ok pkg2, h2) ->
  action_params (ActionBuilder.build pkg1 isEcho now h2)
  = action_params (ActionBuilder.build pkg2 isEcho now h2)
  /\ action_name (ActionBuilder.build pkg1 isEcho now h2) = action_type pkg1
  /\ exists m,
       MsgSendPacker.message_value (call_msgs c2) = Ok m
       /\ action_params (ActionBuilder.build pkg1 isEcho now h2) !! "message"
          = Some m.
Proof.
  intros H1 H2.
  destruct (do_pack_cases self c1 h)
    as [[e He]|(pkg & h' & t & v & Hc & (Hpkg1 & _))]; [congruence|].
  rewrite H1 in Hc. injection Hc as <- <-.
  destruct (do_pack_cases self c2 h1)
    as [[e He]|(pkg & h' & t' & v' & Hc & (Hpkg2 & (m & Hm & Hd) & _))];
    [congruence|].
  rewrite H2 in Hc. injection Hc as <- <-. subst pkg1 pkg2.
  split; [done|]. split; [done|].
  exists m. split; [done|]. cbn. rewrite Hd.
  rewrite lookup_insert_ne by (by destruct t').
  rewrite with_auto_escape_lookup by done.
  by rewrite lookup_insert_eq.
Qed.

(** X21. [pack] is all or nothing. When it raises, the store is as
    before, and the log has one more record exactly for an event of no
    expected kind; when it returns, nothing is logged and the package is
    for the group or for the user named in the event. A group message
    without the key [message] is of no expected kind. *)
Theorem pack_raises_or_targets self event msgs p h log :
  let out := MsgSendPacker.pack self event msgs p h log in
  match out.1.1 with
  | Raise e =>
      out.1.2 = h
      /\ (out.2 = log
          \/ e = OtherException "BotUnexpectedEvent" "预期之外的 event 事件"
             /\ out.2 = log ++ [(Logger.ERROR,
                                 "消息 action 封装错误，事件 "
                                 +:+ py_str (ObjVal (PyDict event))
                                 +:+ " 不合法！")])
  | Ok pkg =>
      out.2 = log
      /\ exists t v,
           dict_get (target_key t) event = Some v
           /\ packed_as self h msgs p t v pkg out.1.2
  end
  /\ (dict_get "post_type" event = Some (PyStr "message") ->
      dict_get "message_type" event = Some (PyStr "group") ->
      has_key "message" event = false ->
      out.1.1 = Raise (OtherException "BotUnexpectedEvent"
                                      "预期之外的 event 事件")).
Proof.
  intros out. split.
  - destruct (pack_cases self event msgs p h log)
      as [(e & log' & Hout & Hlog)|(pkg & h' & t & v & Hout & Hv & Has)];
      fold out in Hout; rewrite Hout; cbn.
    + done.
    + split; [done|]. by exists t, v.
  - intros Hpost Htype Hkey. unfold out, MsgSendPacker.pack.
    unfold MsgSendPacker.is_group_message, MsgSendPacker.is_private_message,
      MsgSendPacker.is_poke_notice, dict_item.
    by rewrite Hpost, Htype, Hkey.
Qed.

(** X22. [text_action] replies where the event came from, with the text
    as it is given (it is not escaped) and with whatever the packer's
    [params] held before. *)
Theorem text_action_replies packer event text now h log :
  (dict_get "post_type" event = Some (PyStr "message") ->
   has_key "message" event = true ->
   dict_get "message_type" event = Some (PyStr "group") ->
   forall groupId,
     dict_get "group_id" event = Some groupId ->
     exists h',
       text_action packer event text now h log
       = (Ok (mk_action
                "send_group_msg"
                (<["group_id" := ParamVal groupId]>
                   (<["message" := ParamVal (PyStr text)]> (dict_at h packer)))
                None),
          h', log)
       /\ dict_at h' packer
          = <["group_id" := ParamVal groupId]>
              (<["message" := ParamVal (PyStr text)]> (dict_at h packer)))
  /\ (dict_get "post_type" event = Some (PyStr "message") ->
      dict_get "message_type" event = Some (PyStr "private") ->
      forall userId,
        dict_get "user_id" event = Some userId ->
        exists h',
          text_action packer event text now h log
          = (Ok (mk_action
                   "send_private_msg"
                   (<["user_id" := ParamVal userId]>
                      (<["message" := ParamVal (PyStr text)]>
                         (dict_at h packer)))
                   None),
             h', log)
          /\ dict_at h' packer
             = <["user_id" := ParamVal userId]>
                 (<["message" := ParamVal (PyStr text)]> (dict_at h packer))).
Proof.
  split.
  - intros Hpost Hkey Htype groupId Hgroup.
    unfold text_action, MsgSendPacker.pack, MsgSendPacker.is_group_message,
      dict_item.
    rewrite Hpost, Htype, Hkey.
    change (py_eq (PyStr "message") (PyStr "message")) with true.
    change (py_eq (PyStr "group") (PyStr "group")) with true.
    cbn [andb].
    unfold MsgSendPacker.pack_for_group, dict_item. rewrite Hgroup.
    unfold MsgSendPacker.group_pack, MsgSendPacker.message_value, str_join.
    cbn [CQEncoder.text str_join_from]. rewrite append_empty_r.
    eexists. split.
    { unfold ActionBuilder.build. cbn [action_type params_ref].
      by rewrite !dict_at_set. }
    by rewrite !dict_at_set.
  - intros Hpost Htype userId Huser.
    unfold text_action, MsgSendPacker.pack, MsgSendPacker.is_group_message,
      MsgSendPacker.is_private_message, dict_item.
    rewrite Hpost, Htype.
    change (py_eq (PyStr "message") (PyStr "message")) with true.
    change (py_eq (PyStr "private") (PyStr "group")) with false.
    change (py_eq (PyStr "private") (PyStr "private")) with true.
    cbn [andb].
    assert (forall b : bool,
              (if b
               then Ok false
               else @Ok bool false) = Ok false) as Hif by by intros [].
    rewrite Hif.
    unfold MsgSendPacker.pack_for_user, dict_item. rewrite Huser.
    unfold MsgSendPacker.private_pack, MsgSendPacker.message_value, str_join.
    cbn [CQEncoder.text str_join_from]. rewrite append_empty_r.
    eexists. split.
    { unfold ActionBuilder.build. cbn [action_type params_ref].
      by rewrite !dict_at_set. }
    by rewrite !dict_at_set.
Qed.

End PackerFacts.

Lemma pure_text_stays_sample :
  let c1 := PrivatePack [CQStr "[CQ:face,id=1]"] (PyInt 3) true in
  let c2 := GroupPack [CQStr "[CQ:face,id=2]"] (PyInt 7) false in
  let r1 := @do_pack sample_builtins 0%nat c1 ∅ in
  let r2 := @do_pack sample_builtins 0%nat c2 r1.2 in
  is_pure_text c2 = false
  /\ action_params (ActionBuilder.build (mk_package "send_group_msg" 0) false 0
                                        r2.2)
     !! "auto_escape"
     = Some (ParamVal (PyBool true)).
Proof.
  intros c1 c2 r1 r2. split; [reflexivity|].
  apply (@pure_text_stays sample_builtins 0%nat c1 [] c2 ∅
           (mk_package "send_private_msg" 0) r1.2
           (mk_package "send_group_msg" 0) r2.2 false 0);
    reflexivity.
Defined.

Lemma earlier_package_follows_later_pack_sample :
  let c1 := PrivatePack [CQStr "one"] (PyInt 3) false in
  let c2 := GroupPack [CQStr "two"] (PyInt 7) false in
  let r1 := @do_pack sample_builtins 0%nat c1 ∅ in
  let r2 := @do_pack sample_builtins 0%nat c2 r1.2 in
  r1.1 = Ok (mk_package "send_private_msg" 0)
  /\ action_params (ActionBuilder.build (mk_package "send_private_msg" 0)
                                        false 0 r1.2)
     !! "message"
     = Some (ParamVal (PyStr "one"))
  /\ action_params (ActionBuilder.build (mk_package "send_private_msg" 0)
                                        false 0 r2.2)
     = action_params (ActionBuilder.build (mk_package "send_group_msg" 0)
                                          false 0 r2.2).
Proof.
  intros c1 c2 r1 r2. split; [reflexivity|]. split; [reflexivity|].
  apply (@earlier_package_follows_later_pack sample_builtins 0%nat c1 c2 ∅
           (mk_package "send_private_msg" 0) r1.2
           (mk_package "send_group_msg" 0) r2.2 false 0);
    reflexivity.
Defined.

(** A reply to a group and then to a user, by the same packer: the second
    action still names the group. A group message event without the key
    [message] is refused. *)
Example text_action_samples :
  let r1 := @text_action sample_builtins 0%nat sample_group_event "hi [1]" 0
                         ∅ [] in
  let r2 := @text_action sample_builtins 0%nat sample_private_event "you" 0
                         r1.1.2 [] in
  match r1.1.1 with
  | Ok a =>
      action_name a = "send_group_msg"
      /\ action_params a !! "message" = Some (ParamVal (PyStr "hi [1]"))
      /\ action_params a !! "group_id" = Some (ParamVal (PyInt 7))
      /\ action_params a !! "user_id" = None
  | Raise _ => False
  end
  /\ match r2.1.1 with
     | Ok a =>
         action_name a = "send_private_msg"
         /\ action_params a !! "message" = Some (ParamVal (PyStr "you"))
         /\ action_params a !! "user_id" = Some (ParamVal (PyInt 3))
         /\ action_params a !! "group_id" = Some (ParamVal (PyInt 7))
     | Raise _ => False
     end
  /\ (@text_action sample_builtins 0%nat
        [("post_type", PyStr "message"); ("message_type", PyStr "group");
         ("group_id", PyInt 7)] "hi" 0 ∅ []).1.1
     = Raise (OtherException "BotUnexpectedEvent" "预期之外的 event 事件").
Proof. repeat split; reflexivity. Qed.
